(** * A shallow embedding of the Monkey interpreter (connorjbarry/monkey)

    The development follows the Go sources:
    - [Token] and [Parser] embed the token package and the Pratt parser;
    - [Ast] is the syntax tree the parser builds and the evaluator walks;
    - [Object] is the runtime value universe and the memory the evaluator
      allocates in (environments and array backing stores);
    - [Evaluator] embeds [evaluator.go] and [builtins.go].

    Go's run-time panics are an explicit outcome, and every recursive Go call
    of [Eval] (and of the parser's functions) consumes one unit of fuel. *)

From Stdlib Require Import ZArith String Ascii List Lia Permutation.
From stdpp Require Import base option list gmap strings pretty.

Set Warnings "-register-all".

Local Open Scope string_scope.
Local Open Scope Z_scope.

(** ** Running Go code

    A Go function works on a state (the memory, or the parser) and either
    returns, or panics, or is still running when the fuel is spent. *)

Module Go.

Inductive Outcome (St A : Type) : Type :=
  | Done (a : A) (s : St)
  | Panic (reason : string)
  | OutOfFuel.

Arguments Done {St A} a s.
Arguments Panic {St A} reason.
Arguments OutOfFuel {St A}.

Definition M (St A : Type) : Type := St -> Outcome St A.

Definition ret {St A} (a : A) : M St A := fun s => Done a s.

Definition bind {St A B} (c : M St A) (k : A -> M St B) : M St B :=
  fun s =>
    match c s with
    | Done a s' => k a s'
    | Panic r => Panic r
    | OutOfFuel => OutOfFuel
    end.

Definition panic {St A} (reason : string) : M St A := fun _ => Panic reason.

Definition outOfFuel {St A} : M St A := fun _ => OutOfFuel.

Definition get {St} : M St St := fun s => Done s s.

Definition put {St} (s : St) : M St unit := fun _ => Done tt s.

(** The computation [c] keeps the property [I] of the state, whenever it
    returns. *)
Definition preserves {St A} (I : St -> Prop) (c : M St A) : Prop :=
  forall s a s', I s -> c s = Done a s' -> I s'.

(** From a state with the property [I], the computation [c] does not panic,
    and keeps [I] if it returns. *)
Definition steady {St A} (I : St -> Prop) (c : M St A) : Prop :=
  forall s, I s ->
    match c s with
    | Done _ s' => I s'
    | Panic _ => False
    | OutOfFuel => True
    end.

Notation "'let*' x ':=' c 'in' k" := (bind c (fun x => k))
  (at level 10, x name, c at level 100, k at level 200).
Notation "c ;; k" := (bind c (fun _ => k))
  (at level 100, k at level 200, right associativity).

End Go.

(** ** Formatting (package fmt)

    [newError] in evaluator.go hands its format and operands to
    [fmt.Sprintf]. Where the callers give operands, each is a string under
    the verb [%s] of a constant format, and the message is the concatenation
    the model writes out. [evalIdentifier] gives no operand and puts the
    identifier into the format itself: [Sprintf] is what [fmt.Sprintf] makes
    of a format when there is no operand, after [doPrintf] of fmt's
    print.go. *)

Module Fmt.

Definition isFlag (c : ascii) : bool :=
  existsb (Ascii.eqb c) ["#"; "0"; "+"; "-"; " "]%char.

Definition digit (c : ascii) : option Z :=
  let n := Z.of_N (N_of_ascii c) in
  if (48 <=? n) && (n <=? 57) then Some (n - 48) else None.

(** The flags after [%]. *)
Fixpoint skipFlags (s : string) : string :=
  match s with
  | String c s' => if isFlag c then skipFlags s' else s
  | EmptyString => s
  end.

(** [parsenum]: the digits at the head of [s]; whether there was one, and
    what follows them. A number above a million ends the parse at the end of
    the text, as no number. *)
Fixpoint parsenumFrom (num : Z) (isnum : bool) (s : string) : bool * string :=
  match s with
  | String c s' =>
      match digit c with
      | Some d => if 1000000 <? num then (false, EmptyString)
                  else parsenumFrom (num * 10 + d) true s'
      | None => (isnum, s)
      end
  | EmptyString => (isnum, s)
  end.

Definition parsenum (s : string) : bool * string := parsenumFrom 0 false s.

(** The text up to the first [close] in [s], when there is one. *)
Fixpoint upTo (close : ascii) (s : string) : option string :=
  match s with
  | String c s' =>
      if Ascii.eqb c close then Some EmptyString
      else option_map (String c) (upTo close s')
  | EmptyString => None
  end.

Fixpoint dropString (n : nat) (s : string) : string :=
  match n, s with
  | S n', String _ s' => dropString n' s'
  | _, _ => s
  end.

(** [parseArgNumber] on a text that starts with the opening bracket: the
    width of the index, and whether it is a number in brackets. *)
Definition parseArgNumber (s : string) : nat * bool :=
  if (String.length s <? 3)%nat then (1%nat, false)
  else
    match upTo "]" (dropString 1 s) with
    | None => (1%nat, false)
    | Some inner =>
        let (isnum, rest) := parsenum inner in
        (S (S (String.length inner)),
         isnum && (match rest with EmptyString => true | _ => false end))
    end.

(** What follows the byte [c] at the head of [s], when [s] starts with it. *)
Definition after (c : ascii) (s : string) : option string :=
  match s with
  | String c' s' => if Ascii.eqb c' c then Some s' else None
  | EmptyString => None
  end.

(** [argNumber] when there is no operand: an index is never in range, so it
    spoils [goodArgNum]; [found] tells whether it was well formed. *)
Definition argNumber (goodArgNum : bool) (s : string) : bool * string * bool :=
  match after "[" s with
  | Some _ =>
      let (wid, ok) := parseArgNumber s in
      (false, dropString wid s, ok)
  | None => (goodArgNum, s, false)
  end.

Definition within (lo hi : Z) (c : ascii) : bool :=
  let n := Z.of_N (N_of_ascii c) in (lo <=? n) && (n <=? hi).

(** The bytes [utf8.RuneError] is written with. *)
Definition RuneError : string :=
  String (ascii_of_N 239) (String (ascii_of_N 191) (String (ascii_of_N 189) EmptyString)).

(** [utf8.DecodeRuneInString] followed by [writeRune]: the bytes written for
    the rune at the head of [s], and what follows the rune. A byte that
    starts no well-formed encoding is one rune, written as [RuneError]. *)
Definition writeRune (s : string) : string * string :=
  match s with
  | EmptyString => (EmptyString, EmptyString)
  | String c0 s1 =>
      let b0 := Z.of_N (N_of_ascii c0) in
      let bad := (RuneError, s1) in
      if b0 <? 128 then (String c0 EmptyString, s1)
      else if b0 <? 194 then bad
      else if b0 <? 224 then
        match s1 with
        | String c1 s2 =>
            if within 128 191 c1 then (String c0 (String c1 EmptyString), s2) else bad
        | _ => bad
        end
      else if b0 <? 240 then
        let lo := if b0 =? 224 then 160 else 128 in
        let hi := if b0 =? 237 then 159 else 191 in
        match s1 with
        | String c1 (String c2 s3) =>
            if within lo hi c1 && within 128 191 c2
            then (String c0 (String c1 (String c2 EmptyString)), s3) else bad
        | _ => bad
        end
      else if b0 <? 245 then
        let lo := if b0 =? 240 then 144 else 128 in
        let hi := if b0 =? 244 then 143 else 191 in
        match s1 with
        | String c1 (String c2 (String c3 s4)) =>
            if within lo hi c1 && within 128 191 c2 && within 128 191 c3
            then (String c0 (String c1 (String c2 (String c3 EmptyString))), s4) else bad
        | _ => bad
        end
      else bad
  end.

(** The width of a verb: [*] asks for an operand, and there is none. *)
Definition width (good afterIndex : bool) (s : string) : string * bool * string * bool :=
  match after "*" s with
  | Some s' => ("%!(BADWIDTH)", good, s', false)
  | None =>
      let (widPresent, s') := parsenum s in
      (EmptyString, if afterIndex && widPresent then false else good, s', afterIndex)
  end.

(** The precision of a verb, after a dot. *)
Definition precision (good afterIndex : bool) (s : string)
    : string * bool * string * bool :=
  match after "." s with
  | Some s' =>
      let good := if afterIndex then false else good in
      let '(good, s', afterIndex) := argNumber good s' in
      match after "*" s' with
      | Some s'' => ("%!(BADPREC)", good, s'', false)
      | None => (EmptyString, good, snd (parsenum s'), afterIndex)
      end
  | None => (EmptyString, good, s, afterIndex)
  end.

(** One verb, from the text after its [%]: what is written for it, and the
    text after it. *)
Definition verb (s : string) : string * string :=
  let s := skipFlags s in
  let '(good, s, afterIndex) := argNumber true s in
  let '(badWidth, good, s, afterIndex) := width good afterIndex s in
  let '(badPrec, good, s, afterIndex) := precision good afterIndex s in
  let '(good, s, _) :=
    if afterIndex then (good, s, afterIndex) else argNumber good s in
  let out := badWidth ++ badPrec in
  match s with
  | EmptyString => (out ++ "%!(NOVERB)", EmptyString)
  | _ =>
      match after "%" s with
      | Some s' => (out ++ "%", s')
      | None =>
          let (rune, s') := writeRune s in
          if good then (out ++ "%!" ++ rune ++ "(MISSING)", s')
          else (out ++ "%!" ++ rune ++ "(BADINDEX)", s')
      end
  end.

(** The loop of [doPrintf]; a unit of fuel for each byte of the format. *)
Fixpoint SprintfFrom (fuel : nat) (format : string) : string :=
  match fuel, format with
  | S fuel', String c s =>
      if Ascii.eqb c "%" then
        let (out, rest) := verb s in out ++ SprintfFrom fuel' rest
      else String c (SprintfFrom fuel' s)
  | _, _ => EmptyString
  end.

(** [fmt.Sprintf(format)] *)
Definition Sprintf (format : string) : string :=
  SprintfFrom (String.length format) format.

(** Whether [%] occurs in the text. *)
Fixpoint holdsPercent (s : string) : bool :=
  match s with
  | String c s' => Ascii.eqb c "%" || holdsPercent s'
  | EmptyString => false
  end.

End Fmt.

(** ** Tokens (package token) *)

Module Token.

Definition TokenType := string.

Record Token : Type := mkToken {
  Type_ : TokenType;
  Literal : string
}.

Definition ILLEGAL : TokenType := "ILLEGAL".
Definition EOF : TokenType := "EOF".
Definition IDENTIFER : TokenType := "IDENTIFER".
Definition INT : TokenType := "INT".
Definition STRING : TokenType := "STRING".
Definition PLUS : TokenType := "+".
Definition ASSIGN : TokenType := "=".
Definition MINUS : TokenType := "-".
Definition BANG : TokenType := "!".
Definition ASTERISK : TokenType := "*".
Definition SLASH : TokenType := "/".
Definition LT : TokenType := "<".
Definition GT : TokenType := ">".
Definition EQ : TokenType := "==".
Definition NEQ : TokenType := "!=".
Definition COMMA : TokenType := ",".
Definition SEMICOLON : TokenType := ";".
Definition COLON : TokenType := ":".
Definition LPAREN : TokenType := "(".
Definition RPAREN : TokenType := ")".
Definition LBRACKET : TokenType := "[".
Definition RBRACKET : TokenType := "]".
Definition LBRACE : TokenType := "{".
Definition RBRACE : TokenType := "}".
Definition FUNCTION : TokenType := "FUNCTION".
Definition LET : TokenType := "LET".
Definition TRUE : TokenType := "TRUE".
Definition FALSE : TokenType := "FALSE".
Definition IF : TokenType := "IF".
Definition ELSE : TokenType := "ELSE".
Definition RETURN : TokenType := "RETURN".

Definition keywords : gmap string TokenType :=
  list_to_map [("fn", FUNCTION); ("let", LET); ("true", TRUE); ("false", FALSE);
               ("if", IF); ("else", ELSE); ("return", RETURN)].

Definition LookupIdentifier (ident : string) : TokenType :=
  match keywords !! ident with
  | Some tok => tok
  | None => IDENTIFER
  end.

End Token.

(** ** The syntax tree (package ast)

    The nodes carry the fields the evaluator reads. The [Token] field of each
    node only serves the textual rendering and is left out. *)

Module Ast.

Inductive Expression : Type :=
  (** the nil interface value an expression slot holds after a parse failure *)
  | NilExpression
  | Identifier (Value : string)
  | IntegerLiteral (Value : Z)
  | Boolean (Value : bool)
  | StringLiteral (Value : string)
  | PrefixExpression (Operator : string) (Right : Expression)
  | InfixExpression (Left : Expression) (Operator : string) (Right : Expression)
  | IfExpression (Condition : Expression) (Consequence : list Statement)
                 (Alternative : option (list Statement))
  | FunctionLiteral (Params : list string) (Body : list Statement)
  | CallExpression (Func : Expression) (Args : list Expression)
  | ArrayLiteral (Elements : list Expression)
  | IndexExpression (Left : Expression) (Index : Expression)
  (** [Pairs] is a Go map keyed by the key node; the list keeps its entries
      in the order the parser inserted them *)
  | HashLiteral (Pairs : list (Expression * Expression))
with Statement : Type :=
  | LetStatement (Name : string) (Value : Expression)
  (** the nil [*LetStatement] that [parseLetStatement] returns on a failure,
      boxed in a non-nil [Statement] interface by [parseStatment] *)
  | NilLetStatement
  | ReturnStatement (ReturnValue : Expression)
  | ExpressionStatement (Expr : Expression)
  | BlockStatement (Statements : list Statement).

(** What [Eval] is called on: the [ast.Node] interface. *)
Inductive Node : Type :=
  | NProgram (Statements : list Statement)
  | NStatement (s : Statement)
  | NExpression (e : Expression).

End Ast.

(** ** The parser (package parser) *)

Module Parser.

Import Go Token.

Definition LOWEST : nat := 1.
Definition EQUALS : nat := 2.
Definition LESSGREATER : nat := 3.
Definition SUM : nat := 4.
Definition PRODUCT : nat := 5.
Definition PREFIX : nat := 6.
Definition CALL : nat := 7.
Definition INDEX : nat := 8.

Definition precedences : gmap string nat :=
  list_to_map [(EQ, EQUALS); (NEQ, EQUALS); (LT, LESSGREATER); (GT, LESSGREATER);
               (PLUS, SUM); (MINUS, SUM); (ASTERISK, PRODUCT); (SLASH, PRODUCT);
               (LPAREN, CALL); (LBRACKET, INDEX)].

(** Modelled from the spec: the lexer (section 4.1), which is not among the
    sources, is the list [l] of the tokens it has yet to produce before the
    end of its input; [NextToken] hands them out one by one and then yields
    EOF on every further call. *)
Definition NextToken (l : list Token) : Token * list Token :=
  match l with
  | [] => (mkToken EOF "", [])
  | tok :: l' => (tok, l')
  end.

Record Parser : Type := mkParser {
  l : list Token;
  currT : Token;
  peekT : Token;
  errors : list string
}.

Abbreviation P := (Go.M Parser).

(** The handlers registered in [prefixParseFns] and [infixParseFns]. *)
Inductive prefixParseFn : Type :=
  | parseIdentifierFn | parseIntegerLiteralFn | parsePrefixExpressionFn
  | parseBooleanFn | parseGroupedExpressionFn | parseIfExpressionFn
  | parseFunctionLiteralFn | parseStringLiteralFn | parseArrayLiteralFn
  | parseHashLiteralFn.

Inductive infixParseFn : Type :=
  | parseInfixExpressionFn | parseCallExpressionFn | parseIndexExpressionFn.

Definition prefixParseFns : gmap string prefixParseFn :=
  list_to_map [(IDENTIFER, parseIdentifierFn); (INT, parseIntegerLiteralFn);
               (BANG, parsePrefixExpressionFn); (MINUS, parsePrefixExpressionFn);
               (TRUE, parseBooleanFn); (FALSE, parseBooleanFn);
               (LPAREN, parseGroupedExpressionFn); (IF, parseIfExpressionFn);
               (FUNCTION, parseFunctionLiteralFn); (STRING, parseStringLiteralFn);
               (LBRACKET, parseArrayLiteralFn); (LBRACE, parseHashLiteralFn)].

Definition infixParseFns : gmap string infixParseFn :=
  list_to_map [(PLUS, parseInfixExpressionFn); (MINUS, parseInfixExpressionFn);
               (ASTERISK, parseInfixExpressionFn); (SLASH, parseInfixExpressionFn);
               (EQ, parseInfixExpressionFn); (NEQ, parseInfixExpressionFn);
               (LT, parseInfixExpressionFn); (GT, parseInfixExpressionFn);
               (LPAREN, parseCallExpressionFn); (LBRACKET, parseIndexExpressionFn)].

Definition nextToken : P unit :=
  fun p =>
    let (tok, l') := NextToken (l p) in
    Done tt (mkParser l' (peekT p) tok (errors p)).

(** [New(l)]: read two tokens, which sets [currT] and [peekT]. *)
Definition New (l : list Token) : Parser :=
  let p := mkParser l (mkToken "" "") (mkToken "" "") [] in
  match (nextToken ;; nextToken) p with
  | Done _ p' => p'
  | _ => p
  end.

Definition currType : P TokenType := fun p => Done (Type_ (currT p)) p.
Definition currLiteral : P string := fun p => Done (Literal (currT p)) p.
Definition peekType : P TokenType := fun p => Done (Type_ (peekT p)) p.

Definition currTIs (t : TokenType) : P bool :=
  fun p => Done (String.eqb (Type_ (currT p)) t) p.

Definition peekTokenIs (t : TokenType) : P bool :=
  fun p => Done (String.eqb (Type_ (peekT p)) t) p.

Definition appendError (msg : string) : P unit :=
  fun p => Done tt (mkParser (l p) (currT p) (peekT p) (errors p ++ [msg])).

Definition peekError (t : TokenType) : P unit :=
  let* got := peekType in
  appendError ("expected next token to be " ++ t ++ ", got " ++ got ++ " instead").

Definition noPrefixParseFnError (t : TokenType) : P unit :=
  appendError ("no prefix parse function found for " ++ t).

Definition expectPeek (t : TokenType) : P bool :=
  let* matches := peekTokenIs t in
  if matches then nextToken ;; ret true
  else peekError t ;; ret false.

Definition peekPrecendence : P nat :=
  let* t := peekType in
  ret (default LOWEST (precedences !! t)).

Definition currPrecendence : P nat :=
  let* t := currType in
  ret (default LOWEST (precedences !! t)).

(** [for !p.currTIs(token.SEMICOLON) { p.nextToken() }], the loop that ends
    [parseLetStatement] and [parseReturnStatement]; one unit of fuel for each
    test of the condition. *)
Fixpoint skipToSemicolon (fuel : nat) : P unit :=
  match fuel with
  | O => outOfFuel
  | S fuel' =>
      let* semicolon := currTIs SEMICOLON in
      if negb semicolon then nextToken ;; skipToSemicolon fuel'
      else ret tt
  end.

Section Host.

(** [strconv.ParseInt(literal, 0, 64)]; [None] when it returns an error. *)
Variable ParseInt : string -> option Z.

(** The [%q] verb of [fmt.Sprintf]. *)
Variable Quote : string -> string.

(** The parse functions call each other through [parseExpression]. They are
    written over [pe], which stands for that recursive call, and over the
    fuel [fuel] left for their own loops; [parseExpression] ties the knot. *)
Section Handlers.

Variable fuel : nat.
Variable pe : nat -> P Ast.Expression.

Definition parseLetStatement : P Ast.Statement :=
  let* isIdent := expectPeek IDENTIFER in
  if negb isIdent then ret Ast.NilLetStatement
  else
    let* name := currLiteral in
    let* isAssign := expectPeek ASSIGN in
    if negb isAssign then ret Ast.NilLetStatement
    else
      nextToken ;;
      let* value := pe LOWEST in
      skipToSemicolon fuel ;;
      ret (Ast.LetStatement name value).

Definition parseReturnStatement : P Ast.Statement :=
  nextToken ;;
  let* returnValue := pe LOWEST in
  skipToSemicolon fuel ;;
  ret (Ast.ReturnStatement returnValue).

Definition parseExpressionStatment : P Ast.Statement :=
  let* expression := pe LOWEST in
  let* semicolon := peekTokenIs SEMICOLON in
  (if semicolon then nextToken else ret tt) ;;
  ret (Ast.ExpressionStatement expression).

(** The [Statement] interface this returns is never nil: a failed let is a
    nil pointer boxed in a non-nil interface ([Ast.NilLetStatement]). The
    callers' test [stmt != nil] therefore always holds. *)
Definition parseStatment : P Ast.Statement :=
  let* t := currType in
  if String.eqb t LET then parseLetStatement
  else if String.eqb t RETURN then parseReturnStatement
  else parseExpressionStatment.

Fixpoint parseBlockStatementFrom (n : nat) (stmts : list Ast.Statement)
    : P (list Ast.Statement) :=
  match n with
  | O => outOfFuel
  | S n' =>
      let* rbrace := currTIs RBRACE in
      let* eof := currTIs EOF in
      if negb rbrace && negb eof then
        let* stmt := parseStatment in
        nextToken ;;
        parseBlockStatementFrom n' (stmts ++ [stmt])
      else ret stmts
  end.

Definition parseBlockStatement : P (list Ast.Statement) :=
  nextToken ;;
  parseBlockStatementFrom fuel [].

Definition parseIdentifier : P Ast.Expression :=
  let* lit := currLiteral in
  ret (Ast.Identifier lit).

Definition parseIntegerLiteral : P Ast.Expression :=
  let* lit := currLiteral in
  match ParseInt lit with
  | None =>
      appendError ("could not parse " ++ Quote lit ++ " as integer") ;;
      ret Ast.NilExpression
  | Some val => ret (Ast.IntegerLiteral val)
  end.

Definition parseBoolean : P Ast.Expression :=
  let* isTrue := currTIs TRUE in
  ret (Ast.Boolean isTrue).

Definition parseStringLiteral : P Ast.Expression :=
  let* lit := currLiteral in
  ret (Ast.StringLiteral lit).

Definition parsePrefixExpression : P Ast.Expression :=
  let* operator := currLiteral in
  nextToken ;;
  let* right := pe PREFIX in
  ret (Ast.PrefixExpression operator right).

Definition parseInfixExpression (left : Ast.Expression) : P Ast.Expression :=
  let* operator := currLiteral in
  let* prec := currPrecendence in
  nextToken ;;
  let* right := pe prec in
  ret (Ast.InfixExpression left operator right).

Definition parseGroupedExpression : P Ast.Expression :=
  nextToken ;;
  let* exp := pe LOWEST in
  let* closed := expectPeek RPAREN in
  if negb closed then ret Ast.NilExpression
  else ret exp.

Definition parseIfExpression : P Ast.Expression :=
  let* lparen := expectPeek LPAREN in
  if negb lparen then ret Ast.NilExpression
  else
    nextToken ;;
    let* condition := pe LOWEST in
    let* rparen := expectPeek RPAREN in
    if negb rparen then ret Ast.NilExpression
    else
      let* lbrace := expectPeek LBRACE in
      if negb lbrace then ret Ast.NilExpression
      else
        let* consequence := parseBlockStatement in
        let* hasElse := peekTokenIs ELSE in
        if hasElse then
          nextToken ;;
          let* lbrace' := expectPeek LBRACE in
          if negb lbrace' then ret Ast.NilExpression
          else
            let* alternative := parseBlockStatement in
            ret (Ast.IfExpression condition consequence (Some alternative))
        else ret (Ast.IfExpression condition consequence None).

Fixpoint parseFunctionParamsFrom (n : nat) (idents : list string) : P (list string) :=
  match n with
  | O => outOfFuel
  | S n' =>
      let* comma := peekTokenIs COMMA in
      if comma then
        nextToken ;;
        nextToken ;;
        let* ident := currLiteral in
        parseFunctionParamsFrom n' (idents ++ [ident])
      else ret idents
  end.

Definition parseFunctionParams : P (list string) :=
  let* rparen := peekTokenIs RPAREN in
  if rparen then nextToken ;; ret []
  else
    nextToken ;;
    let* ident := currLiteral in
    let* idents := parseFunctionParamsFrom fuel [ident] in
    let* closed := expectPeek RPAREN in
    if negb closed then ret []
    else ret idents.

Definition parseFunctionLiteral : P Ast.Expression :=
  let* lparen := expectPeek LPAREN in
  if negb lparen then ret Ast.NilExpression
  else
    let* params := parseFunctionParams in
    let* lbrace := expectPeek LBRACE in
    if negb lbrace then ret Ast.NilExpression
    else
      let* body := parseBlockStatement in
      ret (Ast.FunctionLiteral params body).

Fixpoint parseExpressionListFrom (n : nat) (exprs : list Ast.Expression)
    : P (list Ast.Expression) :=
  match n with
  | O => outOfFuel
  | S n' =>
      let* comma := peekTokenIs COMMA in
      if comma then
        nextToken ;;
        nextToken ;;
        let* exp := pe LOWEST in
        parseExpressionListFrom n' (exprs ++ [exp])
      else ret exprs
  end.

Definition parseExpressionList (end_ : TokenType) : P (list Ast.Expression) :=
  let* isEnd := peekTokenIs end_ in
  if isEnd then nextToken ;; ret []
  else
    nextToken ;;
    let* first := pe LOWEST in
    let* exprs := parseExpressionListFrom fuel [first] in
    let* closed := expectPeek end_ in
    if negb closed then ret []
    else ret exprs.

(** The deprecated [parseCallArguments], which nothing calls any more. *)
Fixpoint parseCallArgumentsFrom (n : nat) (args : list Ast.Expression)
    : P (list Ast.Expression) :=
  match n with
  | O => outOfFuel
  | S n' =>
      let* comma := peekTokenIs COMMA in
      if comma then
        nextToken ;;
        nextToken ;;
        let* arg := pe LOWEST in
        parseCallArgumentsFrom n' (args ++ [arg])
      else ret args
  end.

Definition parseCallArguments : P (list Ast.Expression) :=
  let* rparen := peekTokenIs RPAREN in
  if rparen then nextToken ;; ret []
  else
    nextToken ;;
    let* first := pe LOWEST in
    let* args := parseCallArgumentsFrom fuel [first] in
    let* closed := expectPeek RPAREN in
    if negb closed then ret []
    else ret args.

Definition parseCallExpression (function : Ast.Expression) : P Ast.Expression :=
  let* args := parseExpressionList RPAREN in
  ret (Ast.CallExpression function args).

Definition parseArrayLiteral : P Ast.Expression :=
  let* elements := parseExpressionList RBRACKET in
  ret (Ast.ArrayLiteral elements).

Definition isNilExpression (e : Ast.Expression) : bool :=
  match e with
  | Ast.NilExpression => true
  | _ => false
  end.

(** [hash.Pairs[key] = value] on the map keyed by the key node. Every
    non-nil key is a node of its own, so it makes a new entry; a nil key
    (a key that failed to parse) meets the entry of an earlier nil key. *)
Definition setPair (key value : Ast.Expression)
    (pairs : list (Ast.Expression * Ast.Expression))
    : list (Ast.Expression * Ast.Expression) :=
  if isNilExpression key && existsb (fun kv => isNilExpression (fst kv)) pairs then
    map (fun kv => if isNilExpression (fst kv) then (fst kv, value) else kv) pairs
  else pairs ++ [(key, value)].

(** The loop of [parseHashLiteral]; [None] is its [return nil]. *)
Fixpoint parseHashLiteralFrom (n : nat) (pairs : list (Ast.Expression * Ast.Expression))
    : P (option (list (Ast.Expression * Ast.Expression))) :=
  match n with
  | O => outOfFuel
  | S n' =>
      let* rbrace := peekTokenIs RBRACE in
      if negb rbrace then
        nextToken ;;
        let* key := pe LOWEST in
        let* colon := expectPeek COLON in
        if negb colon then ret None
        else
          nextToken ;;
          let* value := pe LOWEST in
          let pairs := setPair key value pairs in
          let* rbrace' := peekTokenIs RBRACE in
          if negb rbrace' then
            let* comma := expectPeek COMMA in
            if negb comma then ret None
            else parseHashLiteralFrom n' pairs
          else parseHashLiteralFrom n' pairs
      else ret (Some pairs)
  end.

Definition parseHashLiteral : P Ast.Expression :=
  let* pairs := parseHashLiteralFrom fuel [] in
  match pairs with
  | None => ret Ast.NilExpression
  | Some pairs =>
      let* closed := expectPeek RBRACE in
      if negb closed then ret Ast.NilExpression
      else ret (Ast.HashLiteral pairs)
  end.

Definition parseIndexExpression (left : Ast.Expression) : P Ast.Expression :=
  nextToken ;;
  let* index := pe LOWEST in
  let* closed := expectPeek RBRACKET in
  if negb closed then ret Ast.NilExpression
  else ret (Ast.IndexExpression left index).

Definition callPrefix (prefix : prefixParseFn) : P Ast.Expression :=
  match prefix with
  | parseIdentifierFn => parseIdentifier
  | parseIntegerLiteralFn => parseIntegerLiteral
  | parsePrefixExpressionFn => parsePrefixExpression
  | parseBooleanFn => parseBoolean
  | parseGroupedExpressionFn => parseGroupedExpression
  | parseIfExpressionFn => parseIfExpression
  | parseFunctionLiteralFn => parseFunctionLiteral
  | parseStringLiteralFn => parseStringLiteral
  | parseArrayLiteralFn => parseArrayLiteral
  | parseHashLiteralFn => parseHashLiteral
  end.

Definition callInfix (infix : infixParseFn) (left : Ast.Expression) : P Ast.Expression :=
  match infix with
  | parseInfixExpressionFn => parseInfixExpression left
  | parseCallExpressionFn => parseCallExpression left
  | parseIndexExpressionFn => parseIndexExpression left
  end.

(** The loop of [parseExpression]. *)
Fixpoint parseExpressionFrom (n : nat) (precedence : nat) (leftExp : Ast.Expression)
    : P Ast.Expression :=
  match n with
  | O => outOfFuel
  | S n' =>
      let* semicolon := peekTokenIs SEMICOLON in
      let* peekPrec := peekPrecendence in
      if negb semicolon && (precedence <? peekPrec)%nat then
        let* t := peekType in
        match infixParseFns !! t with
        | None => ret leftExp
        | Some infix =>
            nextToken ;;
            let* leftExp := callInfix infix leftExp in
            parseExpressionFrom n' precedence leftExp
        end
      else ret leftExp
  end.

Definition parseExpressionBody (precedence : nat) : P Ast.Expression :=
  let* t := currType in
  match prefixParseFns !! t with
  | None => noPrefixParseFnError t ;; ret Ast.NilExpression
  | Some prefix =>
      let* leftExp := callPrefix prefix in
      parseExpressionFrom fuel precedence leftExp
  end.

End Handlers.

Fixpoint parseExpression (fuel : nat) (precedence : nat) : P Ast.Expression :=
  match fuel with
  | O => outOfFuel
  | S fuel' => parseExpressionBody fuel' (parseExpression fuel') precedence
  end.

(** The loop of [ParseProgram]. *)
Fixpoint ParseProgramFrom (n : nat) (fuel : nat) (stmts : list Ast.Statement)
    : P (list Ast.Statement) :=
  match n with
  | O => outOfFuel
  | S n' =>
      let* eof := currTIs EOF in
      if negb eof then
        let* stmt := parseStatment fuel (parseExpression fuel) in
        nextToken ;;
        ParseProgramFrom n' fuel (stmts ++ [stmt])
      else ret stmts
  end.

Definition ParseProgram (fuel : nat) : P (list Ast.Statement) :=
  ParseProgramFrom fuel fuel [].

End Host.

End Parser.

(** ** Runtime values (package object) *)

Module Object.

Definition ptr := nat.

Definition ObjectType := string.

(** Modelled from the spec: the type tags of package object (section 4.4),
    whose declarations are not among the sources. *)
Definition INTEGER_OBJ : ObjectType := "INTEGER".
Definition BOOLEAN_OBJ : ObjectType := "BOOLEAN".
Definition NULL_OBJ : ObjectType := "NULL".
Definition RETURN_VALUE_OBJ : ObjectType := "RETURN_VALUE".
Definition ERROR_OBJ : ObjectType := "ERROR".
Definition FUNCTION_OBJ : ObjectType := "FUNCTION".
Definition STRING_OBJ : ObjectType := "STRING".
Definition BUILTIN_OBJ : ObjectType := "BUILTIN".
Definition ARRAY_OBJ : ObjectType := "ARRAY".
Definition HASH_OBJ : ObjectType := "HASH".

(** Modelled from the spec: [HashKey] is the pair of a type tag and a 64-bit
    scalar (section 3.3). *)
Definition HashKey : Type := (ObjectType * Z)%type.

(** The functions the [builtins] table holds. *)
Inductive BuiltinFunction : Type :=
  | lenFn | firstFn | lastFn | restFn | pushFn | putsFn.

(** Modelled from the spec: the closed set of runtime values (section 3.3).
    An [Object] is a Go interface value: [Nil] is the nil interface, every
    other constructor is a pointer to a struct. A struct is never written
    after its construction, so its fields travel with the pointer [p] that
    tells it from every other allocation. The two Booleans and Null are the
    package-level singletons [TRUE], [FALSE] and [NULL]. The elements of an
    Array live in the memory, at the Array's address. *)
Inductive Object : Type :=
  | Nil
  | Integer (p : ptr) (Value : Z)
  | Boolean (Value : bool)
  | Null
  | String (p : ptr) (Value : string)
  | ReturnValue (p : ptr) (Value : Object)
  | Error (p : ptr) (Message : string)
  | Function (p : ptr) (Params : list string) (Body : list Ast.Statement) (Env : ptr)
  | BuiltIn (Fn : BuiltinFunction)
  | Array (p : ptr)
  | Hash (p : ptr) (Pairs : gmap HashKey (Object * Object)).

Definition TRUE : Object := Boolean true.
Definition FALSE : Object := Boolean false.
Definition NULL : Object := Null.

(** [obj.Type()]; [None] stands for the nil-interface method call, which
    panics. *)
Definition TypeOf (o : Object) : option ObjectType :=
  match o with
  | Nil => None
  | Integer _ _ => Some INTEGER_OBJ
  | Boolean _ => Some BOOLEAN_OBJ
  | Null => Some NULL_OBJ
  | String _ _ => Some STRING_OBJ
  | ReturnValue _ _ => Some RETURN_VALUE_OBJ
  | Error _ _ => Some ERROR_OBJ
  | Function _ _ _ _ => Some FUNCTION_OBJ
  | BuiltIn _ => Some BUILTIN_OBJ
  | Array _ => Some ARRAY_OBJ
  | Hash _ _ => Some HASH_OBJ
  end.

(** Go's [==] on two interface values: both nil, or the same dynamic type and
    the same pointer. *)
Definition same (l r : Object) : bool :=
  match l, r with
  | Nil, Nil => true
  | Integer p _, Integer q _ => Nat.eqb p q
  | Boolean a, Boolean b => Bool.eqb a b
  | Null, Null => true
  | String p _, String q _ => Nat.eqb p q
  | ReturnValue p _, ReturnValue q _ => Nat.eqb p q
  | Error p _, Error q _ => Nat.eqb p q
  | Function p _ _ _, Function q _ _ _ => Nat.eqb p q
  | BuiltIn f, BuiltIn g =>
      match f, g with
      | lenFn, lenFn | firstFn, firstFn | lastFn, lastFn
      | restFn, restFn | pushFn, pushFn | putsFn, putsFn => true
      | _, _ => false
      end
  | Array p, Array q => Nat.eqb p q
  | Hash p _, Hash q _ => Nat.eqb p q
  | _, _ => false
  end.

(** An environment: [store] and the [outer] pointer (nil at the root). *)
Record Env : Type := mkEnv {
  store : gmap string Object;
  outer : option ptr
}.

(** The memory: environments, the backing stores of arrays, the next free
    address, and the lines written to standard output. *)
Record State : Type := mkState {
  envs : gmap ptr Env;
  arrays : gmap ptr (list Object);
  next : ptr;
  stdout : list string
}.

End Object.

(** ** The evaluator (evaluator.go, builtins.go, environment.go) *)

Module Evaluator.

Import Go Object.

Abbreviation M := (Go.M State).

Definition nilDereference : string :=
  "invalid memory address or nil pointer dereference".
Definition indexOutOfRange : string := "index out of range".
Definition divideByZero : string := "integer divide by zero".

(** A fresh address, for every [&T{...}], [make] and [append] from nil. *)
Definition fresh : M ptr :=
  fun s => Done (next s) (mkState (envs s) (arrays s) (S (next s)) (stdout s)).

(** [obj.Type()] as the code calls it: a panic on the nil interface. *)
Definition typeOf (obj : Object) : M ObjectType :=
  match TypeOf obj with
  | Some t => ret t
  | None => panic nilDereference
  end.

(** *** Environments (environment.go) *)

Definition NewEnvironment : M ptr :=
  let* e := fresh in
  fun s => Done e (mkState (<[e := mkEnv ∅ None]> (envs s)) (arrays s) (next s) (stdout s)).

Definition NewClosedEnv (outer : ptr) : M ptr :=
  let* e := fresh in
  fun s => Done e (mkState (<[e := mkEnv ∅ (Some outer)]> (envs s)) (arrays s) (next s) (stdout s)).

(** [e.Get(name)]: the recursive call on [e.outer] takes one unit of fuel. *)
Fixpoint Get (fuel : nat) (e : ptr) (name : string) : M (Object * bool) :=
  match fuel with
  | O => outOfFuel
  | S fuel' =>
      fun s =>
        match envs s !! e with
        | None => Panic nilDereference
        | Some env =>
            match store env !! name, outer env with
            | None, Some o => Get fuel' o name s
            | None, None => Done (Nil, false) s
            | Some obj, _ => Done (obj, true) s
            end
        end
  end.

Definition Set_ (e : ptr) (name : string) (val : Object) : M Object :=
  fun s =>
    match envs s !! e with
    | None => Panic nilDereference
    | Some env =>
        Done val (mkState (<[e := mkEnv (<[name := val]> (store env)) (outer env)]> (envs s))
                          (arrays s) (next s) (stdout s))
    end.

(** *** Slices of objects in memory *)

(** [arr.Elements], read through the Array's address. *)
Definition Elements (a : ptr) : M (list Object) :=
  fun s =>
    match arrays s !! a with
    | None => Panic nilDereference
    | Some els => Done els s
    end.

Definition writeElements (a : ptr) (els : list Object) : M unit :=
  fun s => Done tt (mkState (envs s) (<[a := els]> (arrays s)) (next s) (stdout s)).

(** [make([]object.Object, n)]: a fresh backing store of [n] nil entries. *)
Definition make (n : nat) : M ptr :=
  let* a := fresh in
  writeElements a (replicate n Nil) ;;
  ret a.

(** [copy(dst, src)]: the first [min (len dst) (len src)] entries. *)
Definition copy (dst : ptr) (src : list Object) : M unit :=
  let* d := Elements dst in
  writeElements dst (take (length d) src ++ drop (length src) d).

(** [a[i] = v], with Go's bounds check. *)
Definition setIndex (a : ptr) (i : nat) (v : Object) : M unit :=
  let* d := Elements a in
  if (i <? length d)%nat then writeElements a (<[i := v]> d)
  else panic indexOutOfRange.

(** [&object.Array{Elements: els}] for a slice [els] that is not yet in
    memory (the result of [append]s in [evalExpressions]). The struct and the
    backing store of its slice share one address: no code path makes two
    Arrays over one store. *)
Definition newArray (els : list Object) : M Object :=
  let* a := fresh in
  writeElements a els ;;
  ret (Array a).

(** *** Small helpers of evaluator.go *)

Definition newError (message : string) : M Object :=
  let* p := fresh in
  ret (Error p message).

Definition isError (obj : Object) : bool :=
  match obj with
  | Nil => false
  | _ =>
      match TypeOf obj with
      | Some t => String.eqb t ERROR_OBJ
      | None => false
      end
  end.

Definition nativeBoolToBooleanObject (b : bool) : Object :=
  if b then TRUE else FALSE.

Definition isTruthy (obj : Object) : bool :=
  if same obj NULL then false
  else if same obj TRUE then true
  else if same obj FALSE then false
  else true.

Definition unwrapReturnValue (obj : Object) : Object :=
  match obj with
  | ReturnValue _ v => v
  | _ => obj
  end.

(** Two's-complement wrap-around of int64 arithmetic. *)
Definition wrap64 (z : Z) : Z := (z + 2 ^ 63) mod 2 ^ 64 - 2 ^ 63.

(** The host-language parts the sources leave open. *)
Section Eval.

(** Modelled from the spec: the stable 64-bit digest of a string's bytes that
    [String.HashKey] returns (section 3.3); package object is not among the
    sources. *)
Variable hashString : string -> Z.

(** Modelled from the spec: [obj.Inspect()], the display form of a non-nil
    object (section 4.4), read in the current memory. *)
Variable Inspect : State -> Object -> string.

(** The order in which a [range] over the [Pairs] map of a hash literal
    visits its entries: Go leaves it unspecified. *)
Variable rangeOrder :
  list (Ast.Expression * Ast.Expression) -> list (Ast.Expression * Ast.Expression).

(** Modelled from the spec: [key.(object.Hashable)] and [HashKey()]; only
    Integer, Boolean and String are hashable (section 3.3). *)
Definition HashKeyOf (key : Object) : option HashKey :=
  match key with
  | Integer _ v => Some (INTEGER_OBJ, v mod 2 ^ 64)
  | Boolean b => Some (BOOLEAN_OBJ, if b then 1 else 0)
  | String _ v => Some (STRING_OBJ, hashString v)
  | _ => None
  end.

(** *** Operators *)

Definition evalBangOperatorExpression (right : Object) : Object :=
  if same right TRUE then FALSE
  else if same right FALSE then TRUE
  else if same right NULL then TRUE
  else FALSE.

Definition evalMinusPrefixOperatorExpression (right : Object) : M Object :=
  let* t := typeOf right in
  if negb (String.eqb t INTEGER_OBJ) then
    newError ("unknown operator: -" ++ t)
  else
    match right with
    | Integer _ v =>
        let* p := fresh in
        ret (Integer p (wrap64 (v * -1)))
    | _ => panic "interface conversion"
    end.

Definition evalPrefixExpression (op : string) (right : Object) : M Object :=
  if String.eqb op "!" then ret (evalBangOperatorExpression right)
  else if String.eqb op "-" then evalMinusPrefixOperatorExpression right
  else
    let* t := typeOf right in
    newError ("unknown operator: " ++ op ++ t).

Definition newInteger (v : Z) : M Object :=
  let* p := fresh in
  ret (Integer p v).

Definition evalIntegerInfixExpression (op : string) (left right : Object) : M Object :=
  match left, right with
  | Integer _ leftVal, Integer _ rightVal =>
      if String.eqb op "+" then newInteger (wrap64 (leftVal + rightVal))
      else if String.eqb op "-" then newInteger (wrap64 (leftVal - rightVal))
      else if String.eqb op "*" then newInteger (wrap64 (leftVal * rightVal))
      else if String.eqb op "/" then
        if rightVal =? 0 then panic divideByZero
        else newInteger (wrap64 (Z.quot leftVal rightVal))
      else if String.eqb op "<" then ret (nativeBoolToBooleanObject (leftVal <? rightVal))
      else if String.eqb op ">" then ret (nativeBoolToBooleanObject (leftVal >? rightVal))
      else if String.eqb op "!=" then ret (nativeBoolToBooleanObject (negb (leftVal =? rightVal)))
      else if String.eqb op "==" then ret (nativeBoolToBooleanObject (leftVal =? rightVal))
      else
        let* lt := typeOf left in
        let* rt := typeOf right in
        newError ("unknown operator: " ++ lt ++ " " ++ op ++ " " ++ rt)
  | _, _ => panic "interface conversion"
  end.

Definition evalStringInfixExpression (op : string) (left right : Object) : M Object :=
  if negb (String.eqb op "+") then
    let* lt := typeOf left in
    let* rt := typeOf right in
    newError ("unknown operator: " ++ lt ++ " " ++ op ++ " " ++ rt)
  else
    match left, right with
    | String _ leftVal, String _ rightVal =>
        let* p := fresh in
        ret (String p (leftVal ++ rightVal))
    | _, _ => panic "interface conversion"
    end.

(** [left.Type() == tl && right.Type() == tr], with Go's short circuit: the
    right operand's method is only called when the left test holds. *)
Definition typesAre (tl tr : ObjectType) (left right : Object) : M bool :=
  let* lt := typeOf left in
  if String.eqb lt tl then
    let* rt := typeOf right in
    ret (String.eqb rt tr)
  else ret false.

Definition evalInfixExpression (op : string) (left right : Object) : M Object :=
  let* ints := typesAre INTEGER_OBJ INTEGER_OBJ left right in
  if ints then evalIntegerInfixExpression op left right
  else if String.eqb op "==" then ret (nativeBoolToBooleanObject (same left right))
  else if String.eqb op "!=" then ret (nativeBoolToBooleanObject (negb (same left right)))
  else
    let* strs := typesAre STRING_OBJ STRING_OBJ left right in
    if strs then evalStringInfixExpression op left right
    else
      let* lt := typeOf left in
      let* rt := typeOf right in
      if negb (String.eqb lt rt) then
        newError ("type mismatch: " ++ lt ++ " " ++ op ++ " " ++ rt)
      else
        newError ("unknown operator: " ++ lt ++ " " ++ op ++ " " ++ rt).

(** *** Index expressions *)

Definition evalArrayIndexExpression (array index : Object) : M Object :=
  match array, index with
  | Array a, Integer _ idx =>
      let* els := Elements a in
      let max := Z.of_nat (length els) - 1 in
      if (idx <? 0) || (idx >? max) then ret NULL
      else
        match els !! Z.to_nat idx with
        | Some el => ret el
        | None => panic indexOutOfRange
        end
  | _, _ => panic "interface conversion"
  end.

Definition evalHashIndexExpression (hash index : Object) : M Object :=
  match hash with
  | Hash _ pairs =>
      match HashKeyOf index with
      | None =>
          let* t := typeOf index in
          newError ("unusable as hash key: " ++ t)
      | Some key =>
          match pairs !! key with
          | None => ret NULL
          | Some hashPair => ret (snd hashPair)
          end
      end
  | _ => panic "interface conversion"
  end.

Definition evalIndexExpression (left index : Object) : M Object :=
  let* arr := typesAre ARRAY_OBJ INTEGER_OBJ left index in
  if arr then evalArrayIndexExpression left index
  else
    let* lt := typeOf left in
    if String.eqb lt HASH_OBJ then evalHashIndexExpression left index
    else
      let* it := typeOf index in
      newError ("index operator not supported: " ++ lt ++ "[" ++ it ++ "]").

(** *** Builtins (builtins.go) *)

Definition wrongNumberOfArguments (got : nat) (want : string) : M Object :=
  newError ("wrong number of arguments. got=" ++ pretty got ++ ", want=" ++ want).

Definition lenFunc (args : list Object) : M Object :=
  match args with
  | [arg] =>
      match arg with
      | String _ v => newInteger (Z.of_nat (String.length v))
      | Array a =>
          let* els := Elements a in
          newInteger (Z.of_nat (length els))
      | _ =>
          let* t := typeOf arg in
          newError ("argument to `len` not supported, got " ++ t)
      end
  | _ => wrongNumberOfArguments (length args) "1"
  end.

(** The common entry of [first], [last] and [rest]: one argument, an Array;
    the continuation gets its elements. *)
Definition withArrayArgument (name : string) (args : list Object)
    (k : list Object -> M Object) : M Object :=
  match args with
  | [arg] =>
      let* t := typeOf arg in
      if negb (String.eqb t ARRAY_OBJ) then
        newError ("argument to `" ++ name ++ "` must be ARRAY, got " ++ t)
      else
        match arg with
        | Array a =>
            let* els := Elements a in
            k els
        | _ => panic "interface conversion"
        end
  | _ => wrongNumberOfArguments (length args) "1"
  end.

Definition firstFunc (args : list Object) : M Object :=
  withArrayArgument "first" args (fun els =>
    match els with
    | el :: _ => ret el
    | [] => ret NULL
    end).

Definition lastFunc (args : list Object) : M Object :=
  withArrayArgument "last" args (fun els =>
    if (0 <? length els)%nat then
      match els !! (length els - 1)%nat with
      | Some el => ret el
      | None => panic indexOutOfRange
      end
    else ret NULL).

Definition restFunc (args : list Object) : M Object :=
  withArrayArgument "rest" args (fun els =>
    let length := length els in
    if (0 <? length)%nat then
      let* newEls := make (length - 1) in
      copy newEls (drop 1 (take length els)) ;;
      ret (Array newEls)
    else ret NULL).

Definition pushFunc (args : list Object) : M Object :=
  match args with
  | [arg; el] =>
      let* t := typeOf arg in
      if negb (String.eqb t ARRAY_OBJ) then
        newError ("argument to `push` must be ARRAY, got " ++ t)
      else
        match arg with
        | Array a =>
            let* els := Elements a in
            let length := length els in
            let* newEls := make (length + 1) in
            copy newEls els ;;
            setIndex newEls length el ;;
            ret (Array newEls)
        | _ => panic "interface conversion"
        end
  | _ => wrongNumberOfArguments (length args) "2"
  end.

(** [fmt.Println(arg.Inspect())] *)
Definition println (arg : Object) : M unit :=
  match arg with
  | Nil => panic nilDereference
  | _ =>
      fun s => Done tt (mkState (envs s) (arrays s) (next s) (stdout s ++ [Inspect s arg]))
  end.

Fixpoint putsFunc (args : list Object) : M Object :=
  match args with
  | [] => ret NULL
  | arg :: args' => println arg ;; putsFunc args'
  end.

(** The [builtins] table. *)
Definition builtins : gmap string Object :=
  list_to_map [("len", BuiltIn lenFn); ("first", BuiltIn firstFn);
               ("last", BuiltIn lastFn); ("rest", BuiltIn restFn);
               ("push", BuiltIn pushFn); ("puts", BuiltIn putsFn)].

(** [fn.Fn(args...)] *)
Definition callBuiltin (fn : BuiltinFunction) (args : list Object) : M Object :=
  match fn with
  | lenFn => lenFunc args
  | firstFn => firstFunc args
  | lastFn => lastFunc args
  | restFn => restFunc args
  | pushFn => pushFunc args
  | putsFn => putsFunc args
  end.

(** *** The recursion of [Eval]

    The loops of the evaluator call [Eval] on sub-nodes. They are written
    over the function [ev] that stands for that recursive call, and [Eval]
    ties the knot on the fuel. *)

Definition Evaluate : Type := Ast.Node -> ptr -> M Object.

(** The loop of [evalProgram], from the statements still to run and the
    current [res]. *)
Fixpoint evalProgramFrom (ev : Evaluate) (stmts : list Ast.Statement)
    (env : ptr) (res : Object) : M Object :=
  match stmts with
  | [] => ret res
  | stmt :: stmts' =>
      let* res := ev (Ast.NStatement stmt) env in
      match res with
      | ReturnValue _ v => ret v
      | Error _ _ => ret res
      | _ => evalProgramFrom ev stmts' env res
      end
  end.

Definition evalProgram (ev : Evaluate) (stmts : list Ast.Statement) (env : ptr) : M Object :=
  evalProgramFrom ev stmts env Nil.

(** The test that ends the loop of [evalBlockStatement]. *)
Definition stopsBlock (result : Object) : bool :=
  match result with
  | Nil => false
  | _ =>
      match TypeOf result with
      | Some rt => String.eqb rt RETURN_VALUE_OBJ || String.eqb rt ERROR_OBJ
      | None => false
      end
  end.

Fixpoint evalBlockStatementFrom (ev : Evaluate) (stmts : list Ast.Statement)
    (env : ptr) (result : Object) : M Object :=
  match stmts with
  | [] => ret result
  | statement :: stmts' =>
      let* result := ev (Ast.NStatement statement) env in
      if stopsBlock result then ret result
      else evalBlockStatementFrom ev stmts' env result
  end.

Definition evalBlockStatement (ev : Evaluate) (block : list Ast.Statement) (env : ptr) : M Object :=
  evalBlockStatementFrom ev block env Nil.

Definition evalIfExpression (ev : Evaluate) (Condition : Ast.Expression)
    (Consequence : list Ast.Statement) (Alternative : option (list Ast.Statement))
    (env : ptr) : M Object :=
  let* condition := ev (Ast.NExpression Condition) env in
  if isError condition then ret condition
  else if isTruthy condition then ev (Ast.NStatement (Ast.BlockStatement Consequence)) env
  else
    match Alternative with
    | Some alt => ev (Ast.NStatement (Ast.BlockStatement alt)) env
    | None => ret NULL
    end.

(** The message of the Error is made by [fmt.Sprintf] with the identifier
    as a part of the format and no operand. *)
Definition evalIdentifier (fuel : nat) (name : string) (env : ptr) : M Object :=
  let* found := Get fuel env name in
  if snd found then ret (fst found)
  else
    match builtins !! name with
    | Some builtin => ret builtin
    | None => newError (Fmt.Sprintf ("identifier not found: " ++ name))
    end.

(** The loop of [evalExpressions], from the expressions still to evaluate and
    the slice [res] built so far. *)
Fixpoint evalExpressionsFrom (ev : Evaluate) (exprs : list Ast.Expression)
    (env : ptr) (res : list Object) : M (list Object) :=
  match exprs with
  | [] => ret res
  | expr :: exprs' =>
      let* evaluated := ev (Ast.NExpression expr) env in
      if isError evaluated then ret [evaluated]
      else evalExpressionsFrom ev exprs' env (res ++ [evaluated])
  end.

Definition evalExpressions (ev : Evaluate) (exprs : list Ast.Expression) (env : ptr)
    : M (list Object) :=
  evalExpressionsFrom ev exprs env [].

(** [len(args) == 1 && isError(args[0])] *)
Definition isSingleError (args : list Object) : bool :=
  match args with
  | [arg] => isError arg
  | _ => false
  end.

(** The loop of [evalHashLiteral] over the entries in the order [range]
    yields them, from the map [pairs] built so far. *)
Fixpoint evalHashLiteralFrom (ev : Evaluate)
    (entries : list (Ast.Expression * Ast.Expression)) (env : ptr)
    (pairs : gmap HashKey (Object * Object)) : M Object :=
  match entries with
  | [] =>
      let* p := fresh in
      ret (Hash p pairs)
  | (keyNode, valNode) :: entries' =>
      let* key := ev (Ast.NExpression keyNode) env in
      if isError key then ret key
      else
        match HashKeyOf key with
        | None =>
            let* t := typeOf key in
            newError ("unusable as hash key: " ++ t)
        | Some hashed =>
            let* val := ev (Ast.NExpression valNode) env in
            if isError val then ret val
            else evalHashLiteralFrom ev entries' env (<[hashed := (key, val)]> pairs)
        end
  end.

Definition evalHashLiteral (ev : Evaluate)
    (Pairs : list (Ast.Expression * Ast.Expression)) (env : ptr) : M Object :=
  evalHashLiteralFrom ev (rangeOrder Pairs) env ∅.

(** The loop of [extendFunctionEnv]: [env.Set(param.Value, args[idx])]. *)
Fixpoint bindParams (env : ptr) (params : list string) (args : list Object)
    (idx : nat) : M unit :=
  match params with
  | [] => ret tt
  | param :: params' =>
      match args !! idx with
      | None => panic indexOutOfRange
      | Some arg => Set_ env param arg ;; bindParams env params' args (S idx)
      end
  end.

Definition extendFunctionEnv (fnParams : list string) (fnEnv : ptr) (args : list Object)
    : M ptr :=
  let* env := NewClosedEnv fnEnv in
  bindParams env fnParams args 0 ;;
  ret env.

Definition applyFunction (ev : Evaluate) (fn : Object) (args : list Object) : M Object :=
  match fn with
  | Function _ fnParams fnBody fnEnv =>
      let* extendedEnv := extendFunctionEnv fnParams fnEnv args in
      let* eval := ev (Ast.NStatement (Ast.BlockStatement fnBody)) extendedEnv in
      ret (unwrapReturnValue eval)
  | BuiltIn fn => callBuiltin fn args
  | _ =>
      let* t := typeOf fn in
      newError ("not a function: " ++ t)
  end.

Fixpoint Eval (fuel : nat) (node : Ast.Node) (env : ptr) {struct fuel} : M Object :=
  match fuel with
  | O => outOfFuel
  | S fuel' =>
      let ev : Evaluate := Eval fuel' in
      match node with
      | Ast.NProgram stmts => evalProgram ev stmts env
      | Ast.NStatement (Ast.ExpressionStatement e) => ev (Ast.NExpression e) env
      | Ast.NStatement (Ast.BlockStatement stmts) => evalBlockStatement ev stmts env
      | Ast.NStatement (Ast.ReturnStatement e) =>
          let* val := ev (Ast.NExpression e) env in
          if isError val then ret val
          else
            let* p := fresh in
            ret (ReturnValue p val)
      | Ast.NStatement (Ast.LetStatement name e) =>
          let* val := ev (Ast.NExpression e) env in
          if isError val then ret val
          else Set_ env name val ;; ret Nil
      | Ast.NStatement Ast.NilLetStatement => panic nilDereference
      | Ast.NExpression (Ast.IntegerLiteral v) => newInteger v
      | Ast.NExpression (Ast.Boolean b) => ret (nativeBoolToBooleanObject b)
      | Ast.NExpression (Ast.StringLiteral v) =>
          let* p := fresh in
          ret (String p v)
      | Ast.NExpression (Ast.PrefixExpression op r) =>
          let* right := ev (Ast.NExpression r) env in
          if isError right then ret right
          else evalPrefixExpression op right
      | Ast.NExpression (Ast.InfixExpression l op r) =>
          let* left := ev (Ast.NExpression l) env in
          if isError left then ret left
          else
            let* right := ev (Ast.NExpression r) env in
            if isError right then ret right
            else evalInfixExpression op left right
      | Ast.NExpression (Ast.IfExpression c consequence alternative) =>
          evalIfExpression ev c consequence alternative env
      | Ast.NExpression (Ast.Identifier name) => evalIdentifier fuel' name env
      | Ast.NExpression (Ast.FunctionLiteral params body) =>
          let* p := fresh in
          ret (Function p params body env)
      | Ast.NExpression (Ast.CallExpression f a) =>
          let* fn := ev (Ast.NExpression f) env in
          if isError fn then ret fn
          else
            let* args := evalExpressions ev a env in
            if isSingleError args then ret (default Nil (head args))
            else applyFunction ev fn args
      | Ast.NExpression (Ast.ArrayLiteral elements) =>
          let* els := evalExpressions ev elements env in
          if isSingleError els then ret (default Nil (head els))
          else newArray els
      | Ast.NExpression (Ast.IndexExpression l i) =>
          let* left := ev (Ast.NExpression l) env in
          if isError left then ret left
          else
            let* idx := ev (Ast.NExpression i) env in
            if isError idx then ret idx
            else evalIndexExpression left idx
      | Ast.NExpression (Ast.HashLiteral pairs) => evalHashLiteral ev pairs env
      | Ast.NExpression Ast.NilExpression => ret Nil
      end
  end.

End Eval.

End Evaluator.

(** ** One choice of the host-language parts

    The evaluator and the parser are written over the functions of the
    object package and of Go's library that are not among the sources, and
    every theorem about them holds for every such function. The concrete
    runs below need one choice of each: these stand-ins, which agree with
    the code on the inputs the runs give them and need not agree
    elsewhere. *)

Module Host.

Import Object.

(** The hash under the key of a String: a stand-in (the length) for the
    64-bit hash the object package computes. *)
Definition hashString (s : string) : Z := Z.of_nat (String.length s).

(** [Inspect()] as the object package has it for Integer, Boolean, Null,
    String, Error and BuiltIn. For the other objects [...] is a stand-in:
    the code renders their parts. *)
Definition Inspect (s : State) (o : Object) : string :=
  match o with
  | Integer _ v => pretty v
  | Boolean b => if b then "true" else "false"
  | Null => "null"
  | String _ v => v
  | Error _ m => "ERROR: " ++ m
  | BuiltIn _ => "builtin function"
  | _ => "..."
  end.

(** [range] in the order of insertion, and in the opposite order. *)
Definition insertionOrder (pairs : list (Ast.Expression * Ast.Expression)) := pairs.
Definition reverseOrder (pairs : list (Ast.Expression * Ast.Expression)) := rev pairs.

Definition digit (c : ascii) : option Z :=
  let n := Z.of_nat (nat_of_ascii c) in
  if (48 <=? n) && (n <=? 57) then Some (n - 48) else None.

Fixpoint digitsFrom (base acc : Z) (s : string) : option Z :=
  match s with
  | EmptyString => Some acc
  | String.String c s' =>
      match digit c with
      | Some d => if d <? base then digitsFrom base (base * acc + d) s' else None
      | None => None
      end
  end.

Definition within64 (v : option Z) : option Z :=
  match v with
  | Some v => if v <? 2 ^ 63 then Some v else None
  | None => None
  end.

(** [strconv.ParseInt(lit, 0, 64)] on a run of decimal digits, which is what
    the lexer yields for a literal: with base 0 a run that starts with [0]
    is read as octal, and a value that does not fit int64 is an error. On
    any other text (a sign, a prefix like [0x], an underscore) this stand-in
    answers with an error, which the code need not do. *)
Definition ParseInt (s : string) : option Z :=
  match s with
  | EmptyString => None
  | String.String "0" s' => within64 (digitsFrom 8 0 s')
  | _ => within64 (digitsFrom 10 0 s)
  end.

Definition doubleQuote : ascii := ascii_of_nat 34.

(** [%q] on a text of printable ASCII without quote and backslash, a run of
    digits for one: the text between double quotes. On a text that holds
    other bytes this is a stand-in: the code escapes them. *)
Definition Quote (s : string) : string :=
  String.String doubleQuote (s ++ String.String doubleQuote EmptyString).

(** The memory before anything ran, and after [NewEnvironment] made the
    global environment at address 0. *)
Definition empty : State := mkState ∅ ∅ 0%nat [].
Definition start : State := mkState {[ 0%nat := mkEnv ∅ None ]} ∅ 1%nat [].

End Host.

(** ** Concrete inputs *)

Module Inputs.

Import Token Object.

(** The evaluator with the host parts of [Host]; [range] yields the entries
    of a hash literal in the order of insertion, or in the opposite order. *)
Abbreviation run := (Evaluator.Eval Host.hashString Host.Inspect Host.insertionOrder).
Abbreviation runReversed := (Evaluator.Eval Host.hashString Host.Inspect Host.reverseOrder).

(** The token streams of [let x = 5] and of [return 5]. *)
Definition letWithoutSemicolon : list Token :=
  [mkToken LET "let"; mkToken IDENTIFER "x"; mkToken ASSIGN "="; mkToken INT "5"].

Definition returnWithoutSemicolon : list Token :=
  [mkToken RETURN "return"; mkToken INT "5"].

(** [let x = 5;] *)
Definition letWithSemicolon : list Token :=
  letWithoutSemicolon ++ [mkToken SEMICOLON ";"].

(** ["a" == "a"] and ["a" - "b"] *)
Definition stringEquality : Ast.Expression :=
  Ast.InfixExpression (Ast.StringLiteral "a") "==" (Ast.StringLiteral "a").

(** [5 == true] *)
Definition integerEqualsBoolean : Ast.Expression :=
  Ast.InfixExpression (Ast.IntegerLiteral 5) "==" (Ast.Boolean true).

(** [fn(x) { x }] *)
Definition identityFunction : Ast.Expression :=
  Ast.FunctionLiteral ["x"] [Ast.ExpressionStatement (Ast.Identifier "x")].

(** The entries of [{1: 10, 1: 20}], in the order of the source. *)
Definition duplicateKeys : list (Ast.Expression * Ast.Expression) :=
  [(Ast.IntegerLiteral 1, Ast.IntegerLiteral 10);
   (Ast.IntegerLiteral 1, Ast.IntegerLiteral 20)].

(** [10 > 1] *)
Definition tenAboveOne : Ast.Expression :=
  Ast.InfixExpression (Ast.IntegerLiteral 10) ">" (Ast.IntegerLiteral 1).

(** [if (10 > 1) { return 10; }] *)
Definition innerIf : Ast.Statement :=
  Ast.ExpressionStatement
    (Ast.IfExpression tenAboveOne [Ast.ReturnStatement (Ast.IntegerLiteral 10)] None).

(** [if (10 > 1) { if (10 > 1) { return 10; } return 1; }] *)
Definition outerIf : Ast.Statement :=
  Ast.ExpressionStatement
    (Ast.IfExpression tenAboveOne [innerIf; Ast.ReturnStatement (Ast.IntegerLiteral 1)] None).

(** [fn() { let x = if (true) { return 1; }; 2 }()] *)
Definition returnUnderLet : Ast.Expression :=
  Ast.CallExpression
    (Ast.FunctionLiteral []
       [Ast.LetStatement "x"
          (Ast.IfExpression (Ast.Boolean true)
             [Ast.ReturnStatement (Ast.IntegerLiteral 1)] None);
        Ast.ExpressionStatement (Ast.IntegerLiteral 2)])
    [].

(** [puts(n)] *)
Definition putsOf (n : Z) : Ast.Expression :=
  Ast.CallExpression (Ast.Identifier "puts") [Ast.IntegerLiteral n].

(** The memory after the array literal [[1, 2, 3]] was evaluated from
    [Host.start]: the Array is at address 4. *)
Definition oneTwoThree : list Object :=
  [Integer 1%nat 1; Integer 2%nat 2; Integer 3%nat 3].

Definition afterArrayLiteral : State :=
  mkState {[ 0%nat := mkEnv ∅ None ]} {[ 4%nat := oneTwoThree ]} 5%nat [].

(** The memory after [puts(1)] ran from [Host.start], and the Error that
    the unbound identifier [foobar] then yields. *)
Definition afterPutsOne : State :=
  mkState {[ 0%nat := mkEnv ∅ None ]} ∅ 2%nat ["1"].

Definition foobarNotFound : Object := Error 2%nat "identifier not found: foobar".

(** What the entries of [{1: 10, 1: 20}] make when they are evaluated from
    [Host.start] in the order of the source. *)
Definition duplicateKeysMade : list (HashKey * (Object * Object)) :=
  [((INTEGER_OBJ, 1), (Integer 1%nat 1, Integer 2%nat 10));
   ((INTEGER_OBJ, 1), (Integer 3%nat 1, Integer 4%nat 20))].

(** The memory after [n] allocations. *)
Definition allocations (n : nat) (s : State) : State :=
  mkState (envs s) (arrays s) (n + next s)%nat (stdout s).

End Inputs.

(** ** Token streams without a semicolon *)

Module Streams.

Import Token Parser.

(** No semicolon is left: neither in the two tokens the parser holds nor in
    what the lexer has yet to produce. *)
Definition noSemicolon (p : Parser) : Prop :=
  Type_ (currT p) <> SEMICOLON /\
  Type_ (peekT p) <> SEMICOLON /\
  Forall (fun tok => Type_ tok <> SEMICOLON) (l p).

(** The parser after [nextToken]. *)
Definition advance (p : Parser) : Parser :=
  mkParser (snd (NextToken (l p))) (peekT p) (fst (NextToken (l p))) (errors p).

End Streams.

(** ** Runs of the evaluator's loops

    The relations below describe how a loop of the evaluator gets through a
    prefix of its list; [ev] stands for the recursive call of [Eval]. *)

Module Runs.

Import Go Object Evaluator.

(** The memory after one allocation. *)
Definition allocated (s : State) : State :=
  mkState (envs s) (arrays s) (S (next s)) (stdout s).

(** Every backing store in memory is at an address that was handed out. *)
Definition arraysBelowNext (s : State) : Prop :=
  forall a, is_Some (arrays s !! a) -> (a < next s)%nat.

(** The memory after [env.Set(name, val)] on the environment cell [cell]. *)
Definition bound (s : State) (env : ptr) (cell : Env) (name : string) (val : Object) : State :=
  mkState (<[env := mkEnv (<[name := val]> (store cell)) (outer cell)]> (envs s))
          (arrays s) (next s) (stdout s).

(** The statements run one after the other, from memory [s] to memory [s'],
    and none of them yields a ReturnValue or an Error. *)
Inductive runsThrough (ev : Evaluate) (env : ptr)
    : list Ast.Statement -> State -> State -> Prop :=
  | runsThrough_nil s : runsThrough ev env [] s s
  | runsThrough_cons stmt stmts s r s1 s2 :
      ev (Ast.NStatement stmt) env s = Done r s1 ->
      stopsBlock r = false ->
      runsThrough ev env stmts s1 s2 ->
      runsThrough ev env (stmt :: stmts) s s2.

(** The expressions are evaluated one after the other, from [s] to [s'],
    none of them yields an Error, and [vals] are their values. *)
Inductive evaluatesAll (ev : Evaluate) (env : ptr)
    : list Ast.Expression -> State -> list Object -> State -> Prop :=
  | evaluatesAll_nil s : evaluatesAll ev env [] s [] s
  | evaluatesAll_cons e es s v s1 vs s2 :
      ev (Ast.NExpression e) env s = Done v s1 ->
      isError v = false ->
      evaluatesAll ev env es s1 vs s2 ->
      evaluatesAll ev env (e :: es) s (v :: vs) s2.

Section Hashes.

Variable hashString : string -> Z.

(** The entries of a hash literal are evaluated one after the other, key
    before value, without an Error and with hashable keys; [made] lists, in
    that order, the hash key and the pair each entry stores. *)
Inductive evaluatesPairs (ev : Evaluate) (env : ptr)
    : list (Ast.Expression * Ast.Expression) -> State ->
      list (HashKey * (Object * Object)) -> State -> Prop :=
  | evaluatesPairs_nil s : evaluatesPairs ev env [] s [] s
  | evaluatesPairs_cons keyNode valNode entries s key s1 hashed val s2 made s3 :
      ev (Ast.NExpression keyNode) env s = Done key s1 ->
      isError key = false ->
      HashKeyOf hashString key = Some hashed ->
      ev (Ast.NExpression valNode) env s1 = Done val s2 ->
      isError val = false ->
      evaluatesPairs ev env entries s2 made s3 ->
      evaluatesPairs ev env ((keyNode, valNode) :: entries) s
                     ((hashed, (key, val)) :: made) s3.

End Hashes.

(** The pair of the last entry of [made] under the hash key [hashed]. *)
Fixpoint lastUnder (hashed : HashKey) (made : list (HashKey * (Object * Object)))
    : option (Object * Object) :=
  match made with
  | [] => None
  | (hashed', hashPair) :: made' =>
      match lastUnder hashed made' with
      | Some later => Some later
      | None => if decide (hashed' = hashed) then Some hashPair else None
      end
  end.

(** The map the loop of [evalHashLiteral] builds from the entries it made. *)
Definition stored (pairs : gmap HashKey (Object * Object))
    (made : list (HashKey * (Object * Object))) : gmap HashKey (Object * Object) :=
  foldl (fun m entry => <[fst entry := snd entry]> m) pairs made.

Section Nesting.

Variable hashString : string -> Z.
Variable Inspect : State -> Object -> string.
Variable rangeOrder :
  list (Ast.Expression * Ast.Expression) -> list (Ast.Expression * Ast.Expression).

(** A [return] under any depth of blocks: the statement is a return
    statement whose value is no Error, or an if expression whose chosen block
    holds such a statement after statements that run through.
    [ReturnsFrom env fuel stmt s r s'] also names the wrapper [r] the return
    statement makes, and the memory [s'] it leaves. *)
Inductive ReturnsFrom (env : ptr) : nat -> Ast.Statement -> State -> Object -> State -> Prop :=
  | ReturnsFrom_return fuel e s val s1 :
      Eval hashString Inspect rangeOrder fuel (Ast.NExpression e) env s = Done val s1 ->
      isError val = false ->
      ReturnsFrom env (S fuel) (Ast.ReturnStatement e) s
                  (ReturnValue (next s1) val) (allocated s1)
  | ReturnsFrom_consequence fuel c alt pre stmt post s cv s1 s2 r s3 :
      Eval hashString Inspect rangeOrder (S fuel) (Ast.NExpression c) env s = Done cv s1 ->
      isError cv = false ->
      isTruthy cv = true ->
      runsThrough (Eval hashString Inspect rangeOrder fuel) env pre s1 s2 ->
      ReturnsFrom env fuel stmt s2 r s3 ->
      ReturnsFrom env (S (S (S fuel)))
                  (Ast.ExpressionStatement (Ast.IfExpression c (pre ++ stmt :: post)%list alt))
                  s r s3
  | ReturnsFrom_alternative fuel c consequence pre stmt post s cv s1 s2 r s3 :
      Eval hashString Inspect rangeOrder (S fuel) (Ast.NExpression c) env s = Done cv s1 ->
      isError cv = false ->
      isTruthy cv = false ->
      runsThrough (Eval hashString Inspect rangeOrder fuel) env pre s1 s2 ->
      ReturnsFrom env fuel stmt s2 r s3 ->
      ReturnsFrom env (S (S (S fuel)))
                  (Ast.ExpressionStatement
                     (Ast.IfExpression c consequence (Some (pre ++ stmt :: post)%list)))
                  s r s3.

End Nesting.

End Runs.

(** ** Ranges, arities and the shape of the memory *)

Module Shapes.

Import Token Object Evaluator.

(** The values of Go's int64. *)
Definition int64 (z : Z) : Prop := - 2 ^ 63 <= z < 2 ^ 63.

(** The number of arguments each builtin but [puts] checks for. *)
Definition wanted (fn : BuiltinFunction) : nat :=
  match fn with
  | pushFn => 2
  | _ => 1
  end.

(** The name each builtin puts in its messages. *)
Definition nameOf (fn : BuiltinFunction) : string :=
  match fn with
  | lenFn => "len"
  | firstFn => "first"
  | lastFn => "last"
  | restFn => "rest"
  | pushFn => "push"
  | putsFn => "puts"
  end.

(** The token types of the binary operators, and their precedences. *)
Definition binaryOperators : list TokenType :=
  [PLUS; MINUS; ASTERISK; SLASH; EQ; NEQ; LT; GT].

Definition precedenceOf (t : TokenType) : nat :=
  default Parser.LOWEST (Parser.precedences !! t).

(** The token types of the prefix operators. *)
Definition prefixOperators : list TokenType := [BANG; MINUS].

(** The token of the identifier [x]. *)
Definition identifier (x : string) : Token := mkToken IDENTIFER x.

(** The tokens of [x1, x2, ..., xn], and those that follow the first
    identifier. *)
Fixpoint thenSeparated (xs : list string) : list Token :=
  match xs with
  | [] => []
  | x :: xs' => mkToken COMMA "," :: identifier x :: thenSeparated xs'
  end.

Definition separated (xs : list string) : list Token :=
  match xs with
  | [] => []
  | x :: xs' => identifier x :: thenSeparated xs'
  end.

(** The parser at the end of its input, with no error recorded. *)
Definition finished : Parser.Parser :=
  Parser.mkParser [] (mkToken EOF "") (mkToken EOF "") [].

(** Since the parser had the errors [e0] and its lexer the tokens [l0], it
    has only added errors and only taken tokens. *)
Definition onward (e0 : list string) (l0 : list Token) (p : Parser.Parser) : Prop :=
  e0 `prefix_of` Parser.errors p /\ Parser.l p `suffix_of` l0.

(** No address was given back between [s] and [s'], and every address that
    was handed out in [s] holds in [s'] the backing store it held, or none
    as before. *)
Definition arraysKept (s s' : State) : Prop :=
  (next s <= next s')%nat /\
  forall a : ptr, (a < next s)%nat -> arrays s' !! a = arrays s !! a.

(** The computation [c] writes no backing store that was there before it. *)
Definition keeps {A} (c : M A) : Prop :=
  forall s a s', c s = Go.Done a s' -> arraysKept s s'.

(** Between [s] and [s'] no address was given back, the output only grew,
    and every environment that was in memory, but the one at [w] when there
    is one, has the bindings it had. *)
Definition envsKept (w : option ptr) (s s' : State) : Prop :=
  (next s <= next s')%nat /\
  (forall e : ptr, (e < next s)%nat -> Some e <> w -> envs s' !! e = envs s !! e) /\
  stdout s `prefix_of` stdout s'.

(** The computation [c] writes no environment but the one at [w]. *)
Definition writesOnly {A} (w : option ptr) (c : M A) : Prop :=
  forall s a s', c s = Go.Done a s' -> envsKept w s s'.

(** Every environment in memory, and every outer environment it points to,
    is at an address that was handed out. *)
Definition envsClosed (s : State) : Prop :=
  forall e cell, envs s !! e = Some cell ->
    (e < next s)%nat /\ forall o, outer cell = Some o -> (o < next s)%nat.

(** The memory after a builtin made the Array [els] at the next address. *)
Definition withArray (s : State) (els : list Object) : State :=
  mkState (envs s) (<[next s := els]> (arrays s)) (S (next s)) (stdout s).

(** The outcome of a computation, with the memory it leaves left out. *)
Definition answer {A} (o : Go.Outcome State A) : Go.Outcome unit A :=
  match o with
  | Go.Done a _ => Go.Done a tt
  | Go.Panic r => Go.Panic r
  | Go.OutOfFuel => Go.OutOfFuel
  end.

(** The store of an environment after its parameters were set, one after
    the other, to the arguments at their positions. *)
Fixpoint boundStore (store : gmap string Object) (params : list string)
    (args : list Object) : gmap string Object :=
  match params, args with
  | param :: params', arg :: args' => boundStore (<[param := arg]> store) params' args'
  | _, _ => store
  end.

End Shapes.

(** * Properties of the evaluator's operators *)

Module OperatorFacts.

Import Go Object Evaluator Runs.

Lemma eqb_false_of_ne (a b : string) : a <> b -> String.eqb a b = false.
Proof. intros H. now apply String.eqb_neq. Qed.

Lemma newError_run (msg : string) (s : State) :
  newError msg s = Done (Error (next s) msg) (allocated s).
Proof. reflexivity. Qed.

(** Go's [==] never holds between objects of different types. *)
Lemma same_TypeOf (l r : Object) : same l r = true -> TypeOf l = TypeOf r.
Proof. destruct l, r; simpl; intros H; try discriminate; reflexivity. Qed.

Lemma typesAre_run (tl tr : ObjectType) (l r : Object) (lt rt : ObjectType) (s : State) :
  TypeOf l = Some lt -> TypeOf r = Some rt ->
  typesAre tl tr l r s = Done (String.eqb lt tl && String.eqb rt tr) s.
Proof.
  intros Hl Hr. unfold typesAre, typeOf, bind. rewrite Hl. simpl.
  destruct (String.eqb lt tl); simpl; [rewrite Hr|]; reflexivity.
Qed.

(** C1 on the code: on two String objects [+] yields a new String with the
    concatenation, and every operator but [+], [==] and [!=] yields the Error
    [unknown operator: STRING <op> STRING]; but [==] and [!=] are reached
    before the string case and yield no Error: they compare the two
    pointers, so [==] is TRUE on one and the same object only, whatever the
    two texts are. *)
Theorem string_infix (op : string) (p q : ptr) (lv rv : string) (s : State) :
  let run := evalInfixExpression op (String p lv) (String q rv) s in
  (op = "+" -> run = Done (String (next s) (lv ++ rv)) (allocated s)) /\
  (op = "==" -> run = Done (nativeBoolToBooleanObject (Nat.eqb p q)) s) /\
  (op = "!=" -> run = Done (nativeBoolToBooleanObject (negb (Nat.eqb p q))) s) /\
  (op <> "+" -> op <> "==" -> op <> "!=" ->
   run = Done (Error (next s) ("unknown operator: STRING " ++ op ++ " STRING")) (allocated s)).
Proof.
  intros run. subst run. unfold evalInfixExpression, bind.
  rewrite (typesAre_run _ _ _ _ STRING_OBJ STRING_OBJ) by reflexivity.
  change (String.eqb STRING_OBJ INTEGER_OBJ) with false. cbn [andb].
  repeat split.
  - intros ->. reflexivity.
  - intros ->. reflexivity.
  - intros ->. reflexivity.
  - intros Hplus Heq Hne.
    rewrite (eqb_false_of_ne _ _ Heq), (eqb_false_of_ne _ _ Hne).
    rewrite (typesAre_run _ _ _ _ STRING_OBJ STRING_OBJ) by reflexivity.
    change (String.eqb STRING_OBJ STRING_OBJ) with true. cbn [andb].
    unfold evalStringInfixExpression. rewrite (eqb_false_of_ne _ _ Hplus).
    reflexivity.
Qed.

(** C2, as the code has it: on two objects of different types every operator
    but [==] and [!=] yields the Error [type mismatch: <L> <op> <R>]; [==]
    yields FALSE and [!=] yields TRUE, as the pointers differ. *)
Theorem type_mismatch_infix (op : string) (l r : Object) (lt rt : ObjectType) (s : State) :
  TypeOf l = Some lt -> TypeOf r = Some rt -> lt <> rt ->
  let run := evalInfixExpression op l r s in
  (op = "==" -> run = Done FALSE s) /\
  (op = "!=" -> run = Done TRUE s) /\
  (op <> "==" -> op <> "!=" ->
   run = Done (Error (next s) ("type mismatch: " ++ lt ++ " " ++ op ++ " " ++ rt)) (allocated s)).
Proof.
  intros Hl Hr Hne run. subst run.
  assert (Hsame : same l r = false).
  { destruct (same l r) eqn:E; [|reflexivity].
    apply same_TypeOf in E. congruence. }
  assert (Hints : String.eqb lt INTEGER_OBJ && String.eqb rt INTEGER_OBJ = false).
  { destruct (String.eqb_spec lt INTEGER_OBJ), (String.eqb_spec rt INTEGER_OBJ);
      try reflexivity. congruence. }
  assert (Hstrs : String.eqb lt STRING_OBJ && String.eqb rt STRING_OBJ = false).
  { destruct (String.eqb_spec lt STRING_OBJ), (String.eqb_spec rt STRING_OBJ);
      try reflexivity. congruence. }
  unfold evalInfixExpression, bind.
  rewrite (typesAre_run _ _ _ _ lt rt), Hints by assumption.
  repeat split.
  - intros ->. cbn. rewrite Hsame. reflexivity.
  - intros ->. cbn. rewrite Hsame. reflexivity.
  - intros Heq Hneq.
    rewrite (eqb_false_of_ne _ _ Heq), (eqb_false_of_ne _ _ Hneq).
    rewrite (typesAre_run _ _ _ _ lt rt), Hstrs by assumption.
    unfold typeOf. rewrite Hl, Hr. cbn.
    rewrite (eqb_false_of_ne _ _ Hne). reflexivity.
Qed.

End OperatorFacts.

(** * Properties of the evaluator's loops *)

Module LoopFacts.

Import Go Object Evaluator Runs.

Lemma stopsBlock_ReturnValue (p : ptr) (v : Object) : stopsBlock (ReturnValue p v) = true.
Proof. reflexivity. Qed.

Lemma stopsBlock_isError (r : Object) : isError r = true -> stopsBlock r = true.
Proof. destruct r; simpl; intros H; try discriminate; reflexivity. Qed.

(** The loop of [evalBlockStatement] gets through statements that run
    through, whatever [result] it started with. *)
Lemma block_runsThrough (ev : Evaluate) (env : ptr) (pre rest : list Ast.Statement)
    (s s1 : State) :
  runsThrough ev env pre s s1 ->
  forall result, exists result',
    evalBlockStatementFrom ev (pre ++ rest) env result s =
    evalBlockStatementFrom ev rest env result' s1.
Proof.
  induction 1 as [s | stmt stmts s r s1 s2 Hev Hstop _ IH]; intros result.
  - exists result. reflexivity.
  - destruct (IH r) as [result' Hrest]. exists result'.
    simpl. unfold bind. rewrite Hev, Hstop. exact Hrest.
Qed.

(** The loop of [evalProgram] gets through them as well. *)
Lemma program_runsThrough (ev : Evaluate) (env : ptr) (pre rest : list Ast.Statement)
    (s s1 : State) :
  runsThrough ev env pre s s1 ->
  forall res, exists res',
    evalProgramFrom ev (pre ++ rest) env res s =
    evalProgramFrom ev rest env res' s1.
Proof.
  induction 1 as [s | stmt stmts s r s1 s2 Hev Hstop _ IH]; intros res.
  - exists res. reflexivity.
  - destruct (IH r) as [res' Hrest]. exists res'.
    simpl. unfold bind. rewrite Hev.
    destruct r; simpl in Hstop; try discriminate; exact Hrest.
Qed.

(** The loop of [evalExpressions] appends the values of expressions that
    evaluate without an Error. *)
Lemma expressions_evaluatesAll (ev : Evaluate) (env : ptr)
    (pre rest : list Ast.Expression) (s s1 : State) (vals : list Object) :
  evaluatesAll ev env pre s vals s1 ->
  forall res,
    evalExpressionsFrom ev (pre ++ rest) env res s =
    evalExpressionsFrom ev rest env (res ++ vals) s1.
Proof.
  induction 1 as [s | e es s v s1 vs s2 Hev Herr _ IH]; intros res.
  - rewrite app_nil_r. reflexivity.
  - simpl. unfold bind. rewrite Hev, Herr, IH, <- app_assoc. reflexivity.
Qed.

Lemma evaluatesAll_length (ev : Evaluate) (env : ptr) (es : list Ast.Expression)
    (s s1 : State) (vals : list Object) :
  evaluatesAll ev env es s vals s1 -> length vals = length es.
Proof. induction 1; simpl; congruence. Qed.

Lemma evaluatesAll_no_error (ev : Evaluate) (env : ptr) (es : list Ast.Expression)
    (s s1 : State) (vals : list Object) :
  evaluatesAll ev env es s vals s1 -> isSingleError vals = false.
Proof.
  destruct 1 as [| e es s v s1 vs s2 _ Herr Hrest]; [reflexivity|].
  destruct Hrest; simpl; [exact Herr | reflexivity].
Qed.

Section Loops.

Variable hashString : string -> Z.
Variable Inspect : State -> Object -> string.
Variable rangeOrder :
  list (Ast.Expression * Ast.Expression) -> list (Ast.Expression * Ast.Expression).

Let run := Evaluator.Eval hashString Inspect rangeOrder.

(** C8: the expressions of an argument list or of an array literal are
    evaluated from left to right; when the first ones evaluate without an
    Error and the next one yields an Error, [evalExpressions] returns that
    Error alone, the array literal and the call evaluate to that same Error,
    and the memory (with the output written so far) is the one the failing
    expression left: nothing after it is evaluated, whatever it is. *)
Theorem error_stops_expressions (fuel : nat) (env : ptr)
    (pre : list Ast.Expression) (e : Ast.Expression) (post : list Ast.Expression)
    (s s1 s2 : State) (vals : list Object) (err : Object) :
  evaluatesAll (run fuel) env pre s vals s1 ->
  run fuel (Ast.NExpression e) env s1 = Done err s2 ->
  isError err = true ->
  evalExpressions (run fuel) (pre ++ e :: post) env s = Done [err] s2 /\
  run (S fuel) (Ast.NExpression (Ast.ArrayLiteral (pre ++ e :: post))) env s = Done err s2 /\
  forall (f : Ast.Expression) (fn : Object) (s0 : State),
    run fuel (Ast.NExpression f) env s0 = Done fn s ->
    isError fn = false ->
    run (S fuel) (Ast.NExpression (Ast.CallExpression f (pre ++ e :: post))) env s0 =
    Done err s2.
Proof.
  intros Hpre He Herr.
  assert (Hlist : evalExpressions (run fuel) (pre ++ e :: post) env s = Done [err] s2).
  { unfold evalExpressions.
    rewrite (expressions_evaluatesAll _ _ _ _ _ _ _ Hpre).
    simpl. unfold bind. rewrite He, Herr. reflexivity. }
  split; [exact Hlist|]. split.
  - subst run. simpl. unfold bind. fold (Eval hashString Inspect rangeOrder fuel).
    rewrite Hlist. simpl. rewrite Herr. reflexivity.
  - intros f fn s0 Hf Hfn.
    subst run. simpl. unfold bind. fold (Eval hashString Inspect rangeOrder fuel).
    rewrite Hf, Hfn, Hlist. simpl. rewrite Herr. reflexivity.
Qed.

End Loops.

End LoopFacts.

(** * Return values, let statements and the boundaries that unwrap *)

Module ControlFacts.

Import Go Object Evaluator Runs LoopFacts.

Section Control.

Variable hashString : string -> Z.
Variable Inspect : State -> Object -> string.
Variable rangeOrder :
  list (Ast.Expression * Ast.Expression) -> list (Ast.Expression * Ast.Expression).

Let run := Evaluator.Eval hashString Inspect rangeOrder.

(** The equations of [Eval] on the nodes of this section. *)

Lemma Eval_ExpressionStatement fuel e env :
  run (S fuel) (Ast.NStatement (Ast.ExpressionStatement e)) env =
  run fuel (Ast.NExpression e) env.
Proof. reflexivity. Qed.

Lemma Eval_BlockStatement fuel stmts env :
  run (S fuel) (Ast.NStatement (Ast.BlockStatement stmts)) env =
  evalBlockStatement (run fuel) stmts env.
Proof. reflexivity. Qed.

Lemma Eval_Program fuel stmts env :
  run (S fuel) (Ast.NProgram stmts) env = evalProgram (run fuel) stmts env.
Proof. reflexivity. Qed.

Lemma Eval_IfExpression fuel c consequence alternative env :
  run (S fuel) (Ast.NExpression (Ast.IfExpression c consequence alternative)) env =
  evalIfExpression (run fuel) c consequence alternative env.
Proof. reflexivity. Qed.

Lemma Eval_ReturnStatement fuel e env :
  run (S fuel) (Ast.NStatement (Ast.ReturnStatement e)) env =
  (let* val := run fuel (Ast.NExpression e) env in
   if isError val then ret val
   else let* p := fresh in ret (ReturnValue p val)).
Proof. reflexivity. Qed.

Lemma Eval_LetStatement fuel name e env :
  run (S fuel) (Ast.NStatement (Ast.LetStatement name e)) env =
  (let* val := run fuel (Ast.NExpression e) env in
   if isError val then ret val
   else Set_ env name val ;; ret Nil).
Proof. reflexivity. Qed.

(** A block whose statements run through up to one that yields a
    ReturnValue or an Error returns that object as it is. *)
Lemma block_stops (ev : Evaluate) (env : ptr) (pre : list Ast.Statement)
    (stmt : Ast.Statement) (post : list Ast.Statement) (s s1 s2 : State) (r : Object) :
  runsThrough ev env pre s s1 ->
  ev (Ast.NStatement stmt) env s1 = Done r s2 ->
  stopsBlock r = true ->
  evalBlockStatement ev (pre ++ stmt :: post) env s = Done r s2.
Proof.
  intros Hpre Hstmt Hstop. unfold evalBlockStatement.
  destruct (block_runsThrough _ _ _ (stmt :: post) _ _ Hpre Nil) as [result' ->].
  simpl. unfold bind. rewrite Hstmt, Hstop. reflexivity.
Qed.

(** What [ReturnsFrom] names is a ReturnValue. *)
Lemma ReturnsFrom_ReturnValue env fuel stmt s r s' :
  ReturnsFrom hashString Inspect rangeOrder env fuel stmt s r s' ->
  exists p v, r = ReturnValue p v.
Proof. induction 1; eauto. Qed.

(** The statement that holds the [return], at any depth, evaluates to the
    very wrapper the return statement made. *)
Lemma ReturnsFrom_Eval env fuel stmt s r s' :
  ReturnsFrom hashString Inspect rangeOrder env fuel stmt s r s' ->
  run fuel (Ast.NStatement stmt) env s = Done r s'.
Proof.
  induction 1 as [fuel e s val s1 He Herr
                 | fuel c alt pre stmt post s cv s1 s2 r s3 Hc Herr Htrue Hpre Hin IH
                 | fuel c cons pre stmt post s cv s1 s2 r s3 Hc Herr Hfalse Hpre Hin IH].
  - rewrite Eval_ReturnStatement. unfold bind. fold run in He. rewrite He, Herr.
    reflexivity.
  - rewrite Eval_ExpressionStatement, Eval_IfExpression. unfold evalIfExpression, bind.
    fold run in Hc. rewrite Hc, Herr, Htrue. rewrite Eval_BlockStatement.
    destruct (ReturnsFrom_ReturnValue _ _ _ _ _ _ Hin) as (p & v & ->).
    apply (block_stops _ _ _ _ _ _ _ _ _ Hpre IH). reflexivity.
  - rewrite Eval_ExpressionStatement, Eval_IfExpression. unfold evalIfExpression, bind.
    fold run in Hc. rewrite Hc, Herr, Hfalse. rewrite Eval_BlockStatement.
    destruct (ReturnsFrom_ReturnValue _ _ _ _ _ _ Hin) as (p & v & ->).
    apply (block_stops _ _ _ _ _ _ _ _ _ Hpre IH). reflexivity.
Qed.

(** A statement that yields neither a ReturnValue nor an Error lets the
    statements run through one further. *)
Lemma runsThrough_snoc (ev : Evaluate) (env : ptr) (pre : list Ast.Statement)
    (stmt : Ast.Statement) (s s1 s2 : State) (r : Object) :
  runsThrough ev env pre s s1 ->
  ev (Ast.NStatement stmt) env s1 = Done r s2 ->
  stopsBlock r = false ->
  runsThrough ev env (pre ++ [stmt]) s s2.
Proof.
  induction 1 as [s | stmt' stmts s r' s1 s1' Hev Hstop _ IH]; intros Hstmt Hgo.
  - exact (runsThrough_cons _ _ _ _ _ _ _ _ Hstmt Hgo (runsThrough_nil _ _ _)).
  - exact (runsThrough_cons _ _ _ _ _ _ _ _ Hev Hstop (IH Hstmt Hgo)).
Qed.

(** C7, as the code has it: when the body of a function, or a program, runs
    through to a statement that holds a [return] under any depth of blocks,
    each of them the block of an if expression that stands as a statement of
    the block around it, the wrapper that return statement made comes out of
    every enclosing block as it is, and the call, like the program, yields
    the wrapped value: one layer is taken off, at that boundary. When the
    same if expression is the value of a let statement instead, the wrapper
    does not come out there: the let statement binds the name to the wrapper
    itself and yields nil, and the block, the program and the body of the
    function go on with the next statement; when that is the last one, its
    result is theirs, with one layer taken off at the boundary if it is a
    ReturnValue. *)
Theorem return_unwraps_at_boundary (fuel : nat) (env : ptr)
    (pre : list Ast.Statement) (stmt : Ast.Statement) (post : list Ast.Statement)
    (s s1 s2 : State) (p : ptr) (v : Object) :
  runsThrough (run fuel) env pre s s1 ->
  ReturnsFrom hashString Inspect rangeOrder env fuel stmt s1 (ReturnValue p v) s2 ->
  run (S fuel) (Ast.NStatement (Ast.BlockStatement (pre ++ stmt :: post))) env s =
    Done (ReturnValue p v) s2 /\
  run (S fuel) (Ast.NProgram (pre ++ stmt :: post)) env s = Done v s2 /\
  (forall (q : ptr) (params : list string) (fnEnv : ptr) (args : list Object) (s0 : State),
     extendFunctionEnv params fnEnv args s0 = Done env s ->
     applyFunction Inspect (run (S fuel)) (Function q params (pre ++ stmt :: post) fnEnv)
                   args s0 =
     Done v s2) /\
  forall (name : string) (e : Ast.Expression) (cell : Env),
    stmt = Ast.ExpressionStatement e ->
    envs s2 !! env = Some cell ->
    let s3 := bound s2 env cell name (ReturnValue p v) in
    run fuel (Ast.NStatement (Ast.LetStatement name e)) env s1 = Done Nil s3 /\
    (exists cell', envs s3 !! env = Some cell' /\
                   store cell' !! name = Some (ReturnValue p v)) /\
    forall (last : Ast.Statement) (r : Object) (s4 : State),
      run fuel (Ast.NStatement last) env s3 = Done r s4 ->
      let body := (pre ++ [Ast.LetStatement name e; last])%list in
      run (S fuel) (Ast.NStatement (Ast.BlockStatement body)) env s = Done r s4 /\
      run (S fuel) (Ast.NProgram body) env s = Done (unwrapReturnValue r) s4 /\
      forall (q : ptr) (params : list string) (fnEnv : ptr) (args : list Object)
             (s0 : State),
        extendFunctionEnv params fnEnv args s0 = Done env s ->
        applyFunction Inspect (run (S fuel)) (Function q params body fnEnv) args s0 =
        Done (unwrapReturnValue r) s4.
Proof.
  intros Hpre Hret. pose proof (ReturnsFrom_Eval _ _ _ _ _ _ Hret) as Hstmt.
  assert (Hblock : run (S fuel) (Ast.NStatement (Ast.BlockStatement (pre ++ stmt :: post)))
                     env s = Done (ReturnValue p v) s2).
  { rewrite Eval_BlockStatement.
    apply (block_stops _ _ _ _ _ _ _ _ _ Hpre Hstmt). reflexivity. }
  split; [exact Hblock|]. split; [|split].
  - rewrite Eval_Program. unfold evalProgram.
    destruct (program_runsThrough _ _ _ (stmt :: post) _ _ Hpre Nil) as [res' ->].
    simpl. unfold bind. rewrite Hstmt. reflexivity.
  - intros q params fnEnv args s0 Hext.
    unfold applyFunction, bind. rewrite Hext, Hblock. reflexivity.
  - intros name e cell -> Hcell s3.
    destruct fuel as [|fuel]; [discriminate Hstmt|].
    rewrite Eval_ExpressionStatement in Hstmt.
    assert (Hlet : run (S fuel) (Ast.NStatement (Ast.LetStatement name e)) env s1 =
                   Done Nil s3).
    { rewrite Eval_LetStatement. unfold bind. rewrite Hstmt. cbn [isError TypeOf].
      change (String.eqb RETURN_VALUE_OBJ ERROR_OBJ) with false. cbv iota.
      unfold Set_. rewrite Hcell. reflexivity. }
    split; [exact Hlet|]. split.
    { eexists. split; [apply lookup_insert_eq|]. simpl. apply lookup_insert_eq. }
    intros last r s4 Hlast body.
    pose proof (runsThrough_snoc _ _ _ _ _ _ _ _ Hpre Hlet eq_refl) as Hpre'.
    assert (Hbody : body = ((pre ++ [Ast.LetStatement name e]) ++ [last])%list).
    { subst body. rewrite <- app_assoc. reflexivity. }
    assert (Hblock' : run (S (S fuel)) (Ast.NStatement (Ast.BlockStatement body)) env s =
                      Done r s4).
    { rewrite Eval_BlockStatement, Hbody. unfold evalBlockStatement.
      destruct (block_runsThrough _ _ _ [last] _ _ Hpre' Nil) as [result' ->].
      cbn [evalBlockStatementFrom]. unfold bind. rewrite Hlast.
      destruct (stopsBlock r); reflexivity. }
    split; [exact Hblock'|]. split.
    + rewrite Eval_Program, Hbody. unfold evalProgram.
      destruct (program_runsThrough _ _ _ [last] _ _ Hpre' Nil) as [res' ->].
      cbn [evalProgramFrom]. unfold bind. rewrite Hlast. destruct r; reflexivity.
    + intros q params fnEnv args s0 Hext.
      unfold applyFunction, bind. rewrite Hext, Hblock'. reflexivity.
Qed.

(** C10: a let statement whose value evaluates without an Error stores the
    value under the name in the current environment and returns nil, which
    is not the NULL object; so does a program, and a block, whose last
    statement is that let statement. *)
Theorem let_returns_nil (fuel : nat) (name : string) (e : Ast.Expression) (env : ptr)
    (s s1 : State) (val : Object) (cell : Env) :
  run fuel (Ast.NExpression e) env s = Done val s1 ->
  isError val = false ->
  envs s1 !! env = Some cell ->
  let s2 := bound s1 env cell name val in
  run (S fuel) (Ast.NStatement (Ast.LetStatement name e)) env s = Done Nil s2 /\
  (exists cell', envs s2 !! env = Some cell' /\ store cell' !! name = Some val) /\
  Nil <> NULL /\ same Nil NULL = false /\
  forall (pre : list Ast.Statement) (s0 : State),
    runsThrough (run (S fuel)) env pre s0 s ->
    run (S (S fuel)) (Ast.NProgram (pre ++ [Ast.LetStatement name e])) env s0 = Done Nil s2 /\
    run (S (S fuel)) (Ast.NStatement (Ast.BlockStatement (pre ++ [Ast.LetStatement name e])))
        env s0 = Done Nil s2.
Proof.
  intros He Herr Hcell s2.
  assert (Hlet : run (S fuel) (Ast.NStatement (Ast.LetStatement name e)) env s = Done Nil s2).
  { rewrite Eval_LetStatement. unfold bind. rewrite He, Herr.
    unfold Set_. rewrite Hcell. reflexivity. }
  split; [exact Hlet|]. split.
  { eexists. split; [apply lookup_insert_eq|]. simpl. apply lookup_insert_eq. }
  split; [discriminate|]. split; [reflexivity|].
  intros pre s0 Hpre. split.
  - rewrite Eval_Program. unfold evalProgram.
    destruct (program_runsThrough _ _ _ [Ast.LetStatement name e] _ _ Hpre Nil) as [res' ->].
    cbn [evalProgramFrom]. unfold bind. rewrite Hlet. reflexivity.
  - rewrite Eval_BlockStatement. unfold evalBlockStatement.
    destruct (block_runsThrough _ _ _ [Ast.LetStatement name e] _ _ Hpre Nil) as [res' ->].
    cbn [evalBlockStatementFrom]. unfold bind. rewrite Hlet. reflexivity.
Qed.

End Control.

End ControlFacts.

(** * Where the evaluator panics *)

Module PanicFacts.

Import Go Object Evaluator Runs LoopFacts.

(** [env.Set] keeps the environment cells in place. *)
Lemma Set_keeps_cell (env : ptr) (name : string) (val : Object) (s : State) :
  is_Some (envs s !! env) ->
  exists s', Set_ env name val s = Done val s' /\ is_Some (envs s' !! env).
Proof.
  intros [cell Hcell]. unfold Set_. rewrite Hcell. eexists. split; [reflexivity|].
  simpl. rewrite lookup_insert_eq. eauto.
Qed.

(** The loop of [extendFunctionEnv] reads [args[idx]] for every parameter:
    with fewer arguments than parameters it runs into the bounds check. *)
Lemma bindParams_short (env : ptr) (args : list Object) (params : list string) :
  forall (idx : nat) (s : State),
    is_Some (envs s !! env) ->
    (idx <= length args)%nat ->
    (length args < idx + length params)%nat ->
    bindParams env params args idx s = Panic indexOutOfRange.
Proof.
  induction params as [|param params IH]; intros idx s Hcell Hle Hlt.
  - simpl in Hlt. lia.
  - simpl. destruct (args !! idx) as [arg|] eqn:Harg; [|reflexivity].
    apply lookup_lt_Some in Harg.
    destruct (Set_keeps_cell env param arg s Hcell) as (s' & Hset & Hcell').
    unfold bind. rewrite Hset. apply IH; [exact Hcell'| lia | simpl in Hlt; lia].
Qed.

(** Arguments beyond the parameters are never read. *)
Lemma bindParams_extra (env : ptr) (args extra : list Object) (params : list string) :
  forall (idx : nat) (s : State),
    (idx + length params <= length args)%nat ->
    bindParams env params (args ++ extra) idx s = bindParams env params args idx s.
Proof.
  induction params as [|param params IH]; intros idx s Hle; [reflexivity|].
  simpl in *. rewrite lookup_app_l by lia.
  destruct (args !! idx); [|reflexivity].
  unfold bind. destruct (Set_ env param o s); try reflexivity.
  apply IH. lia.
Qed.

Lemma extendFunctionEnv_short (params : list string) (fnEnv : ptr) (args : list Object)
    (s : State) :
  (length args < length params)%nat ->
  extendFunctionEnv params fnEnv args s = Panic indexOutOfRange.
Proof.
  intros Hlt. unfold extendFunctionEnv, NewClosedEnv, bind, fresh.
  rewrite bindParams_short; [reflexivity | | lia | lia].
  simpl. rewrite lookup_insert_eq. eauto.
Qed.

Section Panics.

Variable hashString : string -> Z.
Variable Inspect : State -> Object -> string.
Variable rangeOrder :
  list (Ast.Expression * Ast.Expression) -> list (Ast.Expression * Ast.Expression).

Let run := Evaluator.Eval hashString Inspect rangeOrder.

Lemma Eval_CallExpression fuel f a env :
  run (S fuel) (Ast.NExpression (Ast.CallExpression f a)) env =
  (let* fn := run fuel (Ast.NExpression f) env in
   if isError fn then ret fn
   else
     let* args := evalExpressions (run fuel) a env in
     if isSingleError args then ret (default Nil (head args))
     else applyFunction Inspect (run fuel) fn args).
Proof. reflexivity. Qed.

(** C4 on the code: when the operands of [/] evaluate to Integers and the
    right one is 0, the infix expression does not yield an Error, and no
    object at all: Go's integer division panics, and the panic leaves the
    enclosing statement and program. *)
Theorem division_by_zero_panics (fuel : nat) (l r : Ast.Expression) (env : ptr)
    (s s1 s2 : State) (p q : ptr) (a : Z) :
  run fuel (Ast.NExpression l) env s = Done (Integer p a) s1 ->
  run fuel (Ast.NExpression r) env s1 = Done (Integer q 0) s2 ->
  run (S fuel) (Ast.NExpression (Ast.InfixExpression l "/" r)) env s = Panic divideByZero /\
  run (S (S (S fuel)))
      (Ast.NProgram [Ast.ExpressionStatement (Ast.InfixExpression l "/" r)]) env s =
    Panic divideByZero.
Proof.
  intros Hl Hr.
  assert (Hinfix : run (S fuel) (Ast.NExpression (Ast.InfixExpression l "/" r)) env s =
                   Panic divideByZero).
  { subst run. simpl. unfold bind. fold (Eval hashString Inspect rangeOrder fuel).
    rewrite Hl. simpl. rewrite Hr. reflexivity. }
  split; [exact Hinfix|].
  change (run (S (S (S fuel))) (Ast.NProgram [Ast.ExpressionStatement (Ast.InfixExpression l "/" r)]) env s)
    with (bind (run (S fuel) (Ast.NExpression (Ast.InfixExpression l "/" r)) env)
            (fun res => match res with
                        | ReturnValue _ v => ret v
                        | Error _ _ => ret res
                        | _ => ret res
                        end) s).
  unfold bind. rewrite Hinfix. reflexivity.
Qed.

(** C5 on the code: a call whose callee evaluates to a Function and whose
    arguments, fewer than the parameters, evaluate without an Error does not
    yield an Error: [extendFunctionEnv] indexes the arguments out of range
    and panics, before the body is evaluated. *)
Theorem undersupplied_call_panics (fuel : nat) (f : Ast.Expression)
    (a : list Ast.Expression) (env : ptr) (s s1 s2 : State) (p : ptr)
    (params : list string) (body : list Ast.Statement) (fnEnv : ptr) (args : list Object) :
  run fuel (Ast.NExpression f) env s = Done (Function p params body fnEnv) s1 ->
  evaluatesAll (run fuel) env a s1 args s2 ->
  (length a < length params)%nat ->
  run (S fuel) (Ast.NExpression (Ast.CallExpression f a)) env s = Panic indexOutOfRange.
Proof.
  intros Hf Hargs Hlt.
  assert (Hlist : evalExpressions (run fuel) a env s1 = Done args s2).
  { unfold evalExpressions.
    pose proof (expressions_evaluatesAll _ _ _ [] _ _ _ Hargs []) as H.
    rewrite app_nil_r in H. exact H. }
  rewrite Eval_CallExpression. unfold bind. rewrite Hf.
  change (isError (Function p params body fnEnv)) with false. cbv beta iota.
  rewrite Hlist, (evaluatesAll_no_error _ _ _ _ _ _ Hargs).
  unfold applyFunction, bind. rewrite extendFunctionEnv_short; [reflexivity|].
  rewrite (evaluatesAll_length _ _ _ _ _ _ Hargs). exact Hlt.
Qed.

End Panics.

End PanicFacts.

(** * The memory the evaluator leaves *)

Module MemoryFacts.

Import Go Object Evaluator Runs.

Section Preserves.

Context {St : Type} (I : St -> Prop).

Lemma preserves_ret {A} (a : A) : preserves I (ret a).
Proof. intros s a' s' HI H. inversion H; subst. exact HI. Qed.

Lemma preserves_panic {A} (r : string) : preserves I (@panic St A r).
Proof. intros s a s' _ H. discriminate H. Qed.

Lemma preserves_outOfFuel {A} : preserves I (@outOfFuel St A).
Proof. intros s a s' _ H. discriminate H. Qed.

Lemma preserves_bind {A B} (c : Go.M St A) (k : A -> Go.M St B) :
  preserves I c -> (forall a, preserves I (k a)) -> preserves I (bind c k).
Proof.
  intros Hc Hk s b s' HI H. unfold bind in H.
  destruct (c s) as [a s1| |] eqn:E; try discriminate.
  exact (Hk a s1 b s' (Hc s a s1 HI E) H).
Qed.

End Preserves.

(** Breaks a computation down along its binds and case analyses. *)
Ltac preserve :=
  repeat first
    [ assumption
    | solve [auto with preserve]
    | apply preserves_ret
    | apply preserves_panic
    | apply preserves_outOfFuel
    | apply preserves_bind; [|intros ?]
    | match goal with
      | |- preserves _ (if ?b then _ else _) => destruct b
      | |- preserves _ (match ?x with _ => _ end) => destruct x
      end ].

Create HintDb preserve.

Lemma fresh_preserves : preserves arraysBelowNext fresh.
Proof.
  intros s a s' HI H. inversion H; subst. intros b Hb. simpl in *.
  specialize (HI b Hb). lia.
Qed.

Lemma typeOf_preserves obj : preserves arraysBelowNext (typeOf obj).
Proof. unfold typeOf. preserve. Qed.

Lemma Set_preserves env name val : preserves arraysBelowNext (Set_ env name val).
Proof.
  intros s a s' HI H. unfold Set_ in H. destruct (envs s !! env); inversion H; subst.
  exact HI.
Qed.

Lemma Get_preserves fuel : forall env name, preserves arraysBelowNext (Get fuel env name).
Proof.
  induction fuel as [|fuel IH]; intros env name s a s' HI H; simpl in H.
  - discriminate H.
  - destruct (envs s !! env) as [cell|]; [|discriminate].
    destruct (store cell !! name), (outer cell); inversion H; subst; try exact HI.
    exact (IH _ _ _ _ _ HI H).
Qed.

Lemma NewClosedEnv_preserves outer : preserves arraysBelowNext (NewClosedEnv outer).
Proof.
  intros s a s' HI H. inversion H; subst. intros b Hb. simpl in *.
  specialize (HI b Hb). lia.
Qed.

Lemma Elements_preserves a : preserves arraysBelowNext (Elements a).
Proof.
  intros s els s' HI H. unfold Elements in H.
  destruct (arrays s !! a); inversion H; subst. exact HI.
Qed.

(** A write to an address that was handed out keeps the property. *)
Lemma writeElements_below a els s u s' :
  arraysBelowNext s -> (a < next s)%nat -> writeElements a els s = Done u s' ->
  arraysBelowNext s' /\ next s' = next s.
Proof.
  intros HI Ha H. inversion H; subst. split; [|reflexivity].
  intros b Hb. simpl in *. destruct (decide (a = b)) as [<-|Hne]; [exact Ha|].
  rewrite lookup_insert_ne in Hb by exact Hne. exact (HI b Hb).
Qed.

Lemma make_preserves n : preserves arraysBelowNext (make n).
Proof.
  intros s a s' HI H. unfold make, bind, fresh, writeElements, ret in H.
  inversion H; subst. intros b Hb. simpl in *.
  destruct (decide (next s = b)) as [<-|Hne]; [lia|].
  rewrite lookup_insert_ne in Hb by exact Hne. specialize (HI b Hb). lia.
Qed.

Lemma newArray_preserves els : preserves arraysBelowNext (newArray els).
Proof.
  intros s a s' HI H. unfold newArray, bind, fresh, writeElements, ret in H.
  inversion H; subst. intros b Hb. simpl in *.
  destruct (decide (next s = b)) as [<-|Hne]; [lia|].
  rewrite lookup_insert_ne in Hb by exact Hne. specialize (HI b Hb). lia.
Qed.

(** [copy] and the indexed store write where they have just read. *)
Lemma copy_preserves dst src : preserves arraysBelowNext (copy dst src).
Proof.
  intros s u s' HI H. unfold copy, bind, Elements in H.
  destruct (arrays s !! dst) as [d|] eqn:E; [|discriminate].
  apply (writeElements_below _ _ _ _ _ HI) in H; [tauto|].
  apply HI. eexists. exact E.
Qed.

Lemma setIndex_preserves a i v : preserves arraysBelowNext (setIndex a i v).
Proof.
  intros s u s' HI H. unfold setIndex, bind, Elements in H.
  destruct (arrays s !! a) as [d|] eqn:E; [|discriminate].
  destruct (i <? length d)%nat; [|discriminate].
  apply (writeElements_below _ _ _ _ _ HI) in H; [tauto|].
  apply HI. eexists. exact E.
Qed.

#[export] Hint Resolve fresh_preserves typeOf_preserves Set_preserves Get_preserves
  NewClosedEnv_preserves Elements_preserves make_preserves newArray_preserves
  copy_preserves setIndex_preserves : preserve.

Lemma newError_preserves msg : preserves arraysBelowNext (newError msg).
Proof. unfold newError. preserve. Qed.

Lemma newInteger_preserves v : preserves arraysBelowNext (newInteger v).
Proof. unfold newInteger. preserve. Qed.

#[export] Hint Resolve newError_preserves newInteger_preserves : preserve.

Lemma typesAre_preserves tl tr l r : preserves arraysBelowNext (typesAre tl tr l r).
Proof. unfold typesAre. preserve. Qed.

#[export] Hint Resolve typesAre_preserves : preserve.

Lemma evalPrefixExpression_preserves op right :
  preserves arraysBelowNext (evalPrefixExpression op right).
Proof. unfold evalPrefixExpression, evalMinusPrefixOperatorExpression. preserve. Qed.

Lemma evalInfixExpression_preserves op l r :
  preserves arraysBelowNext (evalInfixExpression op l r).
Proof.
  unfold evalInfixExpression, evalIntegerInfixExpression, evalStringInfixExpression.
  preserve.
Qed.

#[export] Hint Resolve evalPrefixExpression_preserves evalInfixExpression_preserves
  : preserve.

Lemma evalIndexExpression_preserves hashString l i :
  preserves arraysBelowNext (evalIndexExpression hashString l i).
Proof.
  unfold evalIndexExpression, evalArrayIndexExpression, evalHashIndexExpression.
  preserve.
Qed.

Lemma println_preserves Inspect arg : preserves arraysBelowNext (println Inspect arg).
Proof.
  unfold println. destruct arg; try apply preserves_panic;
    intros s u s' HI H; inversion H; subst; exact HI.
Qed.

#[export] Hint Resolve evalIndexExpression_preserves println_preserves : preserve.

Lemma putsFunc_preserves Inspect args : preserves arraysBelowNext (putsFunc Inspect args).
Proof. induction args; simpl; preserve. Qed.

Lemma callBuiltin_preserves Inspect fn args :
  preserves arraysBelowNext (callBuiltin Inspect fn args).
Proof.
  destruct fn; simpl; try apply putsFunc_preserves;
    unfold lenFunc, firstFunc, lastFunc, restFunc, pushFunc, withArrayArgument,
      wrongNumberOfArguments;
    preserve.
Qed.

Lemma bindParams_preserves env args params :
  forall idx, preserves arraysBelowNext (bindParams env params args idx).
Proof. induction params; intros idx; simpl; preserve. Qed.

Lemma extendFunctionEnv_preserves params fnEnv args :
  preserves arraysBelowNext (extendFunctionEnv params fnEnv args).
Proof. unfold extendFunctionEnv. preserve. apply bindParams_preserves. Qed.

#[export] Hint Resolve callBuiltin_preserves extendFunctionEnv_preserves : preserve.

Section Loops.

Variable hashString : string -> Z.
Variable Inspect : State -> Object -> string.
Variable rangeOrder :
  list (Ast.Expression * Ast.Expression) -> list (Ast.Expression * Ast.Expression).

Variable ev : Evaluate.
Hypothesis ev_preserves : forall node env, preserves arraysBelowNext (ev node env).

Lemma evalProgram_preserves stmts env :
  preserves arraysBelowNext (evalProgram ev stmts env).
Proof.
  unfold evalProgram. generalize Nil.
  induction stmts; intros res; simpl; preserve; auto.
Qed.

Lemma evalBlockStatement_preserves stmts env :
  preserves arraysBelowNext (evalBlockStatement ev stmts env).
Proof.
  unfold evalBlockStatement. generalize Nil.
  induction stmts; intros res; simpl; preserve; auto.
Qed.

Lemma evalExpressions_preserves exprs env :
  preserves arraysBelowNext (evalExpressions ev exprs env).
Proof.
  unfold evalExpressions. generalize (@nil Object).
  induction exprs; intros res; simpl; preserve; auto.
Qed.

Lemma evalHashLiteral_preserves pairs env :
  preserves arraysBelowNext (evalHashLiteral hashString rangeOrder ev pairs env).
Proof.
  unfold evalHashLiteral. generalize (∅ : gmap HashKey (Object * Object)).
  induction (rangeOrder pairs) as [|[keyNode valNode] entries IH]; intros m; simpl;
    preserve; auto.
Qed.

Lemma evalIfExpression_preserves c consequence alternative env :
  preserves arraysBelowNext (evalIfExpression ev c consequence alternative env).
Proof. unfold evalIfExpression. preserve; auto. Qed.

Lemma applyFunction_preserves fn args :
  preserves arraysBelowNext (applyFunction Inspect ev fn args).
Proof. unfold applyFunction. preserve; auto. Qed.

End Loops.

(** Whatever it evaluates, and from whatever memory that has the property,
    [Eval] leaves every backing store at an address that was handed out. *)
Lemma Eval_preserves hashString Inspect rangeOrder (fuel : nat) :
  forall node env,
    preserves arraysBelowNext (Eval hashString Inspect rangeOrder fuel node env).
Proof.
  induction fuel as [|fuel IH]; intros node env; [apply preserves_outOfFuel|].
  pose proof (evalProgram_preserves _ IH) as Hprogram.
  pose proof (evalBlockStatement_preserves _ IH) as Hblock.
  pose proof (evalExpressions_preserves _ IH) as Hexprs.
  pose proof (evalHashLiteral_preserves hashString rangeOrder _ IH) as Hhash.
  pose proof (evalIfExpression_preserves _ IH) as Hif.
  pose proof (applyFunction_preserves Inspect _ IH) as Happly.
  destruct node as [stmts | stmt | e]; simpl.
  - apply Hprogram.
  - destruct stmt; preserve.
  - destruct e; try (unfold evalIdentifier); preserve.
Qed.

Lemma start_arraysBelowNext : arraysBelowNext Host.start.
Proof. intros a [els H]. vm_compute in H. discriminate H. Qed.

End MemoryFacts.

(** * The builtin [push] *)

Module BuiltinFacts.

Import Go Object Evaluator Runs MemoryFacts.

Local Open Scope list_scope.
Local Open Scope nat_scope.

(** What [make], [copy] and the indexed store of [pushFunc] leave in the new
    backing store. *)
Lemma push_elements (els : list Object) (v : Object) :
  <[length els := v]>
    (take (length (replicate (length els + 1) Nil)) els ++
     drop (length els) (replicate (length els + 1) Nil)) = (els ++ [v])%list.
Proof.
  rewrite length_replicate, take_ge by lia.
  rewrite drop_replicate.
  replace (length els + 1 - length els)%nat with 1%nat by lia.
  simpl. rewrite insert_app_r_alt by lia.
  replace (length els - length els)%nat with 0%nat by lia. reflexivity.
Qed.

(** C9: in a memory whose backing stores all lie at addresses that were
    handed out (every memory the evaluator reaches, by [Eval_preserves]),
    [push] on an Array and a value returns a new Array, at a fresh address,
    whose elements are those of the input followed by the value; the
    elements of the input Array, and of every other Array in memory, are
    what they were, and so are the environments and the output. *)
Theorem push_appends (a : ptr) (v : Object) (els : list Object) (s : State) :
  arraysBelowNext s ->
  arrays s !! a = Some els ->
  let s' := mkState (envs s) (<[next s := (els ++ [v])%list]> (arrays s))
                    (S (next s)) (stdout s) in
  pushFunc [Array a; v] s = Done (Array (next s)) s' /\
  arrays s' !! next s = Some (els ++ [v])%list /\
  arrays s' !! a = Some els /\
  same (Array (next s)) (Array a) = false /\
  forall b, b <> next s -> arrays s' !! b = arrays s !! b.
Proof.
  intros Hs Ha s'.
  assert (Hlt : a < next s) by (apply Hs; eexists; exact Ha).
  split; [|split; [|split; [|split]]].
  - unfold pushFunc, bind, typeOf, ret. simpl.
    unfold Elements at 1. rewrite Ha.
    unfold make, copy, setIndex, bind, fresh, writeElements, Elements, ret. simpl.
    rewrite lookup_insert_eq. simpl. rewrite lookup_insert_eq.
    assert (Hlen : (length els <?
                    length (take (length (replicate (length els + 1) Nil)) els ++
                            drop (length els) (replicate (length els + 1) Nil)))%nat = true).
    { apply Nat.ltb_lt. rewrite length_app, length_take, length_drop, length_replicate. lia. }
    rewrite Hlen. simpl. rewrite push_elements.
    unfold s'. rewrite !insert_insert_eq. reflexivity.
  - simpl. apply lookup_insert_eq.
  - simpl. rewrite lookup_insert_ne by lia. exact Ha.
  - simpl. apply Nat.eqb_neq. lia.
  - intros b Hb. simpl. apply lookup_insert_ne. congruence.
Qed.

End BuiltinFacts.

(** * Hash literals *)

Module HashFacts.

Import Go Object Evaluator Runs.

(** Under each hash key the map holds the pair of the last entry made under
    it, and what it held before where no entry was made. *)
Lemma stored_lookup (made : list (HashKey * (Object * Object))) :
  forall (pairs : gmap HashKey (Object * Object)) (hashed : HashKey),
    stored pairs made !! hashed =
    match lastUnder hashed made with
    | Some later => Some later
    | None => pairs !! hashed
    end.
Proof.
  induction made as [|[hashed' hashPair] made IH]; intros pairs hashed; [reflexivity|].
  simpl. rewrite IH. destruct (lastUnder hashed made); [reflexivity|].
  simpl. destruct (decide (hashed' = hashed)) as [->|Hne].
  - apply lookup_insert_eq.
  - apply lookup_insert_ne. exact Hne.
Qed.

Section Hashes.

Variable hashString : string -> Z.
Variable Inspect : State -> Object -> string.
Variable rangeOrder :
  list (Ast.Expression * Ast.Expression) -> list (Ast.Expression * Ast.Expression).

Let run := Evaluator.Eval hashString Inspect rangeOrder.

Lemma hash_loop (ev : Evaluate) (env : ptr)
    (entries : list (Ast.Expression * Ast.Expression)) (s s' : State)
    (made : list (HashKey * (Object * Object))) :
  evaluatesPairs hashString ev env entries s made s' ->
  forall pairs,
    evalHashLiteralFrom hashString ev entries env pairs s =
    Done (Hash (next s') (stored pairs made)) (allocated s').
Proof.
  induction 1 as [s | keyNode valNode entries s key s1 hashed val s2 made s3
                      Hkey Hkerr Hhash Hval Hverr _ IH]; intros pairs.
  - reflexivity.
  - simpl. unfold bind. rewrite Hkey, Hkerr, Hhash, Hval, Hverr. apply IH.
Qed.

(** C6, as the code has it: the entries of a hash literal are evaluated in
    the order the [range] over the [Pairs] map yields them, which need not
    be the order of the source; when they evaluate without an Error and the
    keys are hashable, the Hash holds, under each hash key, the key and the
    value of the entry evaluated last under it. *)
Theorem hash_literal_last_evaluated_wins (fuel : nat) (env : ptr)
    (Pairs : list (Ast.Expression * Ast.Expression)) (s s' : State)
    (made : list (HashKey * (Object * Object))) :
  evaluatesPairs hashString (run fuel) env (rangeOrder Pairs) s made s' ->
  exists pairs,
    run (S fuel) (Ast.NExpression (Ast.HashLiteral Pairs)) env s =
      Done (Hash (next s') pairs) (allocated s') /\
    forall hashed, pairs !! hashed = lastUnder hashed made.
Proof.
  intros Hmade. exists (stored ∅ made). split.
  - change (run (S fuel) (Ast.NExpression (Ast.HashLiteral Pairs)) env s)
      with (evalHashLiteralFrom hashString (run fuel) (rangeOrder Pairs) env ∅ s).
    apply (hash_loop _ _ _ _ _ _ Hmade).
  - intros hashed. rewrite stored_lookup, lookup_empty.
    destruct (lastUnder hashed made); reflexivity.
Qed.

End Hashes.

End HashFacts.

(** * The parser's scan for the semicolon *)

Module ParserFacts.

Import Go Token Parser Inputs Streams.

Section Steady.

Context {St : Type} (I : St -> Prop).

Lemma steady_ret {A} (a : A) : steady I (ret a).
Proof. intros s HI. exact HI. Qed.

Lemma steady_outOfFuel {A} : steady I (@outOfFuel St A).
Proof. intros s HI. exact Logic.I. Qed.

Lemma steady_bind {A B} (c : Go.M St A) (k : A -> Go.M St B) :
  steady I c -> (forall a, steady I (k a)) -> steady I (bind c k).
Proof.
  intros Hc Hk s HI. unfold bind. specialize (Hc s HI).
  destruct (c s) as [a s1| |]; [exact (Hk a s1 Hc) | exact Hc | exact Logic.I].
Qed.

End Steady.

Create HintDb steady.

(** Breaks a parse function down along its binds and case analyses. *)
Ltac steadily :=
  repeat first
    [ assumption
    | solve [auto with steady]
    | apply steady_ret
    | apply steady_outOfFuel
    | apply steady_bind; [|intros ?]
    | match goal with
      | |- steady _ (if ?b then _ else _) => destruct b
      | |- steady _ (match ?x with _ => _ end) => destruct x
      end ].

Lemma bind_Done {St A B} (c : Go.M St A) (k : A -> Go.M St B) (s s' : St) (a : A) :
  c s = Done a s' -> bind c k s = k a s'.
Proof. intros H. unfold bind. rewrite H. reflexivity. Qed.

Lemma nextToken_run (p : Parser) : nextToken p = Done tt (advance p).
Proof. unfold nextToken, advance. destruct (NextToken (l p)). reflexivity. Qed.

Lemma expectPeek_run (t : TokenType) (p : Parser) :
  Type_ (peekT p) = t -> expectPeek t p = Done true (advance p).
Proof.
  intros H. unfold expectPeek, bind, peekTokenIs. rewrite H, String.eqb_refl.
  rewrite nextToken_run. reflexivity.
Qed.

(** What the lexer yields after a stream without a semicolon is no
    semicolon either: it is EOF. *)
Lemma nextToken_steady : steady noSemicolon nextToken.
Proof.
  intros p (Hcurr & Hpeek & Hl). rewrite nextToken_run.
  split; [exact Hpeek|]. simpl.
  destruct Hl; simpl; split; try assumption; try constructor. discriminate.
Qed.

Lemma advance_noSemicolon (p : Parser) : noSemicolon p -> noSemicolon (advance p).
Proof. intros Hp. pose proof (nextToken_steady p Hp) as H. rewrite nextToken_run in H. exact H. Qed.

(** Reading the parser, or adding an error message, does not touch the
    tokens. *)
Lemma read_steady {A} (f : Parser -> A) : steady noSemicolon (fun p => Done (f p) p).
Proof. intros p H. exact H. Qed.

Lemma currType_steady : steady noSemicolon currType.
Proof. apply (read_steady (fun p => Type_ (currT p))). Qed.

Lemma currLiteral_steady : steady noSemicolon currLiteral.
Proof. apply (read_steady (fun p => Literal (currT p))). Qed.

Lemma peekType_steady : steady noSemicolon peekType.
Proof. apply (read_steady (fun p => Type_ (peekT p))). Qed.

Lemma currTIs_steady t : steady noSemicolon (currTIs t).
Proof. apply (read_steady (fun p => String.eqb (Type_ (currT p)) t)). Qed.

Lemma peekTokenIs_steady t : steady noSemicolon (peekTokenIs t).
Proof. apply (read_steady (fun p => String.eqb (Type_ (peekT p)) t)). Qed.

Lemma appendError_steady msg : steady noSemicolon (appendError msg).
Proof. intros p H. exact H. Qed.

#[export] Hint Resolve nextToken_steady currType_steady currLiteral_steady
  peekType_steady currTIs_steady peekTokenIs_steady appendError_steady : steady.

Lemma peekError_steady t : steady noSemicolon (peekError t).
Proof. unfold peekError. steadily. Qed.

Lemma noPrefixParseFnError_steady t : steady noSemicolon (noPrefixParseFnError t).
Proof. unfold noPrefixParseFnError. steadily. Qed.

#[export] Hint Resolve peekError_steady noPrefixParseFnError_steady : steady.

Lemma expectPeek_steady t : steady noSemicolon (expectPeek t).
Proof. unfold expectPeek. steadily. Qed.

Lemma peekPrecendence_steady : steady noSemicolon peekPrecendence.
Proof. unfold peekPrecendence. steadily. Qed.

Lemma currPrecendence_steady : steady noSemicolon currPrecendence.
Proof. unfold currPrecendence. steadily. Qed.

#[export] Hint Resolve expectPeek_steady peekPrecendence_steady currPrecendence_steady
  : steady.

(** Once no semicolon is left in the token stream, the scan never ends:
    whatever the fuel, the loop is still running when it is spent. *)
Lemma skipToSemicolon_without_semicolon (fuel : nat) :
  forall p : Parser, noSemicolon p -> skipToSemicolon fuel p = OutOfFuel.
Proof.
  induction fuel as [|fuel IH]; intros p Hp; [reflexivity|].
  pose proof (nextToken_steady p Hp) as Hnext.
  destruct Hp as (Hcurr & _). simpl. unfold bind, currTIs.
  apply String.eqb_neq in Hcurr. rewrite Hcurr. simpl.
  destruct (nextToken p) as [u p'| |]; [apply IH; exact Hnext | destruct Hnext | reflexivity].
Qed.

Lemma skipToSemicolon_steady fuel : steady noSemicolon (skipToSemicolon fuel).
Proof. intros p Hp. rewrite skipToSemicolon_without_semicolon by exact Hp. exact Logic.I. Qed.

#[export] Hint Resolve skipToSemicolon_steady : steady.

Section Scan.

Variable ParseInt : string -> option Z.
Variable Quote : string -> string.

Section Handlers.

Variable fuel : nat.
Variable pe : nat -> P Ast.Expression.
Hypothesis pe_steady : forall precedence, steady noSemicolon (pe precedence).

Lemma parseStatment_steady : steady noSemicolon (parseStatment fuel pe).
Proof.
  unfold parseStatment, parseLetStatement, parseReturnStatement, parseExpressionStatment.
  steadily.
Qed.

Lemma parseBlockStatement_steady : steady noSemicolon (parseBlockStatement fuel pe).
Proof.
  assert (Hloop : forall n stmts, steady noSemicolon (parseBlockStatementFrom fuel pe n stmts)).
  { pose proof parseStatment_steady.
    induction n as [|n IH]; intros stmts; simpl; steadily. }
  unfold parseBlockStatement. steadily.
Qed.

Lemma parseFunctionParams_steady : steady noSemicolon (parseFunctionParams fuel).
Proof.
  assert (Hloop : forall n idents, steady noSemicolon (parseFunctionParamsFrom n idents)).
  { induction n as [|n IH]; intros idents; simpl; steadily. }
  unfold parseFunctionParams. steadily.
Qed.

Lemma parseExpressionList_steady end_ : steady noSemicolon (parseExpressionList fuel pe end_).
Proof.
  assert (Hloop : forall n exprs, steady noSemicolon (parseExpressionListFrom pe n exprs)).
  { induction n as [|n IH]; intros exprs; simpl; steadily. }
  unfold parseExpressionList. steadily.
Qed.

Lemma parseHashLiteral_steady : steady noSemicolon (parseHashLiteral fuel pe).
Proof.
  assert (Hloop : forall n pairs, steady noSemicolon (parseHashLiteralFrom pe n pairs)).
  { induction n as [|n IH]; intros pairs; simpl; steadily. }
  unfold parseHashLiteral. steadily.
Qed.

Lemma callPrefix_steady prefix :
  steady noSemicolon (callPrefix ParseInt Quote fuel pe prefix).
Proof.
  pose proof parseBlockStatement_steady. pose proof parseFunctionParams_steady.
  pose proof parseExpressionList_steady. pose proof parseHashLiteral_steady.
  destruct prefix; simpl;
    unfold parseIdentifier, parseIntegerLiteral, parsePrefixExpression, parseBoolean,
      parseGroupedExpression, parseIfExpression, parseFunctionLiteral,
      parseStringLiteral, parseArrayLiteral;
    steadily.
Qed.

Lemma callInfix_steady infix left : steady noSemicolon (callInfix fuel pe infix left).
Proof.
  pose proof parseExpressionList_steady.
  destruct infix; simpl;
    unfold parseInfixExpression, parseCallExpression, parseIndexExpression;
    steadily.
Qed.

Lemma parseExpressionBody_steady precedence :
  steady noSemicolon (parseExpressionBody ParseInt Quote fuel pe precedence).
Proof.
  assert (Hloop : forall n left,
             steady noSemicolon (parseExpressionFrom fuel pe n precedence left)).
  { pose proof callInfix_steady.
    induction n as [|n IH]; intros left; simpl; steadily. }
  pose proof callPrefix_steady.
  unfold parseExpressionBody. steadily.
Qed.

End Handlers.

(** Parsing an expression in a stream without a semicolon leaves a stream
    without a semicolon, and the parser has no panic. *)
Lemma parseExpression_steady (fuel : nat) :
  forall precedence, steady noSemicolon (parseExpression ParseInt Quote fuel precedence).
Proof.
  induction fuel as [|fuel IH]; intros precedence; simpl.
  - apply steady_outOfFuel.
  - apply parseExpressionBody_steady. exact IH.
Qed.

(** After its expression, a statement scans for the semicolon: without one
    left in the stream, that never returns. *)
Lemma scan_never_returns (fuel : nat) {A} (k : Ast.Expression -> A) (p : Parser) :
  noSemicolon p ->
  (let* value := parseExpression ParseInt Quote fuel LOWEST in
   skipToSemicolon fuel ;; ret (k value)) p = OutOfFuel.
Proof.
  intros Hp. unfold bind.
  pose proof (parseExpression_steady fuel LOWEST p Hp) as He.
  destruct (parseExpression ParseInt Quote fuel LOWEST p) as [e p'| |];
    [|destruct He | reflexivity].
  rewrite skipToSemicolon_without_semicolon by exact He. reflexivity.
Qed.

Lemma return_never_returns (fuel : nat) (p : Parser) :
  noSemicolon p ->
  Type_ (currT p) = RETURN ->
  parseStatment fuel (parseExpression ParseInt Quote fuel) p = OutOfFuel.
Proof.
  intros Hp Hcurr. unfold parseStatment, bind at 1, currType. rewrite Hcurr.
  change (String.eqb RETURN LET) with false.
  change (String.eqb RETURN RETURN) with true. cbv iota.
  unfold parseReturnStatement, bind at 1.
  pose proof (nextToken_steady p Hp) as Hnext.
  destruct (nextToken p) as [u p'| |]; [|destruct Hnext | reflexivity].
  apply (scan_never_returns fuel Ast.ReturnStatement p' Hnext).
Qed.

Lemma let_never_returns (fuel : nat) (p : Parser) (tok : Token) (rest : list Token) :
  noSemicolon p ->
  Type_ (currT p) = LET ->
  Type_ (peekT p) = IDENTIFER ->
  l p = tok :: rest ->
  Type_ tok = ASSIGN ->
  parseStatment fuel (parseExpression ParseInt Quote fuel) p = OutOfFuel.
Proof.
  intros Hp Hcurr Hpeek Hl Htok. unfold parseStatment, bind at 1, currType. rewrite Hcurr.
  change (String.eqb LET LET) with true. cbv iota.
  unfold parseLetStatement.
  rewrite (bind_Done _ _ p (advance p) true) by (apply expectPeek_run; exact Hpeek).
  cbn [negb].
  rewrite (bind_Done _ _ (advance p) (advance p) (Literal (currT (advance p))))
    by reflexivity.
  rewrite (bind_Done _ _ (advance p) (advance (advance p)) true).
  2:{ apply expectPeek_run. simpl. rewrite Hl. exact Htok. }
  cbn [negb].
  rewrite (bind_Done _ _ (advance (advance p)) (advance (advance (advance p))) tt)
    by apply nextToken_run.
  apply (scan_never_returns fuel (Ast.LetStatement (Literal (currT (advance p))))).
  apply advance_noSemicolon, advance_noSemicolon, advance_noSemicolon. exact Hp.
Qed.

(** C3 on the code: once the parser is at a [return], or at a [let] with its
    name and its [=], and no semicolon is left before the end of the input,
    the statement never returns, and neither does [ParseProgram], although
    the lexer yields EOF for ever: the scan for the semicolon steps over EOF
    again and again. *)
Theorem missing_semicolon_never_returns (fuel : nat) (p : Parser) :
  noSemicolon p ->
  Type_ (currT p) = RETURN \/
  (Type_ (currT p) = LET /\ Type_ (peekT p) = IDENTIFER /\
   Type_ <$> head (l p) = Some ASSIGN) ->
  parseStatment fuel (parseExpression ParseInt Quote fuel) p = OutOfFuel /\
  ParseProgram ParseInt Quote fuel p = OutOfFuel.
Proof.
  intros Hp Hat.
  assert (Hstmt : parseStatment fuel (parseExpression ParseInt Quote fuel) p = OutOfFuel).
  { destruct Hat as [Hret | (Hlet & Hident & Hassign)].
    - apply return_never_returns; assumption.
    - destruct (l p) as [|tok rest] eqn:Hl; [discriminate|].
      apply (let_never_returns fuel p tok rest); try assumption.
      simpl in Hassign. congruence. }
  split; [exact Hstmt|].
  destruct fuel as [|n]; [reflexivity|].
  unfold ParseProgram. cbn [ParseProgramFrom]. unfold bind at 1, currTIs.
  assert (String.eqb (Type_ (currT p)) EOF = false) as ->.
  { destruct Hat as [-> | (-> & _)]; reflexivity. }
  cbn [negb]. unfold bind at 1. rewrite Hstmt. reflexivity.
Qed.

End Scan.

End ParserFacts.

(** * The properties on concrete inputs *)

Module Instances.

Import Go Object Evaluator Runs Inputs.

Local Open Scope nat_scope.

(** The array literal [[1, 2, 3]] leaves the memory [afterArrayLiteral]. *)
Example array_literal_run :
  run 3 (Ast.NExpression (Ast.ArrayLiteral
           [Ast.IntegerLiteral 1; Ast.IntegerLiteral 2; Ast.IntegerLiteral 3]))
      0 Host.start = Done (Array 4) afterArrayLiteral.
Proof. vm_compute. reflexivity. Qed.

(** ["a" == "a"] on the two String objects of two literals is FALSE, and
    ["a" != "a"] is TRUE, where C1 names an Error; on one and the same
    object [==] is TRUE; ["a" - "b"] is the Error of C1. *)
Lemma string_infix_witness :
  evalInfixExpression "==" (String 1 "a") (String 2 "a") Host.start =
    Done FALSE Host.start /\
  evalInfixExpression "!=" (String 1 "a") (String 2 "a") Host.start =
    Done TRUE Host.start /\
  evalInfixExpression "==" (String 1 "a") (String 1 "a") Host.start =
    Done TRUE Host.start /\
  evalInfixExpression "-" (String 1 "a") (String 2 "b") Host.start =
    Done (Error 1 "unknown operator: STRING - STRING") (allocated Host.start).
Proof.
  destruct (OperatorFacts.string_infix "==" 1 2 "a" "a" Host.start) as (_ & Heq & _).
  destruct (OperatorFacts.string_infix "!=" 1 2 "a" "a" Host.start) as (_ & _ & Hne & _).
  destruct (OperatorFacts.string_infix "==" 1 1 "a" "a" Host.start) as (_ & Hsame & _).
  destruct (OperatorFacts.string_infix "-" 1 2 "a" "b" Host.start) as (_ & _ & _ & Hother).
  split; [exact (Heq eq_refl)|]. split; [exact (Hne eq_refl)|].
  split; [exact (Hsame eq_refl)|].
  apply Hother; discriminate.
Defined.

(** The failing input of C1, ["a" == "a"], through [Eval]: the two literals
    are two String objects, and the comparison yields FALSE, which is no
    Error. *)
Lemma string_equality_counterexample :
  exists s',
    run 3 (Ast.NExpression stringEquality) 0 Host.start = Done FALSE s' /\
    isError FALSE = false /\
    forall p s'', run 3 (Ast.NExpression stringEquality) 0 Host.start <>
                  Done (Error p "unknown operator: STRING == STRING") s''.
Proof.
  eexists. split; [vm_compute; reflexivity|]. split; [reflexivity|].
  intros p s'' H. vm_compute in H. discriminate H.
Qed.

(** [let a = "x"; a == a] is TRUE: both operands are the one String object
    bound to [a]. *)
Example string_identity_run :
  exists s',
    run 5 (Ast.NProgram
             [Ast.LetStatement "a" (Ast.StringLiteral "x");
              Ast.ExpressionStatement
                (Ast.InfixExpression (Ast.Identifier "a") "==" (Ast.Identifier "a"))])
        0 Host.start = Done TRUE s'.
Proof. eexists. vm_compute. reflexivity. Qed.

(** [5 + true] is the type mismatch of C2. *)
Lemma type_mismatch_infix_witness :
  TypeOf (Integer 1 5) = Some INTEGER_OBJ /\ TypeOf TRUE = Some BOOLEAN_OBJ /\
  INTEGER_OBJ <> BOOLEAN_OBJ /\ "+" <> "==" /\ "+" <> "!=" /\
  evalInfixExpression "+" (Integer 1 5) TRUE Host.start =
  Done (Error 1 "type mismatch: INTEGER + BOOLEAN") (allocated Host.start).
Proof.
  split; [reflexivity|]. split; [reflexivity|]. split; [discriminate|].
  split; [discriminate|]. split; [discriminate|].
  apply (OperatorFacts.type_mismatch_infix "+" (Integer 1 5) TRUE
           INTEGER_OBJ BOOLEAN_OBJ Host.start);
    try reflexivity; discriminate.
Defined.

(** C2 fails on [5 == true]: the result is FALSE, no Error. *)
Lemma integer_equals_boolean_counterexample :
  exists s',
    run 3 (Ast.NExpression integerEqualsBoolean) 0 Host.start = Done FALSE s' /\
    isError FALSE = false /\
    forall p s'', run 3 (Ast.NExpression integerEqualsBoolean) 0 Host.start <>
                  Done (Error p "type mismatch: INTEGER == BOOLEAN") s''.
Proof.
  eexists. split; [vm_compute; reflexivity|]. split; [reflexivity|].
  intros p s'' H. vm_compute in H. discriminate H.
Qed.

(** [1 / 0] panics, and so does the program that holds it. *)
Lemma division_by_zero_panics_witness :
  run 1 (Ast.NExpression (Ast.IntegerLiteral 1)) 0 Host.start =
    Done (Integer 1 1) (allocated Host.start) /\
  run 1 (Ast.NExpression (Ast.IntegerLiteral 0)) 0 (allocated Host.start) =
    Done (Integer 2 0) (allocated (allocated Host.start)) /\
  run 2 (Ast.NExpression
           (Ast.InfixExpression (Ast.IntegerLiteral 1) "/" (Ast.IntegerLiteral 0)))
      0 Host.start = Panic divideByZero /\
  run 4 (Ast.NProgram
           [Ast.ExpressionStatement
              (Ast.InfixExpression (Ast.IntegerLiteral 1) "/" (Ast.IntegerLiteral 0))])
      0 Host.start = Panic divideByZero.
Proof.
  split; [reflexivity|]. split; [reflexivity|].
  exact (PanicFacts.division_by_zero_panics
           Host.hashString Host.Inspect Host.insertionOrder 1
           (Ast.IntegerLiteral 1) (Ast.IntegerLiteral 0) 0
           Host.start (allocated Host.start) (allocated (allocated Host.start))
           1 2 1%Z eq_refl eq_refl).
Defined.

(** [fn(x) { x }()] panics. *)
Lemma undersupplied_call_panics_witness :
  run 1 (Ast.NExpression identityFunction) 0 Host.start =
    Done (Function 1 ["x"] [Ast.ExpressionStatement (Ast.Identifier "x")] 0)
         (allocated Host.start) /\
  evaluatesAll (run 1) 0 [] (allocated Host.start) [] (allocated Host.start) /\
  length (@nil Ast.Expression) < length ["x"] /\
  run 2 (Ast.NExpression (Ast.CallExpression identityFunction [])) 0 Host.start =
    Panic indexOutOfRange.
Proof.
  split; [reflexivity|]. split; [constructor|]. split; [simpl; lia|].
  apply (PanicFacts.undersupplied_call_panics
           Host.hashString Host.Inspect Host.insertionOrder 1 identityFunction [] 0
           Host.start (allocated Host.start) (allocated Host.start) 1
           ["x"] [Ast.ExpressionStatement (Ast.Identifier "x")] 0 []).
  - reflexivity.
  - constructor.
  - simpl. lia.
Defined.

(** With one argument too many, [fn(x) { x }(1, 2)] binds [x] to 1 and
    yields it: the second argument is not read. *)
Example oversupplied_call_run :
  exists s',
    run 6 (Ast.NExpression
             (Ast.CallExpression identityFunction
                [Ast.IntegerLiteral 1; Ast.IntegerLiteral 2]))
        0 Host.start = Done (Integer 2 1) s'.
Proof. eexists. vm_compute. reflexivity. Qed.

(** [{1: 10, 1: 20}], its entries evaluated in the order of the source:
    the Hash holds the key and the value of the second entry. *)
Lemma hash_literal_last_evaluated_wins_witness :
  evaluatesPairs Host.hashString (run 2) 0 (Host.insertionOrder duplicateKeys)
                 Host.start duplicateKeysMade (allocations 4 Host.start) /\
  exists pairs,
    run 3 (Ast.NExpression (Ast.HashLiteral duplicateKeys)) 0 Host.start =
      Done (Hash 5 pairs) (allocated (allocations 4 Host.start)) /\
    forall hashed, pairs !! hashed = lastUnder hashed duplicateKeysMade.
Proof.
  assert (Hmade : evaluatesPairs Host.hashString (run 2) 0
                    (Host.insertionOrder duplicateKeys)
                    Host.start duplicateKeysMade (allocations 4 Host.start)).
  { apply (evaluatesPairs_cons _ _ _ _ _ _ _ (Integer 1 1) (allocations 1 Host.start)
             (INTEGER_OBJ, 1%Z) (Integer 2 10) (allocations 2 Host.start));
      try reflexivity.
    apply (evaluatesPairs_cons _ _ _ _ _ _ _ (Integer 3 1) (allocations 3 Host.start)
             (INTEGER_OBJ, 1%Z) (Integer 4 20) (allocations 4 Host.start));
      try reflexivity.
    constructor. }
  split; [exact Hmade|].
  exact (HashFacts.hash_literal_last_evaluated_wins
           Host.hashString Host.Inspect Host.insertionOrder 2 0 duplicateKeys
           Host.start (allocations 4 Host.start) duplicateKeysMade Hmade).
Defined.

(** C6 fails on [{1: 10, 1: 20}] when the [range] over its two entries
    yields the second one first, as Go allows: under the key 1 the Hash then
    holds 10, the value of the first entry of the source, and not 20. *)
Lemma hash_literal_order_counterexample :
  Permutation (Host.reverseOrder duplicateKeys) duplicateKeys /\
  exists p pairs s',
    runReversed 3 (Ast.NExpression (Ast.HashLiteral duplicateKeys)) 0 Host.start =
      Done (Hash p pairs) s' /\
    pairs !! (INTEGER_OBJ, 1%Z) = Some (Integer 3 1, Integer 4 10) /\
    forall q, snd <$> pairs !! (INTEGER_OBJ, 1%Z) <> Some (Integer q 20).
Proof.
  split.
  - unfold Host.reverseOrder. symmetry. apply Permutation_rev.
  - eexists _, _, _. split; [vm_compute; reflexivity|].
    split; [vm_compute; reflexivity|].
    intros q H. vm_compute in H. discriminate H.
Qed.

(** The seed program [if (10 > 1) { if (10 > 1) { return 10; } return 1; }]
    yields 10: the wrapper of [return 10] leaves both blocks and the program
    takes it off. With the same if expression as the value of a let
    statement, [let x = if (10 > 1) { ... }; 2] yields 2, and [x] holds the
    wrapper. *)
Lemma return_unwraps_at_boundary_witness :
  runsThrough (run 8) 0 [] Host.start Host.start /\
  ReturnsFrom Host.hashString Host.Inspect Host.insertionOrder 0 8 outerIf Host.start
              (ReturnValue 6 (Integer 5 10)) (allocations 6 Host.start) /\
  run 9 (Ast.NStatement (Ast.BlockStatement [outerIf])) 0 Host.start =
    Done (ReturnValue 6 (Integer 5 10)) (allocations 6 Host.start) /\
  run 9 (Ast.NProgram [outerIf]) 0 Host.start =
    Done (Integer 5 10) (allocations 6 Host.start) /\
  run 9 (Ast.NProgram
           [Ast.LetStatement "x"
              (Ast.IfExpression tenAboveOne
                 [innerIf; Ast.ReturnStatement (Ast.IntegerLiteral 1)] None);
            Ast.ExpressionStatement (Ast.IntegerLiteral 2)]) 0 Host.start =
    Done (Integer 7 2)
         (allocated (bound (allocations 6 Host.start) 0 (mkEnv ∅ None) "x"
                           (ReturnValue 6 (Integer 5 10)))).
Proof.
  assert (Hinner : ReturnsFrom Host.hashString Host.Inspect Host.insertionOrder 0 5 innerIf
                     (allocations 2 Host.start)
                     (ReturnValue 6 (Integer 5 10)) (allocations 6 Host.start)).
  { apply (ReturnsFrom_consequence _ _ _ 0 2 tenAboveOne None []
             (Ast.ReturnStatement (Ast.IntegerLiteral 10)) []
             (allocations 2 Host.start) TRUE
             (allocations 4 Host.start) (allocations 4 Host.start));
      try reflexivity; [constructor|].
    apply (ReturnsFrom_return _ _ _ 0 1 (Ast.IntegerLiteral 10)
             (allocations 4 Host.start) (Integer 5 10) (allocations 5 Host.start));
      reflexivity. }
  assert (Houter : ReturnsFrom Host.hashString Host.Inspect Host.insertionOrder 0 8 outerIf
                     Host.start
                     (ReturnValue 6 (Integer 5 10)) (allocations 6 Host.start)).
  { apply (ReturnsFrom_consequence _ _ _ 0 5 tenAboveOne None []
             innerIf [Ast.ReturnStatement (Ast.IntegerLiteral 1)]
             Host.start TRUE
             (allocations 2 Host.start) (allocations 2 Host.start));
      try reflexivity; [constructor | exact Hinner]. }
  split; [constructor|]. split; [exact Houter|].
  destruct (ControlFacts.return_unwraps_at_boundary
              Host.hashString Host.Inspect Host.insertionOrder 8 0 [] outerIf []
              Host.start Host.start (allocations 6 Host.start) 6 (Integer 5 10)
              (runsThrough_nil _ _ _) Houter) as (Hblock & Hprogram & _ & Hlet).
  split; [exact Hblock|]. split; [exact Hprogram|].
  destruct (Hlet "x"%string
              (Ast.IfExpression tenAboveOne
                 [innerIf; Ast.ReturnStatement (Ast.IntegerLiteral 1)] None)
              (mkEnv ∅ None) eq_refl eq_refl) as (_ & _ & Hnext).
  destruct (Hnext (Ast.ExpressionStatement (Ast.IntegerLiteral 2)) (Integer 7 2) _ eq_refl)
    as (_ & Hprogram' & _).
  exact Hprogram'.
Defined.

(** C7 fails on [fn() { let x = if (true) { return 1; }; 2 }()]: the
    [return] is in a block of the body, but the if expression around that
    block is the value of a let statement, which stores the wrapper in [x];
    the body goes on and the call yields 2, not 1. *)
Lemma return_under_let_counterexample :
  exists q s' cell,
    run 7 (Ast.NExpression returnUnderLet) 0 Host.start = Done (Integer q 2) s' /\
    envs s' !! 2 = Some cell /\
    store cell !! "x"%string = Some (ReturnValue 4 (Integer 3 1)) /\
    forall p s'', run 7 (Ast.NExpression returnUnderLet) 0 Host.start <>
                  Done (Integer p 1) s''.
Proof.
  eexists _, _, _. split; [vm_compute; reflexivity|].
  split; [vm_compute; reflexivity|]. split; [vm_compute; reflexivity|].
  intros p s'' H. vm_compute in H. discriminate H.
Qed.

(** In [[puts(1), foobar, puts(2)]] the unbound [foobar] ends the
    evaluation: the array literal is its Error, and only the line of
    [puts(1)] was written. *)
Lemma error_stops_expressions_witness :
  evaluatesAll (run 4) 0 [putsOf 1] Host.start [NULL] afterPutsOne /\
  run 4 (Ast.NExpression (Ast.Identifier "foobar")) 0 afterPutsOne =
    Done foobarNotFound (allocated afterPutsOne) /\
  isError foobarNotFound = true /\
  run 5 (Ast.NExpression (Ast.ArrayLiteral [putsOf 1; Ast.Identifier "foobar"; putsOf 2]))
      0 Host.start = Done foobarNotFound (allocated afterPutsOne) /\
  stdout (allocated afterPutsOne) = ["1"%string].
Proof.
  assert (Hpre : evaluatesAll (run 4) 0 [putsOf 1] Host.start [NULL] afterPutsOne).
  { apply (evaluatesAll_cons _ _ _ _ _ NULL afterPutsOne);
      [vm_compute; reflexivity | reflexivity | constructor]. }
  assert (He : run 4 (Ast.NExpression (Ast.Identifier "foobar")) 0 afterPutsOne =
               Done foobarNotFound (allocated afterPutsOne)).
  { vm_compute. reflexivity. }
  split; [exact Hpre|]. split; [exact He|]. split; [reflexivity|].
  destruct (LoopFacts.error_stops_expressions
              Host.hashString Host.Inspect Host.insertionOrder 4 0
              [putsOf 1] (Ast.Identifier "foobar") [putsOf 2]
              Host.start afterPutsOne (allocated afterPutsOne) [NULL] foobarNotFound
              Hpre He eq_refl) as (_ & Harray & _).
  split; [exact Harray | reflexivity].
Defined.

(** [push] on the Array [[1, 2, 3]] at address 4, in the memory its literal
    left: the new Array at address 5 has four elements, the one at address 4
    still has its three. *)
Lemma push_appends_witness :
  arraysBelowNext afterArrayLiteral /\
  arrays afterArrayLiteral !! 4 = Some oneTwoThree /\
  exists s',
    pushFunc [Array 4; TRUE] afterArrayLiteral = Done (Array 5) s' /\
    arrays s' !! 5 = Some (oneTwoThree ++ [TRUE])%list /\
    arrays s' !! 4 = Some oneTwoThree.
Proof.
  assert (Hs : arraysBelowNext afterArrayLiteral).
  { exact (MemoryFacts.Eval_preserves _ _ _ _ _ _ _ _ _
             MemoryFacts.start_arraysBelowNext array_literal_run). }
  assert (Ha : arrays afterArrayLiteral !! 4 = Some oneTwoThree) by reflexivity.
  split; [exact Hs|]. split; [exact Ha|].
  destruct (BuiltinFacts.push_appends 4 TRUE oneTwoThree afterArrayLiteral Hs Ha)
    as (Hpush & Hnew & Hold & _).
  eexists. split; [exact Hpush|]. split; [exact Hnew | exact Hold].
Defined.

(** [let a = 5] binds [a] in the global environment and returns nil. *)
Lemma let_returns_nil_witness :
  run 1 (Ast.NExpression (Ast.IntegerLiteral 5)) 0 Host.start =
    Done (Integer 1 5) (allocated Host.start) /\
  isError (Integer 1 5) = false /\
  envs (allocated Host.start) !! 0 = Some (mkEnv ∅ None) /\
  run 2 (Ast.NStatement (Ast.LetStatement "a" (Ast.IntegerLiteral 5))) 0 Host.start =
    Done Nil (bound (allocated Host.start) 0 (mkEnv ∅ None) "a" (Integer 1 5)) /\
  run 3 (Ast.NProgram [Ast.LetStatement "a" (Ast.IntegerLiteral 5)]) 0 Host.start =
    Done Nil (bound (allocated Host.start) 0 (mkEnv ∅ None) "a" (Integer 1 5)).
Proof.
  assert (Hcell : envs (allocated Host.start) !! 0 = Some (mkEnv ∅ None)) by reflexivity.
  split; [reflexivity|]. split; [reflexivity|]. split; [exact Hcell|].
  destruct (ControlFacts.let_returns_nil
              Host.hashString Host.Inspect Host.insertionOrder 1 "a"
              (Ast.IntegerLiteral 5) 0 Host.start (allocated Host.start) (Integer 1 5)
              (mkEnv ∅ None) eq_refl eq_refl Hcell) as (Hlet & _ & _ & _ & Hlast).
  split; [exact Hlet|].
  destruct (Hlast [] Host.start (runsThrough_nil _ _ _)) as (Hprogram & _).
  exact Hprogram.
Defined.

(** With its semicolon, [let x = 5;] parses. *)
Example let_with_semicolon_parses :
  exists p,
    Parser.ParseProgram Host.ParseInt Host.Quote 3 (Parser.New letWithSemicolon) =
    Done [Ast.LetStatement "x" (Ast.IntegerLiteral 5)] p.
Proof. eexists. vm_compute. reflexivity. Qed.

(** [return 5] and [let x = 5], with the end of the input where the
    semicolon should be, never finish parsing. *)
Lemma missing_semicolon_never_returns_witness :
  Streams.noSemicolon (Parser.New returnWithoutSemicolon) /\
  Streams.noSemicolon (Parser.New letWithoutSemicolon) /\
  (forall fuel,
     Parser.ParseProgram Host.ParseInt Host.Quote fuel (Parser.New returnWithoutSemicolon) =
     OutOfFuel) /\
  (forall fuel,
     Parser.ParseProgram Host.ParseInt Host.Quote fuel (Parser.New letWithoutSemicolon) =
     OutOfFuel).
Proof.
  assert (Hreturn : Streams.noSemicolon (Parser.New returnWithoutSemicolon)).
  { repeat split; try discriminate. constructor. }
  assert (Hlet : Streams.noSemicolon (Parser.New letWithoutSemicolon)).
  { repeat split; try discriminate. repeat constructor; discriminate. }
  split; [exact Hreturn|]. split; [exact Hlet|]. split; intros fuel.
  - apply (ParserFacts.missing_semicolon_never_returns Host.ParseInt Host.Quote fuel
             (Parser.New returnWithoutSemicolon) Hreturn).
    left. reflexivity.
  - apply (ParserFacts.missing_semicolon_never_returns Host.ParseInt Host.Quote fuel
             (Parser.New letWithoutSemicolon) Hlet).
    right. repeat split; reflexivity.
Defined.

End Instances.

(** * Prefix operators and truthiness *)

Module PrefixFacts.

Import Go Object Evaluator Runs Shapes.

(** X1: only NULL and FALSE are falsy (0, the empty string and even the nil
    of a let statement are truthy), [!x] is the Boolean opposite of the
    truthiness of [x], and [!!x] is that truthiness. *)
Theorem bang_negates_truthiness (x : Object) :
  (isTruthy x = false <-> x = NULL \/ x = FALSE) /\
  evalBangOperatorExpression x = nativeBoolToBooleanObject (negb (isTruthy x)) /\
  evalBangOperatorExpression (evalBangOperatorExpression x) =
    nativeBoolToBooleanObject (isTruthy x).
Proof.
  split; [|split].
  - split.
    + destruct x as [| | [|] | | | | | | | |]; simpl; intros H; try discriminate; auto.
    + intros [-> | ->]; reflexivity.
  - destruct x as [| | [|] | | | | | | | |]; reflexivity.
  - destruct x as [| | [|] | | | | | | | |]; reflexivity.
Qed.

Lemma wrap64_int64 (z : Z) : int64 (wrap64 z).
Proof.
  unfold int64, wrap64.
  pose proof (Z.mod_pos_bound (z + 2 ^ 63) (2 ^ 64) ltac:(lia)). lia.
Qed.

Lemma wrap64_exact (z : Z) : int64 z -> wrap64 z = z.
Proof.
  unfold int64, wrap64. intros H. rewrite Z.mod_small by lia. lia.
Qed.

Lemma wrap64_congruent (z : Z) : (wrap64 z - z) mod 2 ^ 64 = 0.
Proof.
  unfold wrap64. rewrite (Z.mod_eq (z + 2 ^ 63)) by lia.
  set (k := (z + 2 ^ 63) / 2 ^ 64).
  replace (z + 2 ^ 63 - 2 ^ 64 * k - 2 ^ 63 - z) with (- k * 2 ^ 64) by ring.
  apply Z.mod_mul. lia.
Qed.

(** X2: [-x] on an Integer yields a new Integer with the negated value,
    where the most negative int64 is its own negation, and negating twice
    gives the value back; on any other object it yields the Error
    [unknown operator: -<TYPE>]. On nil, which is no object but what a let
    statement yields, it yields nothing: it panics. *)
Theorem minus_prefix (x : Object) (s : State) :
  (forall t : ObjectType,
     TypeOf x = Some t ->
     (forall p v, x = Integer p v -> int64 v ->
        exists v',
          evalMinusPrefixOperatorExpression x s = Done (Integer (next s) v') (allocated s) /\
          (v = - 2 ^ 63 -> v' = v) /\ (v <> - 2 ^ 63 -> v' = - v) /\
          evalMinusPrefixOperatorExpression (Integer (next s) v') (allocated s) =
            Done (Integer (S (next s)) v) (allocated (allocated s))) /\
     (t <> INTEGER_OBJ ->
        evalMinusPrefixOperatorExpression x s =
        Done (Error (next s) ("unknown operator: -" ++ t)) (allocated s))) /\
  (x = Nil -> evalMinusPrefixOperatorExpression x s = Panic nilDereference).
Proof.
  split; [|intros ->; reflexivity].
  intros t Ht. split.
  - intros p v -> Hv. exists (wrap64 (v * -1)).
    assert (Hneg : v <> - 2 ^ 63 -> wrap64 (v * -1) = - v).
    { intros Hne. rewrite wrap64_exact; [lia|]. unfold int64 in *. lia. }
    assert (Hmin : v = - 2 ^ 63 -> wrap64 (v * -1) = v).
    { intros ->. reflexivity. }
    split; [reflexivity|]. split; [exact Hmin|]. split; [exact Hneg|].
    unfold evalMinusPrefixOperatorExpression, bind, typeOf, ret, fresh. simpl.
    f_equal. f_equal.
    destruct (Z.eq_dec v (- 2 ^ 63)) as [Heq | Hne].
    + rewrite (Hmin Heq). subst v. reflexivity.
    + rewrite (Hneg Hne). rewrite wrap64_exact; [lia|]. unfold int64 in *. lia.
  - intros Hne. unfold evalMinusPrefixOperatorExpression, bind, typeOf. rewrite Ht.
    simpl. apply String.eqb_neq in Hne. rewrite Hne. reflexivity.
Qed.

End PrefixFacts.

(** * Integer operators *)

Module IntegerFacts.

Import Go Object Evaluator Runs Shapes PrefixFacts.

Lemma integer_infix_run (op : string) (p q : ptr) (a b : Z) (s : State) :
  evalInfixExpression op (Integer p a) (Integer q b) s =
  evalIntegerInfixExpression op (Integer p a) (Integer q b) s.
Proof. reflexivity. Qed.

(** X3: [+], [-] and [*] on two Integers yield a new Integer whose value is
    the int64 that is congruent to the exact result modulo 2^64: the exact
    result itself whenever that is an int64. *)
Theorem integer_arithmetic_wraps (op : string) (f : Z -> Z -> Z) (p q : ptr) (a b : Z)
    (s : State) :
  (op = "+" /\ f = Z.add) \/ (op = "-" /\ f = Z.sub) \/ (op = "*" /\ f = Z.mul) ->
  exists v,
    evalInfixExpression op (Integer p a) (Integer q b) s =
      Done (Integer (next s) v) (allocated s) /\
    int64 v /\
    (v - f a b) mod 2 ^ 64 = 0 /\
    (int64 (f a b) -> v = f a b).
Proof.
  intros Hop. exists (wrap64 (f a b)).
  split; [|split; [apply wrap64_int64 | split; [apply wrap64_congruent | apply wrap64_exact]]].
  rewrite integer_infix_run.
  destruct Hop as [[-> ->] | [[-> ->] | [-> ->]]]; reflexivity.
Qed.

(** X4: [/] on two Integers with a divisor other than 0 yields the quotient
    truncated toward zero, so that the remainder has the sign of the
    dividend and is smaller than the divisor; only the most negative int64
    divided by -1 overflows, and yields itself. *)
Theorem integer_division_truncates (p q : ptr) (a b : Z) (s : State) :
  int64 a -> int64 b -> b <> 0 ->
  exists v,
    evalInfixExpression "/" (Integer p a) (Integer q b) s =
      Done (Integer (next s) v) (allocated s) /\
    int64 v /\
    (a = - 2 ^ 63 /\ b = -1 -> v = a) /\
    (~ (a = - 2 ^ 63 /\ b = -1) ->
       v = Z.quot a b /\ a = b * v + Z.rem a b /\
       Z.abs (Z.rem a b) < Z.abs b /\ 0 <= Z.rem a b * a).
Proof.
  intros Ha Hb Hb0. exists (wrap64 (Z.quot a b)).
  split; [|split; [apply wrap64_int64 | split]].
  - rewrite integer_infix_run. unfold evalIntegerInfixExpression.
    apply Z.eqb_neq in Hb0. simpl. rewrite Hb0. reflexivity.
  - intros [-> ->]. reflexivity.
  - intros Hno.
    assert (Hq : int64 (Z.quot a b)).
    { unfold int64 in *.
      assert (Habs : Z.abs (Z.quot a b) <= Z.abs a).
      { rewrite <- Z.quot_abs by exact Hb0.
        apply Z.quot_le_upper_bound; [lia|]. nia. }
      destruct (Z.eq_dec a (- 2 ^ 63)) as [-> | Hne]; [|lia].
      assert (b <> -1) by tauto.
      destruct (Z.eq_dec b 1) as [-> | Hb1]; [rewrite Z.quot_1_r; lia|].
      assert (Z.abs (Z.quot (- 2 ^ 63) b) <= 2 ^ 62).
      { rewrite <- Z.quot_abs by exact Hb0.
        apply Z.quot_le_upper_bound; [lia|].
        change (Z.abs (- 2 ^ 63)) with (2 * 2 ^ 62). nia. }
      lia. }
    rewrite (wrap64_exact _ Hq).
    split; [reflexivity|].
    split; [apply Z.quot_rem'|].
    split; [apply Z.rem_bound_abs; exact Hb0|].
    pose proof (Z.rem_sign_mul a b Hb0). lia.
Qed.

(** X5: the comparisons of two Integers go by their values, whatever the
    two objects are: [==] holds exactly for equal values, [!=] is its
    opposite and [>] is [<] with the operands exchanged; none of them
    allocates. *)
Theorem integer_comparisons_by_value (p q : ptr) (a b : Z) (s : State) :
  evalInfixExpression "==" (Integer p a) (Integer q b) s =
    Done (nativeBoolToBooleanObject (a =? b)) s /\
  evalInfixExpression "!=" (Integer p a) (Integer q b) s =
    Done (nativeBoolToBooleanObject (negb (a =? b))) s /\
  evalInfixExpression "<" (Integer p a) (Integer q b) s =
    Done (nativeBoolToBooleanObject (a <? b)) s /\
  evalInfixExpression ">" (Integer p a) (Integer q b) s =
    evalInfixExpression "<" (Integer q b) (Integer p a) s.
Proof.
  repeat split; try reflexivity.
  rewrite !integer_infix_run. unfold evalIntegerInfixExpression. simpl.
  rewrite Z.gtb_ltb. reflexivity.
Qed.

End IntegerFacts.

(** * Index expressions *)

Module IndexFacts.

Import Go Object Evaluator Runs Shapes HashFacts.

Section Index.

Variable hashString : string -> Z.
Variable rangeOrder :
  list (Ast.Expression * Ast.Expression) -> list (Ast.Expression * Ast.Expression).

(** X6: indexing an Array with an Integer never fails: within the bounds it
    yields the element at that position, and below 0 or from the length on
    it yields NULL; the memory is left as it was. *)
Theorem array_index_in_bounds_or_null (a p : ptr) (els : list Object) (idx : Z) (s : State) :
  arrays s !! a = Some els ->
  (0 <= idx < Z.of_nat (length els) ->
     exists el, els !! Z.to_nat idx = Some el /\
       evalIndexExpression hashString (Array a) (Integer p idx) s = Done el s) /\
  (idx < 0 \/ Z.of_nat (length els) <= idx ->
     evalIndexExpression hashString (Array a) (Integer p idx) s = Done NULL s).
Proof.
  intros Ha.
  assert (Hrun : evalIndexExpression hashString (Array a) (Integer p idx) s =
                 evalArrayIndexExpression (Array a) (Integer p idx) s) by reflexivity.
  rewrite Hrun. unfold evalArrayIndexExpression, bind, Elements. rewrite Ha. split.
  - intros Hin.
    destruct (lookup_lt_is_Some_2 els (Z.to_nat idx) ltac:(lia)) as [el Hel].
    exists el. split; [exact Hel|].
    replace (idx <? 0) with false by (symmetry; apply Z.ltb_ge; lia).
    replace (idx >? Z.of_nat (length els) - 1) with false
      by (symmetry; rewrite Z.gtb_ltb; apply Z.ltb_ge; lia).
    simpl. rewrite Hel. reflexivity.
  - intros [Hneg | Hbig].
    + replace (idx <? 0) with true by (symmetry; apply Z.ltb_lt; lia). reflexivity.
    + replace (idx >? Z.of_nat (length els) - 1) with true
        by (symmetry; rewrite Z.gtb_ltb; apply Z.ltb_lt; lia).
      rewrite orb_true_r. reflexivity.
Qed.

(** X7: the Hash that a hash literal makes gives back, under an index with
    the hash key of some of its entries, the value of the entry evaluated
    last under that hash key, and NULL under an index with any other hash
    key; the lookup leaves the memory as it was. *)
Theorem hash_index_finds_last_entry (ev : Evaluate) (env : ptr)
    (Pairs : list (Ast.Expression * Ast.Expression)) (s s' : State)
    (made : list (HashKey * (Object * Object))) (index : Object) (hashed : HashKey) :
  evaluatesPairs hashString ev env (rangeOrder Pairs) s made s' ->
  HashKeyOf hashString index = Some hashed ->
  exists p pairs,
    evalHashLiteral hashString rangeOrder ev Pairs env s =
      Done (Hash p pairs) (allocated s') /\
    forall s0,
      evalIndexExpression hashString (Hash p pairs) index s0 =
      Done (match lastUnder hashed made with
            | Some hashPair => snd hashPair
            | None => NULL
            end) s0.
Proof.
  intros Hmade Hkey. exists (next s'), (stored ∅ made).
  split; [apply (hash_loop _ _ _ _ _ _ _ Hmade)|].
  intros s0.
  assert (Hrun : evalIndexExpression hashString (Hash (next s') (stored ∅ made)) index s0 =
                 evalHashIndexExpression hashString (Hash (next s') (stored ∅ made)) index s0)
    by reflexivity.
  rewrite Hrun. unfold evalHashIndexExpression. rewrite Hkey.
  rewrite stored_lookup, lookup_empty.
  destruct (lastUnder hashed made); reflexivity.
Qed.

(** X8: on two objects, an index expression on anything but an Array with
    an Integer or a Hash yields the Error
    [index operator not supported: <L>[<I>]], and a Hash indexed with an
    object that is not hashable yields the Error [unusable as hash key: <I>].
    When the left side or the index is nil, which is what a let statement
    yields, the index expression yields nothing: it panics on the nil. *)
Theorem index_errors (left index : Object) (s : State) :
  (forall lt it : ObjectType,
     TypeOf left = Some lt ->
     TypeOf index = Some it ->
     (lt <> HASH_OBJ -> (lt <> ARRAY_OBJ \/ it <> INTEGER_OBJ) ->
        evalIndexExpression hashString left index s =
        Done (Error (next s) ("index operator not supported: " ++ lt ++ "[" ++ it ++ "]"))
             (allocated s)) /\
     (lt = HASH_OBJ -> HashKeyOf hashString index = None ->
        evalIndexExpression hashString left index s =
        Done (Error (next s) ("unusable as hash key: " ++ it)) (allocated s))) /\
  (left = Nil \/ index = Nil ->
     evalIndexExpression hashString left index s = Panic nilDereference).
Proof.
  split.
  - intros lt it Hl Hi.
    assert (Hrun : forall b,
              String.eqb lt ARRAY_OBJ && String.eqb it INTEGER_OBJ = b ->
              typesAre ARRAY_OBJ INTEGER_OBJ left index s = Done b s).
    { intros b <-. unfold typesAre, bind, typeOf. rewrite Hl. simpl.
      destruct (String.eqb lt ARRAY_OBJ); simpl; [rewrite Hi|]; reflexivity. }
    split.
    + intros Hhash Hnot. unfold evalIndexExpression, bind.
      rewrite (Hrun false).
      * unfold typeOf. rewrite Hl, Hi. simpl.
        apply String.eqb_neq in Hhash. rewrite Hhash. reflexivity.
      * destruct Hnot as [H | H]; apply String.eqb_neq in H; rewrite H;
          [reflexivity | apply andb_false_r].
    + intros -> Hkey. destruct left; simpl in Hl; try discriminate.
      unfold evalIndexExpression, bind. rewrite (Hrun false) by reflexivity.
      unfold typeOf. simpl. unfold evalHashIndexExpression, bind. rewrite Hkey.
      unfold typeOf. rewrite Hi. reflexivity.
  - intros [-> | ->]; [reflexivity|]. destruct left; reflexivity.
Qed.

End Index.

End IndexFacts.

(** * The builtins *)

Module BuiltinMoreFacts.

Import Go Object Evaluator Runs Shapes BuiltinFacts.

Local Open Scope list_scope.

Lemma pushFunc_run (a : ptr) (v : Object) (els : list Object) (s : State) :
  arrays s !! a = Some els ->
  pushFunc [Array a; v] s = Done (Array (next s)) (withArray s (els ++ [v])).
Proof.
  intros Ha. unfold pushFunc, bind, typeOf, ret. simpl.
  unfold Elements at 1. rewrite Ha.
  unfold make, copy, setIndex, bind, fresh, writeElements, Elements, ret. simpl.
  rewrite lookup_insert_eq. simpl. rewrite lookup_insert_eq.
  assert (Hlen : (length els <?
                  length (take (length (replicate (length els + 1) Nil)) els ++
                          drop (length els) (replicate (length els + 1) Nil)))%nat = true).
  { apply Nat.ltb_lt. rewrite length_app, length_take, length_drop, length_replicate. lia. }
  rewrite Hlen. simpl. rewrite push_elements.
  unfold withArray. rewrite !insert_insert_eq. reflexivity.
Qed.

Lemma restFunc_run (a : ptr) (el : Object) (tl : list Object) (s : State) :
  arrays s !! a = Some (el :: tl) ->
  restFunc [Array a] s = Done (Array (next s)) (withArray s tl).
Proof.
  intros Ha. unfold restFunc, withArrayArgument, bind, typeOf, ret. simpl.
  unfold Elements at 1. rewrite Ha. simpl.
  unfold make, copy, bind, fresh, writeElements, Elements, ret. simpl.
  rewrite lookup_insert_eq. simpl.
  rewrite Nat.sub_0_r, length_replicate, !drop_0, !(take_ge tl (length tl)) by lia.
  rewrite drop_ge by (rewrite length_replicate; lia).
  rewrite app_nil_r. unfold withArray. rewrite insert_insert_eq. reflexivity.
Qed.

Lemma lenFunc_array (a : ptr) (els : list Object) (s : State) :
  arrays s !! a = Some els ->
  lenFunc [Array a] s = Done (Integer (next s) (Z.of_nat (length els))) (allocated s).
Proof. intros Ha. unfold lenFunc, bind, Elements. rewrite Ha. reflexivity. Qed.

(** X9: [rest] on a non-empty Array returns a new Array, at a fresh
    address, with all the elements but the first, and leaves the elements
    of its argument as they were; on the empty Array it returns NULL and
    allocates nothing. *)
Theorem rest_drops_first (a : ptr) (els : list Object) (s : State) :
  arraysBelowNext s ->
  arrays s !! a = Some els ->
  (els = [] -> restFunc [Array a] s = Done NULL s) /\
  (forall el tl, els = el :: tl ->
     restFunc [Array a] s = Done (Array (next s)) (withArray s tl) /\
     arrays (withArray s tl) !! next s = Some tl /\
     arrays (withArray s tl) !! a = Some els /\
     same (Array (next s)) (Array a) = false).
Proof.
  intros Hs Ha.
  assert (Hlt : (a < next s)%nat) by (apply Hs; eexists; exact Ha).
  split.
  - intros ->. unfold restFunc, withArrayArgument, bind, typeOf, ret. simpl.
    unfold Elements. rewrite Ha. reflexivity.
  - intros el tl ->. split; [exact (restFunc_run a el tl s Ha)|].
    split; [apply lookup_insert_eq|]. split.
    + simpl. rewrite lookup_insert_ne by lia. exact Ha.
    + simpl. apply Nat.eqb_neq. lia.
Qed.

(** X10: [len] counts the elements: after [push] the new Array is one
    longer than its argument, after [rest] on a non-empty Array one
    shorter, and the argument has the length it had. *)
Theorem len_after_push_and_rest (a : ptr) (v : Object) (els : list Object) (s : State) :
  arraysBelowNext s ->
  arrays s !! a = Some els ->
  (exists arr s1,
     pushFunc [Array a; v] s = Done arr s1 /\
     lenFunc [arr] s1 =
       Done (Integer (next s1) (Z.of_nat (length els) + 1)) (allocated s1) /\
     lenFunc [Array a] s1 =
       Done (Integer (next s1) (Z.of_nat (length els))) (allocated s1)) /\
  (els <> [] ->
   exists arr s1,
     restFunc [Array a] s = Done arr s1 /\
     lenFunc [arr] s1 =
       Done (Integer (next s1) (Z.of_nat (length els) - 1)) (allocated s1) /\
     lenFunc [Array a] s1 =
       Done (Integer (next s1) (Z.of_nat (length els))) (allocated s1)).
Proof.
  intros Hs Ha.
  assert (Hlt : (a < next s)%nat) by (apply Hs; eexists; exact Ha).
  assert (Hold : forall new, arrays (withArray s new) !! a = Some els).
  { intros new. simpl. rewrite lookup_insert_ne by lia. exact Ha. }
  split.
  - exists (Array (next s)), (withArray s (els ++ [v])).
    split; [apply pushFunc_run; exact Ha|]. split.
    + rewrite (lenFunc_array _ (els ++ [v])) by apply lookup_insert_eq.
      rewrite length_app. simpl. do 3 f_equal. lia.
    + apply lenFunc_array, Hold.
  - intros Hne. destruct els as [|el tl]; [congruence|].
    exists (Array (next s)), (withArray s tl).
    split; [exact (restFunc_run a el tl s Ha)|]. split.
    + rewrite (lenFunc_array _ tl) by apply lookup_insert_eq.
      simpl length. do 3 f_equal. lia.
    + apply lenFunc_array, Hold.
Qed.

Section Reading.

Variable hashString : string -> Z.

(** X11: [first] and [last] read what the index expressions [a[0]] and
    [a[len(a) - 1]] read, NULL on the empty Array included; and after
    [push(a, v)] the last element of the new Array is [v]. *)
Theorem first_and_last_are_indexing (a p q : ptr) (v : Object) (els : list Object)
    (s : State) :
  arrays s !! a = Some els ->
  firstFunc [Array a] s = evalIndexExpression hashString (Array a) (Integer p 0) s /\
  lastFunc [Array a] s =
    evalIndexExpression hashString (Array a)
                        (Integer q (Z.of_nat (length els) - 1)) s /\
  (els = [] -> firstFunc [Array a] s = Done NULL s /\ lastFunc [Array a] s = Done NULL s) /\
  exists arr s1,
    pushFunc [Array a; v] s = Done arr s1 /\ lastFunc [arr] s1 = Done v s1.
Proof.
  intros Ha.
  assert (Hfirst : firstFunc [Array a] s = Done (default NULL (head els)) s).
  { unfold firstFunc, withArrayArgument, bind, typeOf, ret. simpl.
    unfold Elements. rewrite Ha. destruct els; reflexivity. }
  assert (Hlast : forall b l t,
            arrays t !! b = Some l ->
            lastFunc [Array b] t = Done (default NULL (last l)) t).
  { intros b l t Hb. unfold lastFunc, withArrayArgument, bind, typeOf, ret. simpl.
    unfold Elements. rewrite Hb.
    destruct l as [|x l]; [reflexivity|].
    change (0 <? length (x :: l))%nat with true. cbv iota.
    replace (length (x :: l) - 1)%nat with (Init.Nat.pred (length (x :: l)))
      by (simpl; lia).
    rewrite <- last_lookup. destruct (last (x :: l)) eqn:E; [reflexivity|].
    apply last_None in E. discriminate E. }
  assert (Hidx : forall r i,
            evalIndexExpression hashString (Array a) (Integer r i) s =
            Done (if (i <? 0) || (i >? Z.of_nat (length els) - 1) then NULL
                  else default NULL (els !! Z.to_nat i)) s).
  { intros r i.
    change (evalIndexExpression hashString (Array a) (Integer r i) s)
      with (evalArrayIndexExpression (Array a) (Integer r i) s).
    unfold evalArrayIndexExpression, bind, Elements. rewrite Ha.
    destruct ((i <? 0) || (i >? Z.of_nat (length els) - 1)) eqn:E; [reflexivity|].
    apply orb_false_iff in E. destruct E as [E1 E2].
    apply Z.ltb_ge in E1. rewrite Z.gtb_ltb in E2. apply Z.ltb_ge in E2.
    destruct (lookup_lt_is_Some_2 els (Z.to_nat i) ltac:(lia)) as [el Hel].
    rewrite Hel. reflexivity. }
  split; [|split; [|split]].
  - rewrite Hfirst, Hidx. destruct els as [|x l]; [reflexivity|].
    replace (0 >? Z.of_nat (length (x :: l)) - 1) with false
      by (symmetry; rewrite Z.gtb_ltb; apply Z.ltb_ge; simpl length; lia).
    reflexivity.
  - rewrite (Hlast a els s Ha), Hidx.
    destruct els as [|x l]; [reflexivity|].
    replace (Z.of_nat (length (x :: l)) - 1 <? 0) with false
      by (symmetry; apply Z.ltb_ge; simpl length; lia).
    replace (Z.of_nat (length (x :: l)) - 1 >? Z.of_nat (length (x :: l)) - 1) with false
      by (symmetry; rewrite Z.gtb_ltb; apply Z.ltb_ge; lia).
    simpl orb. cbv iota. rewrite last_lookup. do 3 f_equal. simpl length. lia.
  - intros ->. rewrite Hfirst, (Hlast a [] s Ha). split; reflexivity.
  - exists (Array (next s)), (withArray s (els ++ [v])).
    split; [apply pushFunc_run; exact Ha|].
    rewrite (Hlast _ (els ++ [v])) by apply lookup_insert_eq.
    rewrite last_snoc. reflexivity.
Qed.

End Reading.

Section Calls.

Variable Inspect : State -> Object -> string.

(** X12: every builtin but [puts] checks the number of its arguments first:
    with any other number than it wants it yields the Error
    [wrong number of arguments. got=N, want=M], whatever the arguments are. *)
Theorem builtin_wrong_number_of_arguments (fn : BuiltinFunction) (args : list Object)
    (s : State) :
  fn <> putsFn ->
  length args <> wanted fn ->
  callBuiltin Inspect fn args s =
  Done (Error (next s)
          ("wrong number of arguments. got=" ++ pretty (length args) ++ ", want=" ++
           pretty (wanted fn))%string)
       (allocated s).
Proof.
  intros Hputs Hlen.
  destruct fn; try congruence; simpl in Hlen;
    destruct args as [|x [|y [|z args]]]; simpl in Hlen; try lia; reflexivity.
Qed.

(** X13: with the right number of arguments, [first], [last], [rest] and
    [push] yield the Error [argument to `NAME` must be ARRAY, got <TYPE>]
    when the first argument is an object that is no Array, and [len] yields
    [argument to `len` not supported, got <TYPE>] when its argument is an
    object that is neither a String nor an Array. When that argument is nil,
    which is what a let statement yields, the five of them panic on it. *)
Theorem builtin_wrong_argument_type (fn : BuiltinFunction) (x : Object)
    (more : list Object) (s : State) :
  length (x :: more) = wanted fn ->
  (forall t : ObjectType,
     TypeOf x = Some t ->
     t <> ARRAY_OBJ ->
     (fn = firstFn \/ fn = lastFn \/ fn = restFn \/ fn = pushFn ->
        callBuiltin Inspect fn (x :: more) s =
        Done (Error (next s)
                ("argument to `" ++ nameOf fn ++ "` must be ARRAY, got " ++ t)%string)
             (allocated s)) /\
     (fn = lenFn -> t <> STRING_OBJ ->
        callBuiltin Inspect fn (x :: more) s =
        Done (Error (next s) ("argument to `len` not supported, got " ++ t)%string)
             (allocated s))) /\
  (x = Nil -> fn <> putsFn ->
     callBuiltin Inspect fn (x :: more) s = Panic nilDereference).
Proof.
  intros Hlen. split.
  - intros t Ht Harr. apply String.eqb_neq in Harr. split.
    + intros [-> | [-> | [-> | ->]]]; simpl in Hlen;
        destruct more as [|y [|z more]]; simpl in Hlen; try lia; simpl;
        unfold firstFunc, lastFunc, restFunc, pushFunc, withArrayArgument, bind, typeOf;
        rewrite Ht; simpl; rewrite Harr; reflexivity.
    + intros -> Hstr. destruct more; simpl in Hlen; [|lia]. simpl.
      destruct x; simpl in Ht; try discriminate; inversion Ht; subst;
        try reflexivity; try congruence; discriminate Harr.
  - intros -> Hputs.
    destruct fn; try congruence; simpl in Hlen;
      destruct more as [|y [|z more]]; simpl in Hlen; try lia; reflexivity.
Qed.

(** X14: when none of its arguments is nil, [puts] writes one line for each
    of them, after the lines that were written before, each the display
    form of the argument at its position (what [Inspect] of the object
    package returns for it; the package is not among the sources and
    [Inspect] is taken as it returns); it returns NULL and leaves the rest
    of the memory as it was. When an argument is nil, which is what a let
    statement yields, [puts] returns nothing: it panics on the nil. *)
Theorem puts_writes_a_line_per_argument (args : list Object) (s : State) :
  (Forall (fun arg => arg <> Nil) args ->
   exists lines,
     putsFunc Inspect args s =
       Done NULL (mkState (envs s) (arrays s) (next s) (stdout s ++ lines)) /\
     Forall2 (fun line arg =>
                exists s0, envs s0 = envs s /\ arrays s0 = arrays s /\ next s0 = next s /\
                           line = Inspect s0 arg)
             lines args) /\
  (In Nil args -> putsFunc Inspect args s = Panic nilDereference).
Proof.
  split.
  - intros Hargs. revert s.
    induction Hargs as [|arg args Harg _ IH]; intros s.
    + exists []. rewrite app_nil_r. destruct s. split; [reflexivity | constructor].
    + destruct (IH (mkState (envs s) (arrays s) (next s) (stdout s ++ [Inspect s arg])))
        as (lines & Hrun & Hlines).
      exists (Inspect s arg :: lines). split.
      * simpl. unfold bind.
        assert (Hprint : println Inspect arg s =
                  Done tt (mkState (envs s) (arrays s) (next s) (stdout s ++ [Inspect s arg]))).
        { destruct arg; try reflexivity. congruence. }
        rewrite Hprint, Hrun. simpl. rewrite <- app_assoc. reflexivity.
      * constructor; [exists s; auto | exact Hlines].
  - revert s. induction args as [|arg args IH]; intros s Hin; [destruct Hin|].
    simpl. unfold bind. destruct arg; try reflexivity;
      (destruct Hin as [Hnil | Hin]; [discriminate Hnil|]);
      exact (IH _ Hin).
Qed.

End Calls.

End BuiltinMoreFacts.

(** * Environments *)

Module EnvFacts.

Import Go Object Evaluator Runs Shapes.

Local Open Scope nat_scope.

(** A lookup leaves the memory as it is. *)
Lemma Get_reads (fuel : nat) :
  forall e name s r s', Get fuel e name s = Done r s' -> s' = s.
Proof.
  induction fuel as [|fuel IH]; intros e name s r s' H; simpl in H; [discriminate|].
  destruct (envs s !! e) as [cell|]; [|discriminate].
  destruct (store cell !! name), (outer cell); try (inversion H; reflexivity).
  exact (IH _ _ _ _ _ H).
Qed.

(** Lookups go by the cells they pass: two memories that hold the same
    lookups of [name] in every cell, and the same outer pointers, answer
    alike. *)
Lemma Get_alike (name : string) (s t : State) :
  (forall e, match envs s !! e, envs t !! e with
             | Some c, Some d => store c !! name = store d !! name /\ outer c = outer d
             | None, None => True
             | _, _ => False
             end) ->
  forall fuel e, answer (Get fuel e name s) = answer (Get fuel e name t).
Proof.
  intros Hcells fuel. induction fuel as [|fuel IH]; intros e; [reflexivity|].
  simpl. specialize (Hcells e).
  destruct (envs s !! e) as [c|], (envs t !! e) as [d|]; try contradiction; [|reflexivity].
  destruct Hcells as [-> ->].
  destruct (store d !! name), (outer d); try reflexivity. apply IH.
Qed.

(** X15: after [Set(name, val)] on an environment, [Get(name)] on it finds
    [val]; the lookups of every other name, from every environment, answer
    as before; and nothing else in memory has changed: the Arrays, the
    addresses handed out, the output and every other environment are as
    they were. *)
Theorem set_then_get (e : ptr) (name : string) (val : Object) (s : State) :
  is_Some (envs s !! e) ->
  exists s',
    Set_ e name val s = Done val s' /\
    (forall fuel, Get (S fuel) e name s' = Done (val, true) s') /\
    (forall fuel x name', name' <> name ->
       answer (Get fuel x name' s') = answer (Get fuel x name' s)) /\
    arrays s' = arrays s /\ next s' = next s /\ stdout s' = stdout s /\
    (forall x : ptr, x <> e -> envs s' !! x = envs s !! x).
Proof.
  intros [cell Hcell]. eexists. split; [unfold Set_; rewrite Hcell; reflexivity|].
  split; [|split].
  - intros fuel. simpl. rewrite lookup_insert_eq. simpl. rewrite lookup_insert_eq.
    reflexivity.
  - intros fuel x name' Hne. apply Get_alike. intros y. simpl.
    destruct (decide (e = y)) as [<- | Hy].
    + rewrite lookup_insert_eq, Hcell. simpl. rewrite lookup_insert_ne by congruence. auto.
    + rewrite lookup_insert_ne by exact Hy. destruct (envs s !! y); auto.
  - repeat (split; [reflexivity|]).
    intros x Hx. simpl. apply lookup_insert_ne. congruence.
Qed.

(** Lookups from the environments that were there are not changed by what
    happens to cells at addresses handed out later. *)
Lemma Get_frame (name : string) (s t : State) :
  envsClosed s ->
  (forall e : ptr, e < next s -> envs t !! e = envs s !! e) ->
  forall fuel (e : ptr),
    e < next s -> answer (Get fuel e name t) = answer (Get fuel e name s).
Proof.
  intros Hclosed Hsame fuel. induction fuel as [|fuel IH]; intros e He; [reflexivity|].
  simpl. rewrite (Hsame e He).
  destruct (envs s !! e) as [cell|] eqn:Hcell; [|reflexivity].
  destruct (store cell !! name); [reflexivity|].
  destruct (outer cell) as [o|] eqn:Ho; [|reflexivity].
  apply IH. exact (proj2 (Hclosed e cell Hcell) o Ho).
Qed.

(** X16: in an environment enclosed in [outer], a name that is set shadows
    the outer binding for lookups from inside, every other name is looked up
    in [outer] as before, and the lookups from the environments that were
    there, of that name too, answer as before. *)
Theorem enclosed_environment_shadows (outer : ptr) (name : string) (val : Object)
    (s : State) :
  envsClosed s ->
  outer < next s ->
  exists e s1 s2,
    NewClosedEnv outer s = Done e s1 /\
    Set_ e name val s1 = Done val s2 /\
    (forall fuel, Get (S fuel) e name s2 = Done (val, true) s2) /\
    (forall fuel name', name' <> name ->
       answer (Get (S fuel) e name' s2) = answer (Get fuel outer name' s)) /\
    (forall fuel (x : ptr) name', x < next s ->
       answer (Get fuel x name' s2) = answer (Get fuel x name' s)).
Proof.
  intros Hclosed Houter.
  exists (next s). eexists. eexists.
  split; [reflexivity|].
  split; [unfold Set_; simpl; rewrite lookup_insert_eq; reflexivity|].
  assert (Hframe : forall fuel (x : ptr) name', x < next s ->
            answer (Get fuel x name'
                      (mkState (<[next s := mkEnv (<[name := val]> ∅) (Some outer)]>
                                  (<[next s := mkEnv ∅ (Some outer)]> (envs s)))
                               (arrays s) (S (next s)) (stdout s))) =
            answer (Get fuel x name' s)).
  { intros fuel x name' Hx. apply Get_frame; [exact Hclosed | | exact Hx].
    intros y Hy. simpl. rewrite !lookup_insert_ne by lia. reflexivity. }
  split; [|split].
  - intros fuel. simpl. rewrite lookup_insert_eq. simpl. rewrite lookup_insert_eq.
    reflexivity.
  - intros fuel name' Hne. simpl. rewrite lookup_insert_eq. simpl.
    rewrite lookup_insert_ne by congruence. rewrite lookup_empty.
    apply Hframe. exact Houter.
  - exact Hframe.
Qed.

Lemma boundStore_other (params : list string) :
  forall (args : list Object) (store : gmap string Object) (x : string),
    x ∉ params -> boundStore store params args !! x = store !! x.
Proof.
  induction params as [|param params IH]; intros args store x Hx; [reflexivity|].
  destruct args as [|arg args]; [reflexivity|]. simpl.
  apply not_elem_of_cons in Hx. destruct Hx as [Hne Hx].
  rewrite IH by exact Hx. apply lookup_insert_ne. congruence.
Qed.

Lemma boundStore_position (params : list string) :
  forall (args : list Object) (store : gmap string Object) (i : nat) (x : string),
    NoDup params -> length params <= length args ->
    params !! i = Some x -> boundStore store params args !! x = args !! i.
Proof.
  induction params as [|param params IH]; intros args store i x Hnd Hlen Hi;
    [discriminate|].
  destruct args as [|arg args]; [simpl in Hlen; lia|].
  apply NoDup_cons in Hnd. destruct Hnd as [Hfresh Hnd]. simpl in *.
  destruct i as [|i]; simpl in *.
  - inversion Hi; subst. rewrite boundStore_other by exact Hfresh.
    apply lookup_insert_eq.
  - apply IH; [exact Hnd | lia | exact Hi].
Qed.

(** The loop of [extendFunctionEnv], when the arguments suffice. *)
Lemma bindParams_run (env : ptr) (args : list Object) (params : list string) :
  forall (idx : nat) (s : State) (cell : Env),
    idx + length params <= length args ->
    envs s !! env = Some cell ->
    bindParams env params args idx s =
    Done tt (mkState (<[env := mkEnv (boundStore (store cell) params (drop idx args))
                                     (Object.outer cell)]> (envs s))
                     (arrays s) (next s) (stdout s)).
Proof.
  induction params as [|param params IH]; intros idx s cell Hlen Hcell.
  - simpl. destruct cell. rewrite insert_id by exact Hcell. destruct s. reflexivity.
  - simpl in *.
    destruct (lookup_lt_is_Some_2 args idx ltac:(lia)) as [arg Harg].
    rewrite Harg. unfold bind, Set_. rewrite Hcell.
    rewrite (IH (S idx) _ (mkEnv (<[param := arg]> (store cell)) (Object.outer cell)))
      by (simpl; try apply lookup_insert_eq; lia).
    simpl. rewrite insert_insert_eq.
    rewrite (drop_S args arg idx Harg). reflexivity.
Qed.

(** X17: when a Function is given at least as many arguments as it has
    parameters, and the parameters differ from each other,
    [extendFunctionEnv] makes one new environment whose outer environment is
    the Function's; it binds every parameter to the argument at its position
    and nothing else, and it changes no other environment and no Array. *)
Theorem parameters_bound_by_position (params : list string) (fnEnv : ptr)
    (args : list Object) (s : State) :
  NoDup params ->
  length params <= length args ->
  exists s' cell,
    extendFunctionEnv params fnEnv args s = Done (next s) s' /\
    envs s' !! next s = Some cell /\
    outer cell = Some fnEnv /\
    (forall i x, params !! i = Some x -> store cell !! x = args !! i) /\
    (forall x, x ∉ params -> store cell !! x = None) /\
    (forall i x v fuel, params !! i = Some x -> args !! i = Some v ->
       Get (S fuel) (next s) x s' = Done (v, true) s') /\
    (forall e : ptr, e <> next s -> envs s' !! e = envs s !! e) /\
    arrays s' = arrays s /\ next s' = S (next s) /\ stdout s' = stdout s.
Proof.
  intros Hnd Hlen. eexists. exists (mkEnv (boundStore ∅ params args) (Some fnEnv)).
  split.
  { unfold extendFunctionEnv, NewClosedEnv, bind, fresh.
    rewrite (bindParams_run _ _ _ 0 _ (mkEnv ∅ (Some fnEnv)))
      by (simpl; try apply lookup_insert_eq; lia).
    reflexivity. }
  simpl. rewrite insert_insert_eq, drop_0.
  split; [apply lookup_insert_eq|]. split; [reflexivity|].
  assert (Hpos : forall i x, params !! i = Some x ->
                 boundStore ∅ params args !! x = args !! i).
  { intros i x Hi. apply boundStore_position; assumption. }
  split; [exact Hpos|].
  split; [intros x Hx; rewrite boundStore_other by exact Hx; apply lookup_empty|].
  split.
  { intros i x v fuel Hi Hv. simpl. rewrite lookup_insert_eq. simpl.
    rewrite (Hpos i x Hi), Hv. reflexivity. }
  split; [intros e He; apply lookup_insert_ne; congruence | auto].
Qed.

End EnvFacts.

(** * Messages without operands *)

Module FmtFacts.
Import Fmt.

Lemma skipFlags_le (s : string) : (String.length (skipFlags s) <= String.length s)%nat.
Proof. induction s as [|c s IH]; simpl; [lia|]. destruct (isFlag c); simpl; lia. Qed.

Lemma dropString_le (n : nat) (s : string) :
  (String.length (dropString n s) <= String.length s)%nat.
Proof.
  revert s. induction n as [|n IH]; intros s; [destruct s; simpl; lia|].
  destruct s as [|c s]; simpl; [lia|]. specialize (IH s). lia.
Qed.

Lemma parsenumFrom_le (s : string) :
  forall num isnum,
    (String.length (snd (parsenumFrom num isnum s)) <= String.length s)%nat.
Proof.
  induction s as [|c s IH]; intros num isnum; simpl; [lia|].
  destruct (digit c); simpl; [|lia].
  destruct (1000000 <? num); simpl; [lia|]. specialize (IH (num * 10 + z) true). lia.
Qed.

Lemma after_le (c : ascii) (s s' : string) :
  after c s = Some s' -> (String.length s' < String.length s)%nat.
Proof.
  destruct s as [|c' s0]; simpl; [discriminate|].
  destruct (Ascii.eqb c' c); intros H; inversion H; subst. lia.
Qed.

Lemma argNumber_le (good : bool) (s : string) :
  (String.length (snd (fst (argNumber good s))) <= String.length s)%nat.
Proof.
  unfold argNumber. destruct (after "[" s); [|simpl; lia].
  destruct (parseArgNumber s) as [wid ok]. simpl. apply dropString_le.
Qed.

Lemma width_le (good afterIndex : bool) (s : string) :
  (String.length (snd (fst (width good afterIndex s))) <= String.length s)%nat.
Proof.
  unfold width. destruct (after "*" s) as [s'|] eqn:E.
  - apply after_le in E. simpl. lia.
  - pose proof (parsenumFrom_le s 0 false) as H. unfold parsenum.
    destruct (parsenumFrom 0 false s). simpl in *. exact H.
Qed.

Lemma precision_le (good afterIndex : bool) (s : string) :
  (String.length (snd (fst (precision good afterIndex s))) <= String.length s)%nat.
Proof.
  unfold precision. destruct (after "." s) as [s'|] eqn:E; [|simpl; lia].
  apply after_le in E.
  pose proof (argNumber_le (if afterIndex then false else good) s') as H.
  destruct (argNumber (if afterIndex then false else good) s') as [[good' s''] afterIndex'].
  simpl in H. destruct (after "*" s'') as [s3|] eqn:E'.
  - apply after_le in E'. simpl. lia.
  - simpl. pose proof (parsenumFrom_le s'' 0 false). unfold parsenum. lia.
Qed.

Lemma writeRune_le (s : string) :
  (String.length (snd (writeRune s)) <= String.length s)%nat.
Proof.
  destruct s as [|c0 s1]; simpl; [lia|].
  repeat match goal with
         | |- context [if ?b then _ else _] => destruct b
         | |- context [match ?s with EmptyString => _ | String _ _ => _ end] => destruct s
         end; simpl; lia.
Qed.

(** A verb takes bytes of the format and gives none back. *)
Lemma verb_le (s : string) : (String.length (snd (verb s)) <= String.length s)%nat.
Proof.
  unfold verb. pose proof (skipFlags_le s) as H0.
  pose proof (argNumber_le true (skipFlags s)) as H1.
  destruct (argNumber true (skipFlags s)) as [[good1 s1] afterIndex1]. simpl in H1.
  pose proof (width_le good1 afterIndex1 s1) as H2.
  destruct (width good1 afterIndex1 s1) as [[[badWidth good2] s2] afterIndex2]. simpl in H2.
  pose proof (precision_le good2 afterIndex2 s2) as H3.
  destruct (precision good2 afterIndex2 s2) as [[[badPrec good3] s3] afterIndex3].
  simpl in H3.
  assert (H4 : forall good s4 found,
            (if afterIndex3 then (good3, s3, afterIndex3) else argNumber good3 s3) =
            (good, s4, found) -> (String.length s4 <= String.length s3)%nat).
  { intros good s4 found E. destruct afterIndex3.
    - inversion E; subst. lia.
    - pose proof (argNumber_le good3 s3) as H. rewrite E in H. exact H. }
  destruct (if afterIndex3 then (good3, s3, afterIndex3) else argNumber good3 s3)
    as [[good4 s4] found]. specialize (H4 _ _ _ eq_refl).
  destruct s4 as [|c s5]; [simpl; lia|].
  destruct (after "%" (String c s5)) as [s6|] eqn:E.
  - apply after_le in E. simpl in *. lia.
  - pose proof (writeRune_le (String c s5)) as H5.
    destruct (writeRune (String c s5)) as [rune s6]. simpl in H5.
    destruct good4; simpl in *; lia.
Qed.

(** The fuel [Sprintf] gives its loop is enough: more of it changes
    nothing. *)
Lemma SprintfFrom_enough (n : nat) :
  forall format fuel fuel',
    (String.length format <= n)%nat ->
    (String.length format <= fuel)%nat -> (String.length format <= fuel')%nat ->
    SprintfFrom fuel format = SprintfFrom fuel' format.
Proof.
  induction n as [|n IH]; intros format fuel fuel' Hn Hfuel Hfuel'.
  - destruct format; [|simpl in Hn; lia]. destruct fuel, fuel'; reflexivity.
  - destruct format as [|c s]; [destruct fuel, fuel'; reflexivity|].
    destruct fuel as [|fuel]; [simpl in Hfuel; lia|].
    destruct fuel' as [|fuel']; [simpl in Hfuel'; lia|].
    cbn [SprintfFrom]. simpl in Hn, Hfuel, Hfuel'.
    destruct (Ascii.eqb c "%").
    + pose proof (verb_le s) as Hle. destruct (verb s) as [out rest]. simpl in Hle.
      f_equal. apply IH; lia.
    + f_equal. apply IH; lia.
Qed.

Lemma Sprintf_enough (format : string) (fuel : nat) :
  (String.length format <= fuel)%nat -> SprintfFrom fuel format = Sprintf format.
Proof.
  intros Hfuel. apply (SprintfFrom_enough (String.length format)); auto.
Qed.

(** A format that holds no [%] is written as it is. *)
Lemma holdsPercent_app (a b : string) :
  holdsPercent (a ++ b) = holdsPercent a || holdsPercent b.
Proof.
  induction a as [|c a IH]; [reflexivity|]. simpl. rewrite IH. apply orb_assoc.
Qed.

Lemma SprintfFrom_verbatim (format : string) :
  holdsPercent format = false ->
  forall fuel, (String.length format <= fuel)%nat -> SprintfFrom fuel format = format.
Proof.
  induction format as [|c format IH]; intros Hfree fuel Hfuel.
  - destruct fuel; reflexivity.
  - simpl in Hfree. apply orb_false_iff in Hfree as [Hc Hrest].
    destruct fuel as [|fuel]; [simpl in Hfuel; lia|].
    cbn [SprintfFrom]. rewrite Hc. f_equal.
    apply IH; [exact Hrest | simpl in Hfuel; lia].
Qed.

Lemma Sprintf_verbatim (format : string) :
  holdsPercent format = false -> Sprintf format = format.
Proof. intros Hfree. apply SprintfFrom_verbatim; [exact Hfree | reflexivity]. Qed.

End FmtFacts.

(** * Statements, identifiers and errors *)

Module EvalFacts.

Import Go Object Evaluator Runs Shapes LoopFacts FmtFacts.

Section Evaluation.

Variable hashString : string -> Z.
Variable Inspect : State -> Object -> string.
Variable rangeOrder :
  list (Ast.Expression * Ast.Expression) -> list (Ast.Expression * Ast.Expression).

Let run := Evaluator.Eval hashString Inspect rangeOrder.

Lemma Eval_Identifier fuel name env :
  run (S fuel) (Ast.NExpression (Ast.Identifier name)) env = evalIdentifier fuel name env.
Proof. reflexivity. Qed.

Lemma Eval_Let fuel name e env :
  run (S fuel) (Ast.NStatement (Ast.LetStatement name e)) env =
  (let* val := run fuel (Ast.NExpression e) env in
   if isError val then ret val
   else Set_ env name val ;; ret Nil).
Proof. reflexivity. Qed.

Lemma Eval_ExpressionStatement' fuel e env :
  run (S fuel) (Ast.NStatement (Ast.ExpressionStatement e)) env =
  run fuel (Ast.NExpression e) env.
Proof. reflexivity. Qed.

(** X18: after a let statement, the identifier evaluates to the very object
    the value expression yielded, whatever the name is (the name of a
    builtin too, which the binding shadows); so [let x = e; x] yields the
    value of [e], with one layer of ReturnValue taken off if it has one. *)
Theorem let_then_identifier (k : nat) (name : string) (e : Ast.Expression) (env : ptr)
    (s s1 : State) (val : Object) (cell : Env) :
  run (S (S k)) (Ast.NExpression e) env s = Done val s1 ->
  isError val = false ->
  envs s1 !! env = Some cell ->
  let s2 := bound s1 env cell name val in
  (forall fuel, run (S (S fuel)) (Ast.NExpression (Ast.Identifier name)) env s2 =
                Done val s2) /\
  run (S (S (S (S k))))
      (Ast.NProgram [Ast.LetStatement name e;
                     Ast.ExpressionStatement (Ast.Identifier name)]) env s =
  Done (unwrapReturnValue val) s2.
Proof.
  intros He Herr Hcell s2.
  assert (Hid : forall fuel,
            run (S (S fuel)) (Ast.NExpression (Ast.Identifier name)) env s2 = Done val s2).
  { intros fuel. rewrite Eval_Identifier. unfold evalIdentifier, bind.
    simpl. rewrite lookup_insert_eq. simpl. rewrite lookup_insert_eq. reflexivity. }
  split; [exact Hid|].
  change (run (S (S (S (S k)))) (Ast.NProgram [Ast.LetStatement name e;
            Ast.ExpressionStatement (Ast.Identifier name)]) env s)
    with (evalProgram (run (S (S (S k))))
            [Ast.LetStatement name e; Ast.ExpressionStatement (Ast.Identifier name)] env s).
  unfold evalProgram. cbn [evalProgramFrom]. unfold bind at 1.
  rewrite Eval_Let. unfold bind at 1. rewrite He, Herr.
  unfold bind at 1, Set_. rewrite Hcell. unfold ret at 1. cbv beta iota.
  unfold bind at 1. rewrite Eval_ExpressionStatement'.
  match goal with
  | |- context [run _ _ env ?st] => change st with s2
  end.
  rewrite (Hid k).
  destruct val; simpl in Herr; try discriminate; reflexivity.
Qed.

(** X19: a name that no environment of the chain binds evaluates to the
    builtin of that name, for [len], [first], [last], [rest], [push] and
    [puts], and for every other name that holds no [%] to the Error
    [identifier not found: NAME]. (The name is a part of the format of the
    message, so a [%] in it would be read as a verb.) *)
Theorem unbound_identifier (fuel : nat) (name : string) (env : ptr) (s : State) :
  Get fuel env name s = Done (Nil, false) s ->
  (forall fn, In (name, fn) [("len", lenFn); ("first", firstFn); ("last", lastFn);
                             ("rest", restFn); ("push", pushFn); ("puts", putsFn)] ->
     run (S fuel) (Ast.NExpression (Ast.Identifier name)) env s = Done (BuiltIn fn) s) /\
  (~ In name ["len"; "first"; "last"; "rest"; "push"; "puts"] ->
   Fmt.holdsPercent name = false ->
     run (S fuel) (Ast.NExpression (Ast.Identifier name)) env s =
     Done (Error (next s) ("identifier not found: " ++ name)) (allocated s)).
Proof.
  intros Hget. rewrite Eval_Identifier. unfold evalIdentifier, bind. rewrite Hget.
  cbn [snd fst]. split.
  - intros fn Hin. simpl in Hin.
    repeat (destruct Hin as [Hin | Hin]; [inversion Hin; subst; reflexivity|]).
    destruct Hin.
  - intros Hnot Hfree.
    assert (Hnone : builtins !! name = None).
    { unfold builtins. apply not_elem_of_list_to_map_1. cbn [fmap list_fmap fst].
      intros Hin. apply Hnot. apply list_elem_of_In. exact Hin. }
    rewrite Hnone, Sprintf_verbatim; [reflexivity|].
    rewrite holdsPercent_app, Hfree. reflexivity.
Qed.

(** X20: an Error in an operand position is the result of the whole
    construct, with the memory that operand left: a prefix or infix
    expression, an index expression, the condition of an if, the callee of a
    call. A return statement hands the Error on without wrapping it, and a
    let statement without binding the name. *)
Theorem error_in_operand_is_the_result (fuel : nat) (e : Ast.Expression) (env : ptr)
    (s s1 : State) (err : Object) :
  run fuel (Ast.NExpression e) env s = Done err s1 ->
  isError err = true ->
  (forall op, run (S fuel) (Ast.NExpression (Ast.PrefixExpression op e)) env s =
              Done err s1) /\
  (forall op r, run (S fuel) (Ast.NExpression (Ast.InfixExpression e op r)) env s =
                Done err s1) /\
  (forall i, run (S fuel) (Ast.NExpression (Ast.IndexExpression e i)) env s =
             Done err s1) /\
  (forall c a, run (S fuel) (Ast.NExpression (Ast.IfExpression e c a)) env s =
               Done err s1) /\
  (forall args, run (S fuel) (Ast.NExpression (Ast.CallExpression e args)) env s =
                Done err s1) /\
  run (S fuel) (Ast.NStatement (Ast.ReturnStatement e)) env s = Done err s1 /\
  (forall name, run (S fuel) (Ast.NStatement (Ast.LetStatement name e)) env s =
                Done err s1) /\
  (forall l op lv s0,
     run fuel (Ast.NExpression l) env s0 = Done lv s -> isError lv = false ->
     run (S fuel) (Ast.NExpression (Ast.InfixExpression l op e)) env s0 = Done err s1 /\
     run (S fuel) (Ast.NExpression (Ast.IndexExpression l e)) env s0 = Done err s1).
Proof.
  intros He Herr. subst run. repeat split; intros; simpl; unfold evalIfExpression, bind;
    fold (Eval hashString Inspect rangeOrder fuel);
    repeat match goal with
           | H : Eval _ _ _ _ _ _ _ = Done _ _ |- _ => rewrite H
           | H : isError _ = _ |- _ => rewrite H
           end; reflexivity.
Qed.

End Evaluation.

(** X21: when the statements before it run through, the last statement
    decides: a block yields its value as it is (a ReturnValue too, and nil),
    and a program yields it with one layer of ReturnValue taken off. *)
Theorem last_statement_decides (ev : Evaluate) (env : ptr) (pre : list Ast.Statement)
    (last : Ast.Statement) (s s1 s2 : State) (r : Object) :
  runsThrough ev env pre s s1 ->
  ev (Ast.NStatement last) env s1 = Done r s2 ->
  evalBlockStatement ev (pre ++ [last]) env s = Done r s2 /\
  evalProgram ev (pre ++ [last]) env s = Done (unwrapReturnValue r) s2.
Proof.
  intros Hpre Hlast. split.
  - unfold evalBlockStatement.
    destruct (block_runsThrough _ _ _ [last] _ _ Hpre Nil) as [result' ->].
    cbn [evalBlockStatementFrom]. unfold bind. rewrite Hlast.
    destruct (stopsBlock r); reflexivity.
  - unfold evalProgram.
    destruct (program_runsThrough _ _ _ [last] _ _ Hpre Nil) as [res' ->].
    cbn [evalProgramFrom]. unfold bind. rewrite Hlast.
    destruct r; reflexivity.
Qed.

(** X22: a statement that yields an Error ends the program and the block:
    both yield that Error, with the memory and the output the statement
    left, whatever statements follow. *)
Theorem error_ends_program_and_block (ev : Evaluate) (env : ptr)
    (pre : list Ast.Statement) (stmt : Ast.Statement) (post : list Ast.Statement)
    (s s1 s2 : State) (err : Object) :
  runsThrough ev env pre s s1 ->
  ev (Ast.NStatement stmt) env s1 = Done err s2 ->
  isError err = true ->
  evalProgram ev (pre ++ stmt :: post) env s = Done err s2 /\
  evalBlockStatement ev (pre ++ stmt :: post) env s = Done err s2.
Proof.
  intros Hpre Hstmt Herr. split.
  - unfold evalProgram.
    destruct (program_runsThrough _ _ _ (stmt :: post) _ _ Hpre Nil) as [res' ->].
    cbn [evalProgramFrom]. unfold bind. rewrite Hstmt.
    destruct err; simpl in Herr; try discriminate; reflexivity.
  - unfold evalBlockStatement.
    destruct (block_runsThrough _ _ _ (stmt :: post) _ _ Hpre Nil) as [result' ->].
    cbn [evalBlockStatementFrom]. unfold bind.
    rewrite Hstmt, (stopsBlock_isError _ Herr). reflexivity.
Qed.

End EvalFacts.

(** * Arrays are immutable *)

Module ImmutableFacts.

Import Go Object Evaluator Runs Shapes.

Lemma arraysKept_refl s : arraysKept s s.
Proof. split; [lia | auto]. Qed.

Lemma arraysKept_trans s1 s2 s3 : arraysKept s1 s2 -> arraysKept s2 s3 -> arraysKept s1 s3.
Proof.
  intros [H1 K1] [H2 K2]. split; [lia|].
  intros a Ha. rewrite K2 by lia. apply K1. exact Ha.
Qed.

Lemma keeps_ret {A} (a : A) : keeps (ret a).
Proof. intros s a' s' H. inversion H; subst. apply arraysKept_refl. Qed.

Lemma keeps_panic {A} (r : string) : keeps (@panic State A r).
Proof. intros s a s' H. discriminate H. Qed.

Lemma keeps_outOfFuel {A} : keeps (@outOfFuel State A).
Proof. intros s a s' H. discriminate H. Qed.

Lemma keeps_bind {A B} (c : M A) (k : A -> M B) :
  keeps c -> (forall a, keeps (k a)) -> keeps (bind c k).
Proof.
  intros Hc Hk s b s' H. unfold bind in H.
  destruct (c s) as [a s1| |] eqn:E; try discriminate.
  exact (arraysKept_trans _ _ _ (Hc s a s1 E) (Hk a s1 b s' H)).
Qed.

(** A computation that writes no backing store and gives no address back. *)
Lemma keeps_untouched {A} (c : M A) :
  (forall s a s', c s = Done a s' -> arrays s' = arrays s /\ (next s <= next s')%nat) ->
  keeps c.
Proof.
  intros Hc s a s' H. destruct (Hc s a s' H) as [Harr Hnext].
  split; [exact Hnext|]. intros b _. rewrite Harr. reflexivity.
Qed.

(** A new backing store at the next address. *)
Lemma withArray_kept s els : arraysKept s (withArray s els).
Proof.
  split; [simpl; lia|]. intros b Hb. simpl.
  apply lookup_insert_ne. lia.
Qed.

Ltac keep :=
  repeat first
    [ assumption
    | solve [auto with keep]
    | apply keeps_ret
    | apply keeps_panic
    | apply keeps_outOfFuel
    | apply keeps_bind; [|intros ?]
    | match goal with
      | |- keeps (if ?b then _ else _) => destruct b
      | |- keeps (match ?x with _ => _ end) => destruct x
      end ].

Create HintDb keep.

Lemma fresh_keeps : keeps fresh.
Proof. apply keeps_untouched. intros s a s' H. inversion H; subst. simpl. split; [reflexivity | lia]. Qed.

Lemma typeOf_keeps obj : keeps (typeOf obj).
Proof. unfold typeOf. keep. Qed.

Lemma Set_keeps env name val : keeps (Set_ env name val).
Proof.
  apply keeps_untouched. intros s a s' H. unfold Set_ in H.
  destruct (envs s !! env); inversion H; subst. simpl. split; [reflexivity | lia].
Qed.

Lemma Get_keeps fuel : forall env name, keeps (Get fuel env name).
Proof.
  intros env name. apply keeps_untouched. revert env.
  induction fuel as [|fuel IH]; intros env s a s' H; simpl in H.
  - discriminate H.
  - destruct (envs s !! env) as [cell|]; [|discriminate].
    destruct (store cell !! name), (outer cell); inversion H; subst;
      try (split; [reflexivity | lia]).
    exact (IH _ _ _ _ H).
Qed.

Lemma NewClosedEnv_keeps outer : keeps (NewClosedEnv outer).
Proof.
  apply keeps_untouched. intros s a s' H. inversion H; subst. simpl.
  split; [reflexivity | lia].
Qed.

Lemma Elements_keeps a : keeps (Elements a).
Proof.
  apply keeps_untouched. intros s els s' H. unfold Elements in H.
  destruct (arrays s !! a); inversion H; subst. split; [reflexivity | lia].
Qed.

Lemma newArray_keeps els : keeps (newArray els).
Proof.
  intros s a s' H. unfold newArray, bind, fresh, writeElements, ret in H.
  inversion H; subst. exact (withArray_kept s els).
Qed.

#[export] Hint Resolve fresh_keeps typeOf_keeps Set_keeps Get_keeps
  NewClosedEnv_keeps Elements_keeps newArray_keeps : keep.

Lemma newError_keeps msg : keeps (newError msg).
Proof. unfold newError. keep. Qed.

Lemma newInteger_keeps v : keeps (newInteger v).
Proof. unfold newInteger. keep. Qed.

#[export] Hint Resolve newError_keeps newInteger_keeps : keep.

Lemma typesAre_keeps tl tr l r : keeps (typesAre tl tr l r).
Proof. unfold typesAre. keep. Qed.

#[export] Hint Resolve typesAre_keeps : keep.

Lemma evalPrefixExpression_keeps op right : keeps (evalPrefixExpression op right).
Proof. unfold evalPrefixExpression, evalMinusPrefixOperatorExpression. keep. Qed.

Lemma evalInfixExpression_keeps op l r : keeps (evalInfixExpression op l r).
Proof.
  unfold evalInfixExpression, evalIntegerInfixExpression, evalStringInfixExpression.
  keep.
Qed.

Lemma evalIndexExpression_keeps hashString l i :
  keeps (evalIndexExpression hashString l i).
Proof.
  unfold evalIndexExpression, evalArrayIndexExpression, evalHashIndexExpression.
  keep.
Qed.

Lemma println_keeps Inspect arg : keeps (println Inspect arg).
Proof.
  unfold println. destruct arg; try apply keeps_panic;
    apply keeps_untouched; intros s u s' H; inversion H; subst; simpl;
    (split; [reflexivity | lia]).
Qed.

#[export] Hint Resolve evalPrefixExpression_keeps evalInfixExpression_keeps
  evalIndexExpression_keeps println_keeps : keep.

Lemma putsFunc_keeps Inspect args : keeps (putsFunc Inspect args).
Proof. induction args; simpl; keep. Qed.

(** [rest] and [push] write the store they have just made, and no other. *)
Lemma restFunc_keeps args : keeps (restFunc args).
Proof.
  destruct args as [|arg [|arg' args]];
    try (unfold restFunc, withArrayArgument, wrongNumberOfArguments; keep; fail).
  destruct arg as [| ? ? | ? | | ? ? | ? ? | ? ? | ? ? ? ? | ? | a | ? ?];
    try (unfold restFunc, withArrayArgument, bind, typeOf; simpl;
         first [apply newError_keeps | apply keeps_panic]).
  intros s r s' H.
  destruct (arrays s !! a) as [[|el tl]|] eqn:E.
  - unfold restFunc, withArrayArgument, bind, typeOf, Elements in H. simpl in H.
    rewrite E in H. simpl in H. inversion H; subst.
    apply arraysKept_refl.
  - rewrite (BuiltinMoreFacts.restFunc_run _ _ _ _ E) in H. inversion H; subst.
    exact (withArray_kept s tl).
  - unfold restFunc, withArrayArgument, bind, typeOf, Elements in H. simpl in H.
    rewrite E in H. discriminate H.
Qed.

Lemma pushFunc_keeps args : keeps (pushFunc args).
Proof.
  destruct args as [|arg [|el [|arg' args]]];
    try (unfold pushFunc, wrongNumberOfArguments; keep; fail).
  destruct arg as [| ? ? | ? | | ? ? | ? ? | ? ? | ? ? ? ? | ? | a | ? ?];
    try (unfold pushFunc, bind, typeOf; simpl;
         first [apply newError_keeps | apply keeps_panic]).
  intros s r s' H.
  destruct (arrays s !! a) as [els|] eqn:E.
  - rewrite (BuiltinMoreFacts.pushFunc_run _ _ _ _ E) in H. inversion H; subst.
    exact (withArray_kept s _).
  - unfold pushFunc, bind, typeOf, Elements in H. simpl in H.
    rewrite E in H. discriminate H.
Qed.

Lemma callBuiltin_keeps Inspect fn args : keeps (callBuiltin Inspect fn args).
Proof.
  destruct fn; simpl;
    first [apply putsFunc_keeps | apply restFunc_keeps | apply pushFunc_keeps | idtac];
    unfold lenFunc, firstFunc, lastFunc, withArrayArgument, wrongNumberOfArguments;
    keep.
Qed.

Lemma bindParams_keeps env args params :
  forall idx, keeps (bindParams env params args idx).
Proof. induction params; intros idx; simpl; keep. Qed.

Lemma extendFunctionEnv_keeps params fnEnv args :
  keeps (extendFunctionEnv params fnEnv args).
Proof. unfold extendFunctionEnv. keep. apply bindParams_keeps. Qed.

#[export] Hint Resolve callBuiltin_keeps extendFunctionEnv_keeps : keep.

Section Loops.

Variable hashString : string -> Z.
Variable Inspect : State -> Object -> string.
Variable rangeOrder :
  list (Ast.Expression * Ast.Expression) -> list (Ast.Expression * Ast.Expression).

Variable ev : Evaluate.
Hypothesis ev_keeps : forall node env, keeps (ev node env).

Lemma evalProgram_keeps stmts env : keeps (evalProgram ev stmts env).
Proof.
  unfold evalProgram. generalize Nil.
  induction stmts; intros res; simpl; keep; auto.
Qed.

Lemma evalBlockStatement_keeps stmts env : keeps (evalBlockStatement ev stmts env).
Proof.
  unfold evalBlockStatement. generalize Nil.
  induction stmts; intros res; simpl; keep; auto.
Qed.

Lemma evalExpressions_keeps exprs env : keeps (evalExpressions ev exprs env).
Proof.
  unfold evalExpressions. generalize (@nil Object).
  induction exprs; intros res; simpl; keep; auto.
Qed.

Lemma evalHashLiteral_keeps pairs env :
  keeps (evalHashLiteral hashString rangeOrder ev pairs env).
Proof.
  unfold evalHashLiteral. generalize (∅ : gmap HashKey (Object * Object)).
  induction (rangeOrder pairs) as [|[keyNode valNode] entries IH]; intros m; simpl;
    keep; auto.
Qed.

Lemma evalIfExpression_keeps c consequence alternative env :
  keeps (evalIfExpression ev c consequence alternative env).
Proof. unfold evalIfExpression. keep; auto. Qed.

Lemma applyFunction_keeps fn args : keeps (applyFunction Inspect ev fn args).
Proof. unfold applyFunction. keep; auto. Qed.

End Loops.

Lemma Eval_keeps hashString Inspect rangeOrder (fuel : nat) :
  forall node env, keeps (Eval hashString Inspect rangeOrder fuel node env).
Proof.
  induction fuel as [|fuel IH]; intros node env; [apply keeps_outOfFuel|].
  pose proof (evalProgram_keeps _ IH) as Hprogram.
  pose proof (evalBlockStatement_keeps _ IH) as Hblock.
  pose proof (evalExpressions_keeps _ IH) as Hexprs.
  pose proof (evalHashLiteral_keeps hashString rangeOrder _ IH) as Hhash.
  pose proof (evalIfExpression_keeps _ IH) as Hif.
  pose proof (applyFunction_keeps Inspect _ IH) as Happly.
  destruct node as [stmts | stmt | e]; simpl.
  - apply Hprogram.
  - destruct stmt; keep.
  - destruct e; try (unfold evalIdentifier); keep.
Qed.

(** X23: Arrays are never changed in place: whatever node is evaluated, and
    whatever builtins it calls, no address is given back and every address
    that was handed out before holds the backing store it held, or none as
    before; so every Array that was in memory is there afterwards with the
    same elements, and every store that is new is at a new address. *)
Theorem arrays_are_never_changed hashString Inspect rangeOrder (fuel : nat)
    (node : Ast.Node) (env : ptr) (s s' : State) (r : Object) :
  Eval hashString Inspect rangeOrder fuel node env s = Done r s' ->
  (next s <= next s')%nat /\
  (forall a : ptr, (a < next s)%nat -> arrays s' !! a = arrays s !! a) /\
  (arraysBelowNext s ->
   forall (a : ptr) els, arrays s !! a = Some els -> arrays s' !! a = Some els).
Proof.
  intros H. destruct (Eval_keeps _ _ _ _ _ _ _ _ _ H) as [Hnext Hkept].
  split; [exact Hnext|]. split; [exact Hkept|].
  intros HI a els Ha. rewrite Hkept; [exact Ha|].
  apply HI. eexists. exact Ha.
Qed.

End ImmutableFacts.

(** * Operator precedence in the parser *)

Module PrecedenceFacts.
Import Go Token Parser Shapes.

Section Precedence.
Variable ParseInt : string -> option Z.
Variable Quote : string -> string.

Let parse := ParseProgram ParseInt Quote.

Ltac operators H :=
  simpl in H; repeat (destruct H as [<- | H]; [|]); try contradiction.

(** X24: in [x op1 y op2 z] the operator with the higher precedence takes
    [y]: when [op2] binds tighter than [op1] the tree is [x op1 (y op2 z)],
    and otherwise, with equal precedence too, it is [(x op1 y) op2 z], so
    every binary operator is left associative. The parser reaches the end of
    the input and records no error. *)
Theorem binary_operators_by_precedence (t1 t2 : TokenType) (l1 l2 x y z : string) (n : nat) :
  In t1 binaryOperators -> In t2 binaryOperators ->
  parse (4 + n)%nat
    (New [identifier x; mkToken t1 l1; identifier y; mkToken t2 l2; identifier z]) =
  Done [Ast.ExpressionStatement
          (if (precedenceOf t1 <? precedenceOf t2)%nat
           then Ast.InfixExpression (Ast.Identifier x) l1
                  (Ast.InfixExpression (Ast.Identifier y) l2 (Ast.Identifier z))
           else Ast.InfixExpression
                  (Ast.InfixExpression (Ast.Identifier x) l1 (Ast.Identifier y))
                  l2 (Ast.Identifier z))]
       finished.
Proof.
  intros H1 H2. subst parse.
  operators H1; operators H2; vm_compute; reflexivity.
Qed.

(** X25: a prefix operator binds tighter than every binary operator, and a
    call and an index bind tighter than both: [-x op y] is [(-x) op y],
    [x op y[z]] is [x op (y[z])], [x op y(z)] is [x op (y(z))], [-y[z]] is
    [-(y[z])] and [-y(z)] is [-(y(z))]. *)
Theorem prefix_call_and_index_bind_tighter (pre op : TokenType) (pl l b1 b2 x y z : string) (n : nat) :
  In pre prefixOperators -> In op binaryOperators ->
  parse (4 + n)%nat (New [mkToken pre pl; identifier x; mkToken op l; identifier y]) =
    Done [Ast.ExpressionStatement
            (Ast.InfixExpression (Ast.PrefixExpression pl (Ast.Identifier x)) l
               (Ast.Identifier y))] finished /\
  parse (4 + n)%nat (New [identifier x; mkToken op l; identifier y;
                          mkToken LBRACKET b1; identifier z; mkToken RBRACKET b2]) =
    Done [Ast.ExpressionStatement
            (Ast.InfixExpression (Ast.Identifier x) l
               (Ast.IndexExpression (Ast.Identifier y) (Ast.Identifier z)))] finished /\
  parse (4 + n)%nat (New [identifier x; mkToken op l; identifier y;
                          mkToken LPAREN b1; identifier z; mkToken RPAREN b2]) =
    Done [Ast.ExpressionStatement
            (Ast.InfixExpression (Ast.Identifier x) l
               (Ast.CallExpression (Ast.Identifier y) [Ast.Identifier z]))] finished /\
  parse (4 + n)%nat (New [mkToken pre pl; identifier y;
                          mkToken LBRACKET b1; identifier z; mkToken RBRACKET b2]) =
    Done [Ast.ExpressionStatement
            (Ast.PrefixExpression pl
               (Ast.IndexExpression (Ast.Identifier y) (Ast.Identifier z)))] finished /\
  parse (4 + n)%nat (New [mkToken pre pl; identifier y;
                          mkToken LPAREN b1; identifier z; mkToken RPAREN b2]) =
    Done [Ast.ExpressionStatement
            (Ast.PrefixExpression pl
               (Ast.CallExpression (Ast.Identifier y) [Ast.Identifier z]))] finished.
Proof.
  intros H1 H2. subst parse.
  operators H1; operators H2; vm_compute; repeat split.
Qed.

End Precedence.
End PrecedenceFacts.

(** * Lists of expressions in the parser *)

Module ListFacts.
Import Go Token Parser Streams Shapes ParserFacts.
Local Open Scope list_scope.

Section Lists.
Variable ParseInt : string -> option Z.
Variable Quote : string -> string.

Let pe := parseExpression ParseInt Quote.

Lemma parseExpression_S (f : nat) (precedence : nat) :
  pe (S f) precedence = parseExpressionBody ParseInt Quote f (pe f) precedence.
Proof. reflexivity. Qed.

Lemma prefix_of_identifier : prefixParseFns !! IDENTIFER = Some parseIdentifierFn.
Proof. vm_compute. reflexivity. Qed.

(** [parseExpression]'s loop ends before a token that is no operator. *)
Lemma expression_ends (fuel : nat) (handler : nat -> P Ast.Expression) (n precedence : nat)
    (left : Ast.Expression) (p : Parser) :
  precedences !! Type_ (peekT p) = None ->
  (LOWEST <= precedence)%nat ->
  parseExpressionFrom fuel handler (S n) precedence left p = Done left p.
Proof.
  intros Hpk Hle. cbn [parseExpressionFrom]. unfold bind at 1, peekTokenIs.
  unfold bind at 1, peekPrecendence, bind at 1, peekType, ret at 1.
  rewrite Hpk. cbn [default].
  replace (precedence <? LOWEST)%nat with false; [rewrite andb_false_r; reflexivity|].
  symmetry. apply Nat.ltb_ge. exact Hle.
Qed.

(** Before an operator that binds tighter, the loop hands the left
    expression to the operator's handler and goes on. *)
Lemma expression_continues (fuel : nat) (handler : nat -> P Ast.Expression)
    (n precedence q : nat) (infix : infixParseFn) (left : Ast.Expression) (p : Parser) :
  String.eqb (Type_ (peekT p)) SEMICOLON = false ->
  precedences !! Type_ (peekT p) = Some q ->
  (precedence <? q)%nat = true ->
  infixParseFns !! Type_ (peekT p) = Some infix ->
  parseExpressionFrom fuel handler (S n) precedence left p =
  (let* leftExp := callInfix fuel handler infix left in
   parseExpressionFrom fuel handler n precedence leftExp) (advance p).
Proof.
  intros Hsemi Hq Hlt Hinfix.
  change (parseExpressionFrom fuel handler (S n) precedence left)
    with (let* semicolon := peekTokenIs SEMICOLON in
          let* peekPrec := peekPrecendence in
          if negb semicolon && (precedence <? peekPrec)%nat then
            let* t := peekType in
            match infixParseFns !! t with
            | None => ret left
            | Some infix =>
                nextToken ;;
                let* leftExp := callInfix fuel handler infix left in
                parseExpressionFrom fuel handler n precedence leftExp
            end
          else ret left).
  unfold bind at 1, peekTokenIs. rewrite Hsemi.
  unfold bind at 1, peekPrecendence, bind at 1, peekType, ret at 1.
  rewrite Hq. cbn [default negb andb]. unfold id. rewrite Hlt.
  unfold bind at 1. rewrite Hinfix. unfold bind at 1. rewrite nextToken_run.
  reflexivity.
Qed.

Lemma identifier_alone (f : nat) (x : string) (pk : Token) (rest : list Token)
    (errs : list string) :
  precedences !! Type_ pk = None ->
  pe (S (S f)) LOWEST (mkParser rest (identifier x) pk errs) =
  Done (Ast.Identifier x) (mkParser rest (identifier x) pk errs).
Proof.
  intros Hpk. rewrite parseExpression_S. unfold parseExpressionBody.
  unfold bind at 1, currType. cbn [currT identifier Type_].
  rewrite prefix_of_identifier. unfold bind at 1. cbn [callPrefix].
  unfold parseIdentifier, bind at 1, currLiteral, ret at 1. cbn [currT Literal].
  apply expression_ends; [exact Hpk | reflexivity].
Qed.

(** The token after an element: a comma, or the closing token. *)
Lemma after_element (close pk : Token) (ys : list string) (rest : list Token) :
  precedences !! Type_ close = None ->
  pk :: rest = thenSeparated ys ++ [close] ->
  precedences !! Type_ pk = None.
Proof.
  intros Hclose E. destruct ys; simpl in E; inversion E; subst; [exact Hclose|].
  vm_compute. reflexivity.
Qed.

Lemma list_loop (f : nat) (close : Token) :
  precedences !! Type_ close = None ->
  Type_ close <> COMMA ->
  forall (xs : list string) (n : nat) (exprs : list Ast.Expression)
         (cur pk : Token) (rest : list Token),
    pk :: rest = thenSeparated xs ++ [close] ->
    (length xs < n)%nat ->
    exists last,
      parseExpressionListFrom (pe (S (S f))) n exprs (mkParser rest cur pk []) =
      Done (exprs ++ map Ast.Identifier xs) (mkParser [] last close []).
Proof.
  intros Hclose Hcomma xs.
  induction xs as [|x xs IH]; intros n exprs cur pk rest E Hn;
    (destruct n as [|n]; [simpl in Hn; lia|]); simpl in E; inversion E; subst.
  - exists cur. cbn [parseExpressionListFrom]. unfold bind, peekTokenIs. cbn [peekT].
    apply String.eqb_neq in Hcomma. rewrite Hcomma, app_nil_r. reflexivity.
  - destruct (thenSeparated xs ++ [close]) as [|pk' rest'] eqn:E'.
    { destruct xs; discriminate E'. }
    symmetry in E'.
    destruct (IH n (exprs ++ [Ast.Identifier x]) (identifier x) pk' rest' eq_refl
                ltac:(simpl in Hn; lia)) as [last Hloop].
    exists last. cbn [parseExpressionListFrom]. unfold bind at 1, peekTokenIs.
    cbn [peekT Type_]. change (String.eqb COMMA COMMA) with true. cbv iota.
    unfold bind at 1. rewrite nextToken_run. unfold bind at 1. rewrite nextToken_run.
    unfold advance. cbn [NextToken l peekT fst snd errors].
    unfold bind at 1.
    rewrite (identifier_alone f x pk' rest' [] (after_element _ _ _ _ Hclose E')).
    rewrite Hloop, <- app_assoc. reflexivity.
Qed.

Lemma expression_list_run (f : nat) (close : Token) (xs : list string)
    (cur pk : Token) (rest : list Token) :
  precedences !! Type_ close = None ->
  Type_ close <> COMMA ->
  Type_ close <> IDENTIFER ->
  pk :: rest = separated xs ++ [close] ->
  (length xs <= S (S f))%nat ->
  parseExpressionList (S (S f)) (pe (S (S f))) (Type_ close) (mkParser rest cur pk []) =
  Done (map Ast.Identifier xs) (mkParser [] close (mkToken EOF "") []).
Proof.
  intros Hclose Hcomma Hident E Hlen. unfold parseExpressionList.
  destruct xs as [|x xs]; simpl in E; inversion E; subst.
  - unfold bind at 1, peekTokenIs. cbn [peekT]. rewrite String.eqb_refl. reflexivity.
  - unfold bind at 1, peekTokenIs. cbn [peekT identifier Type_].
    assert (Hne : String.eqb IDENTIFER (Type_ close) = false).
    { apply String.eqb_neq. intros Heq. apply Hident. symmetry. exact Heq. }
    rewrite Hne. cbv iota. unfold bind at 1. rewrite nextToken_run.
    destruct (thenSeparated xs ++ [close]) as [|pk' rest'] eqn:E'.
    { destruct xs; discriminate E'. }
    symmetry in E'. unfold advance. cbn [NextToken l peekT fst snd errors].
    unfold bind at 1.
    rewrite (identifier_alone f x pk' rest' [] (after_element _ _ _ _ Hclose E')).
    destruct (list_loop f close Hclose Hcomma xs (S (S f)) [Ast.Identifier x]
                (identifier x) pk' rest' E' ltac:(simpl in Hlen; lia)) as [last Hloop].
    unfold bind at 1. rewrite Hloop.
    unfold bind at 1. rewrite expectPeek_run by reflexivity. reflexivity.
Qed.

Let parse := ParseProgram ParseInt Quote.

(** A program of one expression statement that ends the input. *)
Lemma expression_statement_program (F : nat) (e : Ast.Expression) (p : Parser) (c : Token) :
  String.eqb (Type_ (currT p)) EOF = false ->
  String.eqb (Type_ (currT p)) LET = false ->
  String.eqb (Type_ (currT p)) RETURN = false ->
  pe (S (S F)) LOWEST p = Done e (mkParser [] c (mkToken EOF "") []) ->
  parse (S (S F)) p = Done [Ast.ExpressionStatement e] finished.
Proof.
  intros Heof Hlet Hreturn He. subst parse. unfold ParseProgram.
  cbn [ParseProgramFrom]. unfold bind at 1, currTIs. rewrite Heof. cbn [negb].
  cbv iota. unfold bind at 1, parseStatment, bind at 1, currType.
  rewrite Hlet, Hreturn. unfold parseExpressionStatment, bind at 1.
  fold pe. rewrite He. vm_compute. reflexivity.
Qed.

(** X26: a list of any number of identifiers separated by commas, between
    brackets or as the arguments of a call, parses to the array literal or
    the call with these identifiers as elements, in their order; the empty
    list too. The fuel needed grows with the length of the list, and no
    error is recorded. *)
Theorem comma_separated_identifiers (xs : list string) (g : string) (k : nat) :
  parse (3 + length xs + k)%nat
    (New (mkToken LBRACKET "[" :: separated xs ++ [mkToken RBRACKET "]"])) =
    Done [Ast.ExpressionStatement (Ast.ArrayLiteral (map Ast.Identifier xs))] finished /\
  parse (3 + length xs + k)%nat
    (New (identifier g :: mkToken LPAREN "(" :: separated xs ++ [mkToken RPAREN ")"])) =
    Done [Ast.ExpressionStatement
            (Ast.CallExpression (Ast.Identifier g) (map Ast.Identifier xs))] finished.
Proof.
  set (f := (length xs + k)%nat).
  assert (Hlen : (length xs <= S (S f))%nat) by (subst f; lia).
  change (3 + length xs + k)%nat with (S (S (S f))). clearbody f.
  split.
  - destruct (separated xs ++ [mkToken RBRACKET "]"]) as [|pk rest] eqn:E.
    { destruct xs; discriminate E. }
    symmetry in E.
    pose proof (expression_list_run f (mkToken RBRACKET "]") xs (mkToken LBRACKET "[")
                  pk rest eq_refl ltac:(discriminate) ltac:(discriminate) E Hlen) as Hlist.
    apply (expression_statement_program _ _ _ (mkToken RBRACKET "]"));
      try reflexivity.
    change (New (mkToken LBRACKET "[" :: pk :: rest))
      with (mkParser rest (mkToken LBRACKET "[") pk []).
    rewrite parseExpression_S. unfold parseExpressionBody.
    unfold bind at 1, currType. cbn [currT Type_].
    change (prefixParseFns !! LBRACKET) with (Some parseArrayLiteralFn).
    unfold bind at 1. cbn [callPrefix]. unfold parseArrayLiteral, bind at 1.
    cbn [Type_] in Hlist. rewrite Hlist. unfold ret at 1.
    apply expression_ends; reflexivity.
  - destruct (separated xs ++ [mkToken RPAREN ")"]) as [|pk rest] eqn:E.
    { destruct xs; discriminate E. }
    symmetry in E.
    pose proof (expression_list_run f (mkToken RPAREN ")") xs (mkToken LPAREN "(")
                  pk rest eq_refl ltac:(discriminate) ltac:(discriminate) E Hlen) as Hlist.
    apply (expression_statement_program _ _ _ (mkToken RPAREN ")"));
      try reflexivity.
    change (New (identifier g :: mkToken LPAREN "(" :: pk :: rest))
      with (mkParser (pk :: rest) (identifier g) (mkToken LPAREN "(") []).
    rewrite parseExpression_S. unfold parseExpressionBody.
    unfold bind at 1, currType. cbn [currT identifier Type_].
    rewrite prefix_of_identifier. unfold bind at 1. cbn [callPrefix].
    unfold parseIdentifier, bind at 1, currLiteral, ret at 1. cbn [currT Literal].
    rewrite (expression_continues _ _ _ _ CALL parseCallExpressionFn) by reflexivity.
    unfold advance. cbn [NextToken l peekT fst snd errors].
    unfold bind at 1. cbn [callInfix]. unfold parseCallExpression, bind at 1.
    cbn [Type_] in Hlist. rewrite Hlist. unfold ret at 1.
    apply expression_ends; reflexivity.
Qed.

End Lists.
End ListFacts.

(** * What evaluation writes *)

Module ScopeFacts.

Import Go Object Evaluator Runs Shapes.

Lemma envsKept_refl w s : envsKept w s s.
Proof. split; [lia|]. split; [auto | reflexivity]. Qed.

Lemma envsKept_trans w s1 s2 s3 :
  envsKept w s1 s2 -> envsKept w s2 s3 -> envsKept w s1 s3.
Proof.
  intros (H1 & K1 & O1) (H2 & K2 & O2). split; [lia|]. split.
  - intros e He Hw. rewrite K2 by (lia || exact Hw). apply K1; assumption.
  - etransitivity; eassumption.
Qed.

Lemma envsKept_weaken w s s' : envsKept None s s' -> envsKept w s s'.
Proof.
  intros (H & K & O). split; [exact H|]. split; [|exact O].
  intros e He _. apply K; [exact He | discriminate].
Qed.

Lemma writesOnly_ret {A} w (a : A) : writesOnly w (ret a).
Proof. intros s a' s' H. inversion H; subst. apply envsKept_refl. Qed.

Lemma writesOnly_panic {A} w (r : string) : writesOnly w (@panic State A r).
Proof. intros s a s' H. discriminate H. Qed.

Lemma writesOnly_outOfFuel {A} w : writesOnly w (@outOfFuel State A).
Proof. intros s a s' H. discriminate H. Qed.

Lemma writesOnly_bind {A B} w (c : M A) (k : A -> M B) :
  writesOnly w c -> (forall a, writesOnly w (k a)) -> writesOnly w (bind c k).
Proof.
  intros Hc Hk s b s' H. unfold bind in H.
  destruct (c s) as [a s1| |] eqn:E; try discriminate.
  exact (envsKept_trans _ _ _ _ (Hc s a s1 E) (Hk a s1 b s' H)).
Qed.

(** A computation that writes no environment and no output. *)
Lemma writesOnly_untouched {A} w (c : M A) :
  (forall s a s', c s = Done a s' ->
     envs s' = envs s /\ stdout s' = stdout s /\ (next s <= next s')%nat) ->
  writesOnly w c.
Proof.
  intros Hc s a s' H. destruct (Hc s a s' H) as (Henvs & Hout & Hnext).
  split; [exact Hnext|]. split; [|rewrite Hout; reflexivity].
  intros e _ _. rewrite Henvs. reflexivity.
Qed.

Ltac scope :=
  repeat first
    [ assumption
    | solve [auto with scope]
    | apply writesOnly_ret
    | apply writesOnly_panic
    | apply writesOnly_outOfFuel
    | apply writesOnly_bind; [|intros ?]
    | match goal with
      | |- writesOnly _ (if ?b then _ else _) => destruct b
      | |- writesOnly _ (match ?x with _ => _ end) => destruct x
      end ].

Create HintDb scope.

Ltac untouched :=
  apply writesOnly_untouched; intros ? ? ? H; inversion H; subst; simpl;
  (split; [reflexivity | split; [reflexivity | lia]]).

Lemma fresh_writes w : writesOnly w fresh.
Proof. untouched. Qed.

Lemma typeOf_writes w obj : writesOnly w (typeOf obj).
Proof. unfold typeOf. scope. Qed.

Lemma Set_writes env name val : writesOnly (Some env) (Set_ env name val).
Proof.
  intros s a s' H. unfold Set_ in H.
  destruct (envs s !! env) as [cell|]; inversion H; subst.
  split; [simpl; lia|]. split; [|reflexivity].
  intros e _ Hne. simpl. apply lookup_insert_ne. congruence.
Qed.

Lemma Get_writes w fuel : forall env name, writesOnly w (Get fuel env name).
Proof.
  intros env name. apply writesOnly_untouched. revert env.
  induction fuel as [|fuel IH]; intros env s a s' H; simpl in H.
  - discriminate H.
  - destruct (envs s !! env) as [cell|]; [|discriminate].
    destruct (store cell !! name), (outer cell); inversion H; subst;
      try (split; [reflexivity | split; [reflexivity | lia]]).
    exact (IH _ _ _ _ H).
Qed.

Lemma Elements_writes w a : writesOnly w (Elements a).
Proof.
  apply writesOnly_untouched. intros s els s' H. unfold Elements in H.
  destruct (arrays s !! a); inversion H; subst.
  split; [reflexivity | split; [reflexivity | lia]].
Qed.

Lemma writeElements_writes w a els : writesOnly w (writeElements a els).
Proof. untouched. Qed.

#[export] Hint Resolve fresh_writes typeOf_writes Set_writes Get_writes
  Elements_writes writeElements_writes : scope.

Lemma make_writes w n : writesOnly w (make n).
Proof. unfold make. scope. Qed.

Lemma newArray_writes w els : writesOnly w (newArray els).
Proof. unfold newArray. scope. Qed.

Lemma copy_writes w dst src : writesOnly w (copy dst src).
Proof. unfold copy. scope. Qed.

Lemma setIndex_writes w a i v : writesOnly w (setIndex a i v).
Proof. unfold setIndex. scope. Qed.

Lemma newError_writes w msg : writesOnly w (newError msg).
Proof. unfold newError. scope. Qed.

Lemma newInteger_writes w v : writesOnly w (newInteger v).
Proof. unfold newInteger. scope. Qed.

#[export] Hint Resolve make_writes newArray_writes copy_writes setIndex_writes
  newError_writes newInteger_writes : scope.

Lemma typesAre_writes w tl tr l r : writesOnly w (typesAre tl tr l r).
Proof. unfold typesAre. scope. Qed.

#[export] Hint Resolve typesAre_writes : scope.

Lemma evalPrefixExpression_writes w op right : writesOnly w (evalPrefixExpression op right).
Proof. unfold evalPrefixExpression, evalMinusPrefixOperatorExpression. scope. Qed.

Lemma evalInfixExpression_writes w op l r : writesOnly w (evalInfixExpression op l r).
Proof.
  unfold evalInfixExpression, evalIntegerInfixExpression, evalStringInfixExpression.
  scope.
Qed.

Lemma evalIndexExpression_writes w hashString l i :
  writesOnly w (evalIndexExpression hashString l i).
Proof.
  unfold evalIndexExpression, evalArrayIndexExpression, evalHashIndexExpression.
  scope.
Qed.

(** [puts] adds to the output, and writes nothing else. *)
Lemma println_writes w Inspect arg : writesOnly w (println Inspect arg).
Proof.
  unfold println. destruct arg; try apply writesOnly_panic;
    intros s u s' H; inversion H; subst;
    (split; [simpl; lia | split; [reflexivity | simpl; apply prefix_app_r; reflexivity]]).
Qed.

#[export] Hint Resolve evalPrefixExpression_writes evalInfixExpression_writes
  evalIndexExpression_writes println_writes : scope.

Lemma putsFunc_writes w Inspect args : writesOnly w (putsFunc Inspect args).
Proof. induction args; simpl; scope. Qed.

Lemma callBuiltin_writes w Inspect fn args : writesOnly w (callBuiltin Inspect fn args).
Proof.
  destruct fn; simpl; try apply putsFunc_writes;
    unfold lenFunc, firstFunc, lastFunc, restFunc, pushFunc, withArrayArgument,
      wrongNumberOfArguments;
    scope.
Qed.

Lemma bindParams_writes env args params :
  forall idx, writesOnly (Some env) (bindParams env params args idx).
Proof. induction params; intros idx; simpl; scope. Qed.

(** The environment of a call is at a new address: making it and binding the
    parameters in it leaves every environment that was there as it was. *)
Lemma extendFunctionEnv_writes params fnEnv args s env s1 :
  extendFunctionEnv params fnEnv args s = Done env s1 ->
  env = next s /\ (env < next s1)%nat /\ envsKept None s s1.
Proof.
  intros H. unfold extendFunctionEnv, bind at 1, NewClosedEnv, bind at 1, fresh in H.
  unfold bind in H.
  match type of H with
  | context [bindParams ?e _ _ _ ?st] =>
      destruct (bindParams e params args 0 st) as [u s0| |] eqn:E; try discriminate;
      pose proof (bindParams_writes _ _ _ _ _ _ _ E) as (Hnext & Hkept & Hout)
  end.
  inversion H; subst. simpl in *. split; [reflexivity|]. split; [lia|].
  split; [lia|]. split; [|exact Hout].
  intros e He _. rewrite Hkept by (lia || (intros Heq; inversion Heq; lia)).
  apply lookup_insert_ne. lia.
Qed.

#[export] Hint Resolve callBuiltin_writes : scope.

Section Loops.

Variable hashString : string -> Z.
Variable Inspect : State -> Object -> string.
Variable rangeOrder :
  list (Ast.Expression * Ast.Expression) -> list (Ast.Expression * Ast.Expression).

Variable ev : Evaluate.
Hypothesis ev_writes : forall node env, writesOnly (Some env) (ev node env).

Lemma evalProgram_writes stmts env : writesOnly (Some env) (evalProgram ev stmts env).
Proof.
  unfold evalProgram. generalize Nil.
  induction stmts; intros res; simpl; scope; auto.
Qed.

Lemma evalBlockStatement_writes stmts env :
  writesOnly (Some env) (evalBlockStatement ev stmts env).
Proof.
  unfold evalBlockStatement. generalize Nil.
  induction stmts; intros res; simpl; scope; auto.
Qed.

Lemma evalExpressions_writes exprs env :
  writesOnly (Some env) (evalExpressions ev exprs env).
Proof.
  unfold evalExpressions. generalize (@nil Object).
  induction exprs; intros res; simpl; scope; auto.
Qed.

Lemma evalHashLiteral_writes pairs env :
  writesOnly (Some env) (evalHashLiteral hashString rangeOrder ev pairs env).
Proof.
  unfold evalHashLiteral. generalize (∅ : gmap HashKey (Object * Object)).
  induction (rangeOrder pairs) as [|[keyNode valNode] entries IH]; intros m; simpl;
    scope; auto.
Qed.

Lemma evalIfExpression_writes c consequence alternative env :
  writesOnly (Some env) (evalIfExpression ev c consequence alternative env).
Proof. unfold evalIfExpression. scope; auto. Qed.

(** A call writes no environment that was there before it. *)
Lemma applyFunction_writes fn args : writesOnly None (applyFunction Inspect ev fn args).
Proof.
  destruct fn as [| ? ? | ? | | ? ? | ? ? | ? ? | p params body fnEnv | ? | ? | ? ?];
    try (unfold applyFunction; scope; fail).
  intros s r s' H. unfold applyFunction, bind at 1 in H.
  destruct (extendFunctionEnv params fnEnv args s) as [env s1| |] eqn:E; try discriminate.
  destruct (extendFunctionEnv_writes _ _ _ _ _ _ E) as (-> & Hlt & Hnext & Hkept & Hout).
  unfold bind in H.
  destruct (ev (Ast.NStatement (Ast.BlockStatement body)) (next s) s1)
    as [r' s2| |] eqn:E2; try discriminate.
  inversion H; subst.
  destruct (ev_writes _ _ _ _ _ E2) as (Hnext2 & Hkept2 & Hout2).
  split; [lia|]. split; [|etransitivity; eassumption].
  intros e He _. rewrite Hkept2 by (lia || (intros Heq; inversion Heq; lia)).
  apply Hkept; [exact He | discriminate].
Qed.

Lemma applyFunction_writes' w fn args : writesOnly w (applyFunction Inspect ev fn args).
Proof. intros s r s' H. apply envsKept_weaken. exact (applyFunction_writes _ _ _ _ _ H). Qed.

End Loops.

Lemma Eval_writes hashString Inspect rangeOrder (fuel : nat) :
  forall node env,
    writesOnly (Some env) (Eval hashString Inspect rangeOrder fuel node env).
Proof.
  induction fuel as [|fuel IH]; intros node env; [apply writesOnly_outOfFuel|].
  pose proof (evalProgram_writes _ IH) as Hprogram.
  pose proof (evalBlockStatement_writes _ IH) as Hblock.
  pose proof (evalExpressions_writes _ IH) as Hexprs.
  pose proof (evalHashLiteral_writes hashString rangeOrder _ IH) as Hhash.
  pose proof (evalIfExpression_writes _ IH) as Hif.
  pose proof (fun fn args => applyFunction_writes' Inspect _ IH (Some env) fn args) as Happly.
  destruct node as [stmts | stmt | e]; simpl.
  - apply Hprogram.
  - destruct stmt; scope.
  - destruct e; try (unfold evalIdentifier); scope.
Qed.

(** X27: evaluating a node writes no environment but the one it is given:
    every other environment that was in memory has the bindings it had; and
    the output is only added to, what was written stays. *)
Theorem evaluation_writes_only_its_environment hashString Inspect rangeOrder (fuel : nat)
    (node : Ast.Node) (env : ptr) (s s' : State) (r : Object) :
  Eval hashString Inspect rangeOrder fuel node env s = Done r s' ->
  (forall e : ptr, (e < next s)%nat -> e <> env -> envs s' !! e = envs s !! e) /\
  stdout s `prefix_of` stdout s'.
Proof.
  intros H. destruct (Eval_writes _ _ _ _ _ _ _ _ _ H) as (_ & Hkept & Hout).
  split; [|exact Hout]. intros e He Hne. apply Hkept; [exact He | congruence].
Qed.

(** X28: a call changes no binding: whatever the Function or builtin does,
    every environment that was in memory before the call, the caller's and
    the closure's too, has afterwards the bindings it had. The parameters
    and the let statements of the body go to the new environment. *)
Theorem calls_leave_every_environment hashString Inspect rangeOrder (fuel : nat)
    (fn : Object) (args : list Object) (s s' : State) (r : Object) :
  applyFunction Inspect (Eval hashString Inspect rangeOrder fuel) fn args s = Done r s' ->
  forall e : ptr, (e < next s)%nat -> envs s' !! e = envs s !! e.
Proof.
  intros H e He.
  destruct (applyFunction_writes Inspect _ (Eval_writes hashString Inspect rangeOrder fuel)
              _ _ _ _ _ H) as (_ & Hkept & _).
  apply Hkept; [exact He | discriminate].
Qed.

End ScopeFacts.

(** * What the parser leaves behind *)

Module FrameFacts.
Import Go Token Parser Streams Shapes MemoryFacts.
Local Open Scope list_scope.

Section Frame.

Variable e0 : list string.
Variable l0 : list Token.

Let I := onward e0 l0.

Lemma read_onward {A} (f : Parser -> A) : preserves I (fun p => Done (f p) p).
Proof. intros p a p' HI H. inversion H; subst. exact HI. Qed.

Lemma nextToken_onward : preserves I nextToken.
Proof.
  intros p u p' [He Hl] H. rewrite ParserFacts.nextToken_run in H. inversion H; subst.
  split; [exact He|]. unfold advance. cbn [l].
  destruct (l p) as [|tok rest] eqn:E; simpl; [exact Hl|].
  eapply suffix_cons_l. exact Hl.
Qed.

Lemma appendError_onward msg : preserves I (appendError msg).
Proof.
  intros p u p' [He Hl] H. inversion H; subst. split; [|exact Hl]. cbn [errors].
  apply prefix_app_r. exact He.
Qed.

Lemma currType_onward : preserves I currType.
Proof. apply (read_onward (fun p => Type_ (currT p))). Qed.

Lemma currLiteral_onward : preserves I currLiteral.
Proof. apply (read_onward (fun p => Literal (currT p))). Qed.

Lemma peekType_onward : preserves I peekType.
Proof. apply (read_onward (fun p => Type_ (peekT p))). Qed.

Lemma currTIs_onward t : preserves I (currTIs t).
Proof. apply (read_onward (fun p => String.eqb (Type_ (currT p)) t)). Qed.

Lemma peekTokenIs_onward t : preserves I (peekTokenIs t).
Proof. apply (read_onward (fun p => String.eqb (Type_ (peekT p)) t)). Qed.

#[local] Hint Resolve nextToken_onward appendError_onward currType_onward currLiteral_onward
  peekType_onward currTIs_onward peekTokenIs_onward : preserve.

Lemma expectPeek_onward t : preserves I (expectPeek t).
Proof. unfold expectPeek, peekError. preserve. Qed.

Lemma peekPrecendence_onward : preserves I peekPrecendence.
Proof. unfold peekPrecendence. preserve. Qed.

Lemma currPrecendence_onward : preserves I currPrecendence.
Proof. unfold currPrecendence. preserve. Qed.

Lemma skipToSemicolon_onward fuel : preserves I (skipToSemicolon fuel).
Proof. induction fuel as [|fuel IH]; simpl; preserve. Qed.

#[local] Hint Resolve expectPeek_onward peekPrecendence_onward currPrecendence_onward
  skipToSemicolon_onward : preserve.

Variable ParseInt : string -> option Z.
Variable Quote : string -> string.

Section Handlers.

Variable fuel : nat.
Variable pe : nat -> P Ast.Expression.
Hypothesis pe_onward : forall precedence, preserves I (pe precedence).

Lemma parseStatment_onward : preserves I (parseStatment fuel pe).
Proof.
  unfold parseStatment, parseLetStatement, parseReturnStatement, parseExpressionStatment.
  preserve.
Qed.

Lemma parseBlockStatement_onward : preserves I (parseBlockStatement fuel pe).
Proof.
  assert (Hloop : forall n stmts, preserves I (parseBlockStatementFrom fuel pe n stmts)).
  { pose proof parseStatment_onward.
    induction n as [|n IH]; intros stmts; simpl; preserve. }
  unfold parseBlockStatement. preserve.
Qed.

Lemma parseFunctionParams_onward : preserves I (parseFunctionParams fuel).
Proof.
  assert (Hloop : forall n idents, preserves I (parseFunctionParamsFrom n idents)).
  { induction n as [|n IH]; intros idents; simpl; preserve. }
  unfold parseFunctionParams. preserve.
Qed.

Lemma parseExpressionList_onward end_ : preserves I (parseExpressionList fuel pe end_).
Proof.
  assert (Hloop : forall n exprs, preserves I (parseExpressionListFrom pe n exprs)).
  { induction n as [|n IH]; intros exprs; simpl; preserve. }
  unfold parseExpressionList. preserve.
Qed.

Lemma parseCallArguments_onward : preserves I (parseCallArguments fuel pe).
Proof.
  assert (Hloop : forall n exprs, preserves I (parseCallArgumentsFrom pe n exprs)).
  { induction n as [|n IH]; intros exprs; simpl; preserve. }
  unfold parseCallArguments. preserve.
Qed.

Lemma parseHashLiteral_onward : preserves I (parseHashLiteral fuel pe).
Proof.
  assert (Hloop : forall n pairs, preserves I (parseHashLiteralFrom pe n pairs)).
  { induction n as [|n IH]; intros pairs; simpl; preserve. }
  unfold parseHashLiteral. preserve.
Qed.

Lemma callPrefix_onward prefix : preserves I (callPrefix ParseInt Quote fuel pe prefix).
Proof.
  pose proof parseBlockStatement_onward. pose proof parseFunctionParams_onward.
  pose proof parseExpressionList_onward. pose proof parseHashLiteral_onward.
  destruct prefix; simpl;
    unfold parseIdentifier, parseIntegerLiteral, parsePrefixExpression, parseBoolean,
      parseGroupedExpression, parseIfExpression, parseFunctionLiteral,
      parseStringLiteral, parseArrayLiteral, noPrefixParseFnError;
    preserve.
Qed.

Lemma callInfix_onward infix left : preserves I (callInfix fuel pe infix left).
Proof.
  pose proof parseExpressionList_onward.
  destruct infix; simpl;
    unfold parseInfixExpression, parseCallExpression, parseIndexExpression;
    preserve.
Qed.

Lemma parseExpressionBody_onward precedence :
  preserves I (parseExpressionBody ParseInt Quote fuel pe precedence).
Proof.
  assert (Hloop : forall n left, preserves I (parseExpressionFrom fuel pe n precedence left)).
  { pose proof callInfix_onward.
    induction n as [|n IH]; intros left; simpl; preserve. }
  pose proof callPrefix_onward.
  unfold parseExpressionBody, noPrefixParseFnError. preserve.
Qed.

End Handlers.

Lemma parseExpression_onward (fuel : nat) :
  forall precedence, preserves I (parseExpression ParseInt Quote fuel precedence).
Proof.
  induction fuel as [|fuel IH]; intros precedence; [apply preserves_outOfFuel|].
  apply parseExpressionBody_onward. exact IH.
Qed.

Lemma ParseProgram_onward (fuel : nat) : preserves I (ParseProgram ParseInt Quote fuel).
Proof.
  pose proof (parseStatment_onward fuel _ (parseExpression_onward fuel)) as Hstmt.
  unfold ParseProgram. generalize (@nil Ast.Statement). generalize fuel at 1.
  intros n. induction n as [|n IH]; intros stmts; simpl; preserve.
Qed.

End Frame.

(** X29: when [ParseProgram] returns, the errors the parser had are still
    there, in front of those it added, and the tokens left in the lexer are
    an end piece of those it started with: no error is dropped and no token
    is put back. *)
Theorem parser_only_adds_errors_and_takes_tokens ParseInt Quote (fuel : nat)
    (p p' : Parser) (stmts : list Ast.Statement) :
  ParseProgram ParseInt Quote fuel p = Done stmts p' ->
  errors p `prefix_of` errors p' /\ l p' `suffix_of` l p.
Proof.
  intros H.
  exact (ParseProgram_onward (errors p) (l p) ParseInt Quote fuel p stmts p'
           (conj (reflexivity _) (reflexivity _)) H).
Qed.

Section Deprecated.

Variable fuel : nat.
Variable pe : nat -> P Ast.Expression.

Lemma bind_alike {St A B} (c : Go.M St A) (k k' : A -> Go.M St B) (s : St) :
  (forall a s', k a s' = k' a s') -> bind c k s = bind c k' s.
Proof. intros Hk. unfold bind. destruct (c s); [apply Hk | reflexivity | reflexivity]. Qed.

(** X30: the deprecated [parseCallArguments] does what
    [parseExpressionList] does with [)] as the closing token, from every
    parser state and with every expression parser: the same list, the same
    tokens taken, the same errors. *)
Theorem parseCallArguments_is_parseExpressionList (p : Parser) :
  parseCallArguments fuel pe p = parseExpressionList fuel pe RPAREN p.
Proof.
  assert (Hloop : forall n exprs p',
            parseCallArgumentsFrom pe n exprs p' = parseExpressionListFrom pe n exprs p').
  { induction n as [|n IH]; intros exprs p'; [reflexivity|].
    cbn [parseCallArgumentsFrom parseExpressionListFrom].
    apply bind_alike. intros [|] p1; [|reflexivity].
    apply bind_alike. intros _ p2. apply bind_alike. intros _ p3.
    apply bind_alike. intros arg p4. apply IH. }
  unfold parseCallArguments, parseExpressionList.
  apply bind_alike. intros [|] p1; [reflexivity|].
  apply bind_alike. intros _ p2. apply bind_alike. intros first p3.
  unfold bind at 1 3. rewrite Hloop. reflexivity.
Qed.

End Deprecated.
End FrameFacts.

(** * Instances of the further properties *)

Module MoreInstances.

Import Go Token Object Evaluator Runs Shapes Inputs.

Local Open Scope nat_scope.

Lemma afterArrayLiteral_arraysBelowNext : arraysBelowNext afterArrayLiteral.
Proof.
  exact (MemoryFacts.Eval_preserves _ _ _ _ _ _ _ _ _
           MemoryFacts.start_arraysBelowNext Instances.array_literal_run).
Qed.

(** [-5] is the Integer -5; [-] on nil panics. *)
Lemma minus_prefix_witness :
  TypeOf (Integer 1 5) = Some INTEGER_OBJ /\
  (exists v',
     evalMinusPrefixOperatorExpression (Integer 1 5) Host.start =
       Done (Integer 1 v') (allocated Host.start) /\
     v' = (- 5)%Z) /\
  evalMinusPrefixOperatorExpression Nil Host.start = Panic nilDereference.
Proof.
  split; [reflexivity|].
  destruct (PrefixFacts.minus_prefix (Integer 1 5) Host.start) as [Hobject _].
  destruct (Hobject INTEGER_OBJ eq_refl) as [Hinteger _].
  destruct (Hinteger 1 5%Z eq_refl ltac:(unfold int64; lia)) as (v' & Hrun & _ & Hneg & _).
  destruct (PrefixFacts.minus_prefix Nil Host.start) as [_ Hnil].
  split.
  - exists v'. split; [exact Hrun | apply Hneg; lia].
  - exact (Hnil eq_refl).
Defined.

(** The largest int64 plus 1 is the smallest. *)
Lemma integer_arithmetic_wraps_witness :
  ("+" = "+" /\ Z.add = Z.add \/ "+" = "-" /\ Z.add = Z.sub \/ "+" = "*" /\ Z.add = Z.mul) /\
  exists v,
    evalInfixExpression "+" (Integer 1 (2 ^ 63 - 1)) (Integer 2 1) Host.start =
      Done (Integer 1 v) (allocated Host.start) /\
    int64 v /\ ((v - (2 ^ 63 - 1 + 1)) mod 2 ^ 64 = 0)%Z.
Proof.
  split; [left; split; reflexivity|].
  destruct (IntegerFacts.integer_arithmetic_wraps "+" Z.add 1 2 (2 ^ 63 - 1) 1 Host.start
              (or_introl (conj eq_refl eq_refl))) as (v & Hrun & Hv & Hmod & _).
  exists v. split; [exact Hrun|]. split; [exact Hv | exact Hmod].
Defined.

(** [-7 / 2] is -3. *)
Lemma integer_division_truncates_witness :
  int64 (- 7) /\ int64 2 /\ 2%Z <> 0%Z /\
  exists v,
    evalInfixExpression "/" (Integer 1 (- 7)) (Integer 2 2) Host.start =
      Done (Integer 1 v) (allocated Host.start) /\
    v = (- 3)%Z.
Proof.
  assert (Ha : int64 (- 7)) by (unfold int64; lia).
  assert (Hb : int64 2) by (unfold int64; lia).
  assert (Hne : 2%Z <> 0%Z) by lia.
  split; [exact Ha|]. split; [exact Hb|]. split; [exact Hne|].
  destruct (IntegerFacts.integer_division_truncates 1 2 (- 7) 2 Host.start Ha Hb Hne)
    as (v & Hrun & _ & _ & Hquot).
  exists v. split; [exact Hrun|].
  destruct (Hquot ltac:(lia)) as [-> _]. reflexivity.
Defined.

(** [[1, 2, 3][1]] is the element at position 1. *)
Lemma array_index_in_bounds_or_null_witness :
  arrays afterArrayLiteral !! 4 = Some oneTwoThree /\
  exists el,
    oneTwoThree !! Z.to_nat 1 = Some el /\
    evalIndexExpression Host.hashString (Array 4) (Integer 9 1) afterArrayLiteral =
      Done el afterArrayLiteral.
Proof.
  split; [reflexivity|].
  destruct (IndexFacts.array_index_in_bounds_or_null
              Host.hashString 4 9 oneTwoThree 1 afterArrayLiteral eq_refl) as [Hin _].
  apply Hin. simpl. lia.
Defined.

(** [{1: 10, 1: 20}[1]] is 20 when the entries are evaluated in the order
    of the source. *)
Lemma hash_index_finds_last_entry_witness :
  evaluatesPairs Host.hashString (run 2) 0 (Host.insertionOrder duplicateKeys)
                 Host.start duplicateKeysMade (allocations 4 Host.start) /\
  HashKeyOf Host.hashString (Integer 9 1) = Some (INTEGER_OBJ, 1%Z) /\
  exists p pairs,
    evalHashLiteral Host.hashString Host.insertionOrder (run 2) duplicateKeys 0 Host.start =
      Done (Hash p pairs) (allocated (allocations 4 Host.start)) /\
    evalIndexExpression Host.hashString (Hash p pairs) (Integer 9 1) Host.start =
      Done (Integer 4 20) Host.start.
Proof.
  assert (Hmade : evaluatesPairs Host.hashString (run 2) 0
                    (Host.insertionOrder duplicateKeys)
                    Host.start duplicateKeysMade (allocations 4 Host.start)).
  { apply (evaluatesPairs_cons _ _ _ _ _ _ _ (Integer 1 1) (allocations 1 Host.start)
             (INTEGER_OBJ, 1%Z) (Integer 2 10) (allocations 2 Host.start));
      try reflexivity.
    apply (evaluatesPairs_cons _ _ _ _ _ _ _ (Integer 3 1) (allocations 3 Host.start)
             (INTEGER_OBJ, 1%Z) (Integer 4 20) (allocations 4 Host.start));
      try reflexivity.
    constructor. }
  split; [exact Hmade|]. split; [reflexivity|].
  destruct (IndexFacts.hash_index_finds_last_entry
              Host.hashString Host.insertionOrder (run 2) 0 duplicateKeys
              Host.start (allocations 4 Host.start) duplicateKeysMade
              (Integer 9 1) (INTEGER_OBJ, 1%Z) Hmade eq_refl) as (p & pairs & Hlit & Hidx).
  exists p, pairs. split; [exact Hlit|]. rewrite Hidx. reflexivity.
Defined.

(** [5[0]] is an Error; an index that is nil makes [[1, 2, 3][nil]]
    panic. *)
Lemma index_errors_witness :
  TypeOf (Integer 1 5) = Some INTEGER_OBJ /\ TypeOf (Integer 2 0) = Some INTEGER_OBJ /\
  evalIndexExpression Host.hashString (Integer 1 5) (Integer 2 0) Host.start =
    Done (Error 1 "index operator not supported: INTEGER[INTEGER]") (allocated Host.start) /\
  evalIndexExpression Host.hashString (Array 4) Nil afterArrayLiteral =
    Panic nilDereference.
Proof.
  split; [reflexivity|]. split; [reflexivity|].
  destruct (IndexFacts.index_errors Host.hashString (Integer 1 5) (Integer 2 0)
              Host.start) as [Hobjects _].
  destruct (Hobjects INTEGER_OBJ INTEGER_OBJ eq_refl eq_refl) as [Hother _].
  destruct (IndexFacts.index_errors Host.hashString (Array 4) Nil afterArrayLiteral)
    as [_ Hnil].
  split; [apply Hother; [discriminate | left; discriminate]|].
  apply Hnil. right. reflexivity.
Defined.

(** [rest([1, 2, 3])] is a new Array at address 5 with the elements 2 and 3;
    the Array at address 4 keeps its three. *)
Lemma rest_drops_first_witness :
  arraysBelowNext afterArrayLiteral /\
  arrays afterArrayLiteral !! 4 = Some oneTwoThree /\
  restFunc [Array 4] afterArrayLiteral =
    Done (Array 5) (withArray afterArrayLiteral [Integer 2 2; Integer 3 3]) /\
  arrays (withArray afterArrayLiteral [Integer 2 2; Integer 3 3]) !! 4 = Some oneTwoThree.
Proof.
  split; [exact afterArrayLiteral_arraysBelowNext|]. split; [reflexivity|].
  destruct (BuiltinMoreFacts.rest_drops_first 4 oneTwoThree afterArrayLiteral
              afterArrayLiteral_arraysBelowNext eq_refl) as [_ Hrest].
  destruct (Hrest (Integer 1 1) [Integer 2 2; Integer 3 3] eq_refl)
    as (Hrun & _ & Hold & _).
  split; [exact Hrun | exact Hold].
Defined.

(** After [push([1, 2, 3], true)] the new Array has four elements and the
    old one three. *)
Lemma len_after_push_and_rest_witness :
  arraysBelowNext afterArrayLiteral /\
  arrays afterArrayLiteral !! 4 = Some oneTwoThree /\
  exists arr s1,
    pushFunc [Array 4; TRUE] afterArrayLiteral = Done arr s1 /\
    lenFunc [arr] s1 = Done (Integer (next s1) 4) (allocated s1) /\
    lenFunc [Array 4] s1 = Done (Integer (next s1) 3) (allocated s1).
Proof.
  split; [exact afterArrayLiteral_arraysBelowNext|]. split; [reflexivity|].
  destruct (BuiltinMoreFacts.len_after_push_and_rest 4 TRUE oneTwoThree afterArrayLiteral
              afterArrayLiteral_arraysBelowNext eq_refl) as [Hpush _].
  exact Hpush.
Defined.

(** [first([1, 2, 3])] is [[1, 2, 3][0]]. *)
Lemma first_and_last_are_indexing_witness :
  arrays afterArrayLiteral !! 4 = Some oneTwoThree /\
  firstFunc [Array 4] afterArrayLiteral =
    evalIndexExpression Host.hashString (Array 4) (Integer 8 0) afterArrayLiteral /\
  lastFunc [Array 4] afterArrayLiteral =
    evalIndexExpression Host.hashString (Array 4) (Integer 9 2) afterArrayLiteral.
Proof.
  split; [reflexivity|].
  destruct (BuiltinMoreFacts.first_and_last_are_indexing
              Host.hashString 4 8 9 TRUE oneTwoThree afterArrayLiteral eq_refl)
    as (Hfirst & Hlast & _).
  split; [exact Hfirst | exact Hlast].
Defined.

(** [len()] is an Error. *)
Lemma builtin_wrong_number_of_arguments_witness :
  lenFn <> putsFn /\ length (@nil Object) <> wanted lenFn /\
  callBuiltin Host.Inspect lenFn [] Host.start =
  Done (Error 1 "wrong number of arguments. got=0, want=1") (allocated Host.start).
Proof.
  split; [discriminate|]. split; [discriminate|].
  exact (BuiltinMoreFacts.builtin_wrong_number_of_arguments Host.Inspect lenFn []
           Host.start ltac:(discriminate) ltac:(discriminate)).
Defined.

(** [first(5)] is an Error; [first] of nil panics. *)
Lemma builtin_wrong_argument_type_witness :
  length [Integer 1 5] = wanted firstFn /\
  TypeOf (Integer 1 5) = Some INTEGER_OBJ /\ INTEGER_OBJ <> ARRAY_OBJ /\
  callBuiltin Host.Inspect firstFn [Integer 1 5] Host.start =
    Done (Error 1 "argument to `first` must be ARRAY, got INTEGER") (allocated Host.start) /\
  callBuiltin Host.Inspect firstFn [Nil] Host.start = Panic nilDereference.
Proof.
  split; [reflexivity|]. split; [reflexivity|]. split; [discriminate|].
  destruct (BuiltinMoreFacts.builtin_wrong_argument_type Host.Inspect firstFn (Integer 1 5)
              [] Host.start eq_refl) as [Hobject _].
  destruct (Hobject INTEGER_OBJ eq_refl ltac:(discriminate)) as [Harray _].
  destruct (BuiltinMoreFacts.builtin_wrong_argument_type Host.Inspect firstFn Nil
              [] Host.start eq_refl) as [_ Hnil].
  split; [apply Harray; left; reflexivity|].
  apply Hnil; [reflexivity | discriminate].
Defined.

(** [puts(1, true)] writes two lines; [puts] of 1 and nil panics. *)
Lemma puts_writes_a_line_per_argument_witness :
  Forall (fun arg => arg <> Nil) [Integer 1 1; TRUE] /\
  (exists lines,
     putsFunc Host.Inspect [Integer 1 1; TRUE] Host.start =
       Done NULL (mkState (envs Host.start) (arrays Host.start) (next Host.start)
                          (stdout Host.start ++ lines)) /\
     length lines = 2) /\
  putsFunc Host.Inspect [Integer 1 1; Nil] Host.start = Panic nilDereference.
Proof.
  assert (Hargs : Forall (fun arg => arg <> Nil) [Integer 1 1; TRUE]).
  { repeat constructor; discriminate. }
  split; [exact Hargs|].
  destruct (BuiltinMoreFacts.puts_writes_a_line_per_argument Host.Inspect
              [Integer 1 1; TRUE] Host.start) as [Hlines' _].
  destruct (Hlines' Hargs) as (lines & Hrun & Hlines).
  destruct (BuiltinMoreFacts.puts_writes_a_line_per_argument Host.Inspect
              [Integer 1 1; Nil] Host.start) as [_ Hnil].
  split.
  - exists lines. split; [exact Hrun|]. exact (Forall2_length _ _ _ Hlines).
  - apply Hnil. right. left. reflexivity.
Defined.

Lemma start_envsClosed : envsClosed Host.start.
Proof.
  intros e cell H. cbn [Host.start envs] in H.
  apply lookup_singleton_Some in H as [<- <-].
  split; [simpl; lia | intros o Ho; discriminate Ho].
Qed.

(** After [Set("a", true)] on the global environment, [Get("a")] finds it. *)
Lemma set_then_get_witness :
  is_Some (envs Host.start !! 0) /\
  exists s',
    Set_ 0 "a" TRUE Host.start = Done TRUE s' /\
    Get 1 0 "a" s' = Done (TRUE, true) s'.
Proof.
  assert (H0 : is_Some (envs Host.start !! 0)) by (eexists; reflexivity).
  split; [exact H0|].
  destruct (EnvFacts.set_then_get 0 "a" TRUE Host.start H0) as (s' & Hset & Hget & _).
  exists s'. split; [exact Hset | exact (Hget 0)].
Defined.

(** A name set in an environment enclosed in the global one is found there,
    and the global environment answers as before. *)
Lemma enclosed_environment_shadows_witness :
  envsClosed Host.start /\ 0 < next Host.start /\
  exists e s1 s2,
    NewClosedEnv 0 Host.start = Done e s1 /\
    Set_ e "a" TRUE s1 = Done TRUE s2 /\
    Get 1 e "a" s2 = Done (TRUE, true) s2 /\
    answer (Get 1 0 "a" s2) = answer (Get 1 0 "a" Host.start).
Proof.
  assert (Hlt : 0 < next Host.start) by (simpl; lia).
  split; [exact start_envsClosed|]. split; [exact Hlt|].
  destruct (EnvFacts.enclosed_environment_shadows 0 "a" TRUE Host.start
              start_envsClosed Hlt) as (e & s1 & s2 & Hnew & Hset & Hget & _ & Hold).
  exists e, s1, s2. split; [exact Hnew|]. split; [exact Hset|].
  split; [exact (Hget 0) | exact (Hold 1 0 "a" Hlt)].
Defined.

(** [fn(x, y) { ... }(true, false, null)] binds [y] to the second argument. *)
Lemma parameters_bound_by_position_witness :
  NoDup ["x"; "y"] /\ length ["x"; "y"] <= length [TRUE; FALSE; NULL] /\
  exists s' cell,
    extendFunctionEnv ["x"; "y"] 0 [TRUE; FALSE; NULL] Host.start = Done 1 s' /\
    envs s' !! 1 = Some cell /\
    outer cell = Some 0 /\
    store cell !! "y" = Some FALSE.
Proof.
  assert (Hnodup : NoDup ["x"; "y"]).
  { apply (bool_decide_unpack _). vm_compute. exact I. }
  assert (Hlen : length ["x"; "y"] <= length [TRUE; FALSE; NULL]) by (simpl; lia).
  split; [exact Hnodup|]. split; [exact Hlen|].
  destruct (EnvFacts.parameters_bound_by_position ["x"; "y"] 0 [TRUE; FALSE; NULL]
              Host.start Hnodup Hlen) as (s' & cell & Hrun & Hcell & Houter & Hbound & _).
  exists s', cell. split; [exact Hrun|]. split; [exact Hcell|]. split; [exact Houter|].
  exact (Hbound 1 "y" eq_refl).
Defined.

(** [let a = 5; a] yields 5. *)
Lemma let_then_identifier_witness :
  run 2 (Ast.NExpression (Ast.IntegerLiteral 5)) 0 Host.start =
    Done (Integer 1 5) (allocated Host.start) /\
  isError (Integer 1 5) = false /\
  envs (allocated Host.start) !! 0 = Some (mkEnv ∅ None) /\
  run 4 (Ast.NProgram [Ast.LetStatement "a" (Ast.IntegerLiteral 5);
                       Ast.ExpressionStatement (Ast.Identifier "a")]) 0 Host.start =
  Done (Integer 1 5) (bound (allocated Host.start) 0 (mkEnv ∅ None) "a" (Integer 1 5)).
Proof.
  split; [reflexivity|]. split; [reflexivity|]. split; [reflexivity|].
  destruct (EvalFacts.let_then_identifier
              Host.hashString Host.Inspect Host.insertionOrder 0 "a"
              (Ast.IntegerLiteral 5) 0 Host.start (allocated Host.start)
              (Integer 1 5) (mkEnv ∅ None) eq_refl eq_refl eq_refl) as [_ Hprogram].
  exact Hprogram.
Defined.

(** [len], bound nowhere, is the builtin, and [foobar] is not found. *)
Lemma unbound_identifier_witness :
  Get 1 0 "len" Host.start = Done (Nil, false) Host.start /\
  Get 1 0 "foobar" Host.start = Done (Nil, false) Host.start /\
  Fmt.holdsPercent "foobar" = false /\
  run 2 (Ast.NExpression (Ast.Identifier "len")) 0 Host.start =
    Done (BuiltIn lenFn) Host.start /\
  run 2 (Ast.NExpression (Ast.Identifier "foobar")) 0 Host.start =
    Done (Error 1 "identifier not found: foobar") (allocated Host.start).
Proof.
  split; [reflexivity|]. split; [reflexivity|]. split; [reflexivity|].
  destruct (EvalFacts.unbound_identifier
              Host.hashString Host.Inspect Host.insertionOrder 1 "len" 0 Host.start
              eq_refl) as [Hbuiltin _].
  destruct (EvalFacts.unbound_identifier
              Host.hashString Host.Inspect Host.insertionOrder 1 "foobar" 0 Host.start
              eq_refl) as [_ Hother].
  split; [apply Hbuiltin; left; reflexivity|].
  apply Hother; [|reflexivity].
  simpl. intros [H | [H | [H | [H | [H | [H | []]]]]]]; discriminate H.
Defined.

(** A name that holds a verb: [fmt.Sprintf] finds no operand for it. *)
Example percent_identifier_run :
  run 2 (Ast.NExpression (Ast.Identifier "%d")) 0 Host.start =
    Done (Error 1 "identifier not found: %!d(MISSING)") (allocated Host.start) /\
  run 2 (Ast.NExpression (Ast.Identifier "100%")) 0 Host.start =
    Done (Error 1 "identifier not found: 100%!(NOVERB)") (allocated Host.start).
Proof. split; vm_compute; reflexivity. Qed.

(** [-foobar] is the Error of [foobar]. *)
Lemma error_in_operand_is_the_result_witness :
  run 2 (Ast.NExpression (Ast.Identifier "foobar")) 0 Host.start =
    Done (Error 1 "identifier not found: foobar") (allocated Host.start) /\
  isError (Error 1 "identifier not found: foobar") = true /\
  run 3 (Ast.NExpression (Ast.PrefixExpression "-" (Ast.Identifier "foobar"))) 0
      Host.start =
  Done (Error 1 "identifier not found: foobar") (allocated Host.start).
Proof.
  split; [reflexivity|]. split; [reflexivity|].
  destruct (EvalFacts.error_in_operand_is_the_result
              Host.hashString Host.Inspect Host.insertionOrder 2
              (Ast.Identifier "foobar") 0 Host.start (allocated Host.start)
              (Error 1 "identifier not found: foobar") eq_refl eq_refl) as [Hprefix _].
  exact (Hprefix "-").
Defined.

(** In [let a = 5; a] the last statement decides: the block and the program
    yield 5. *)
Lemma last_statement_decides_witness :
  runsThrough (run 3) 0 [Ast.LetStatement "a" (Ast.IntegerLiteral 5)] Host.start
              (bound (allocated Host.start) 0 (mkEnv ∅ None) "a" (Integer 1 5)) /\
  run 3 (Ast.NStatement (Ast.ExpressionStatement (Ast.Identifier "a"))) 0
      (bound (allocated Host.start) 0 (mkEnv ∅ None) "a" (Integer 1 5)) =
    Done (Integer 1 5) (bound (allocated Host.start) 0 (mkEnv ∅ None) "a" (Integer 1 5)) /\
  evalBlockStatement (run 3)
    ([Ast.LetStatement "a" (Ast.IntegerLiteral 5)] ++
     [Ast.ExpressionStatement (Ast.Identifier "a")]) 0 Host.start =
  Done (Integer 1 5) (bound (allocated Host.start) 0 (mkEnv ∅ None) "a" (Integer 1 5)).
Proof.
  assert (Hpre : runsThrough (run 3) 0 [Ast.LetStatement "a" (Ast.IntegerLiteral 5)]
                   Host.start
                   (bound (allocated Host.start) 0 (mkEnv ∅ None) "a" (Integer 1 5))).
  { apply (runsThrough_cons _ _ _ _ _ Nil
             (bound (allocated Host.start) 0 (mkEnv ∅ None) "a" (Integer 1 5)));
      [reflexivity | reflexivity | constructor]. }
  assert (Hlast : run 3 (Ast.NStatement (Ast.ExpressionStatement (Ast.Identifier "a"))) 0
                    (bound (allocated Host.start) 0 (mkEnv ∅ None) "a" (Integer 1 5)) =
                  Done (Integer 1 5)
                    (bound (allocated Host.start) 0 (mkEnv ∅ None) "a" (Integer 1 5))).
  { vm_compute. reflexivity. }
  split; [exact Hpre|]. split; [exact Hlast|].
  destruct (EvalFacts.last_statement_decides (run 3) 0
              [Ast.LetStatement "a" (Ast.IntegerLiteral 5)]
              (Ast.ExpressionStatement (Ast.Identifier "a"))
              Host.start _ _ (Integer 1 5) Hpre Hlast) as [Hblock _].
  exact Hblock.
Defined.

(** In [foobar; puts(1)] the Error of [foobar] ends the program: nothing is
    written. *)
Lemma error_ends_program_and_block_witness :
  runsThrough (run 3) 0 [] Host.start Host.start /\
  run 3 (Ast.NStatement (Ast.ExpressionStatement (Ast.Identifier "foobar"))) 0 Host.start =
    Done (Error 1 "identifier not found: foobar") (allocated Host.start) /\
  isError (Error 1 "identifier not found: foobar") = true /\
  evalProgram (run 3)
    ([] ++ Ast.ExpressionStatement (Ast.Identifier "foobar") ::
           [Ast.ExpressionStatement (putsOf 1)]) 0 Host.start =
  Done (Error 1 "identifier not found: foobar") (allocated Host.start) /\
  stdout (allocated Host.start) = [].
Proof.
  assert (Hpre : runsThrough (run 3) 0 [] Host.start Host.start) by constructor.
  split; [exact Hpre|]. split; [reflexivity|]. split; [reflexivity|].
  destruct (EvalFacts.error_ends_program_and_block (run 3) 0 []
              (Ast.ExpressionStatement (Ast.Identifier "foobar"))
              [Ast.ExpressionStatement (putsOf 1)]
              Host.start Host.start (allocated Host.start)
              (Error 1 "identifier not found: foobar") Hpre eq_refl eq_refl)
    as [Hprogram _].
  split; [exact Hprogram | reflexivity].
Defined.

(** [push([9], 1)], evaluated in the memory that holds [[1, 2, 3]] at
    address 4, leaves that Array its three elements. *)
Lemma arrays_are_never_changed_witness :
  exists r s',
    run 5 (Ast.NExpression
             (Ast.CallExpression (Ast.Identifier "push")
                [Ast.ArrayLiteral [Ast.IntegerLiteral 9]; Ast.IntegerLiteral 1]))
        0 afterArrayLiteral = Done r s' /\
    arrays s' !! 4 = Some oneTwoThree.
Proof.
  eassert (Hrun : run 5 (Ast.NExpression
                          (Ast.CallExpression (Ast.Identifier "push")
                             [Ast.ArrayLiteral [Ast.IntegerLiteral 9];
                              Ast.IntegerLiteral 1]))
                      0 afterArrayLiteral = Done _ _) by (vm_compute; reflexivity).
  eexists _, _. split; [exact Hrun|].
  destruct (ImmutableFacts.arrays_are_never_changed _ _ _ _ _ _ _ _ _ Hrun)
    as (_ & Hkept & _).
  rewrite Hkept by (simpl; lia). reflexivity.
Defined.

(** [a + b * c] is [a + (b * c)]. *)
Lemma binary_operators_by_precedence_witness :
  In PLUS binaryOperators /\ In ASTERISK binaryOperators /\
  Parser.ParseProgram Host.ParseInt Host.Quote 4
    (Parser.New [identifier "a"; mkToken PLUS "+"; identifier "b";
                 mkToken ASTERISK "*"; identifier "c"]) =
  Done [Ast.ExpressionStatement
          (Ast.InfixExpression (Ast.Identifier "a") "+"
             (Ast.InfixExpression (Ast.Identifier "b") "*" (Ast.Identifier "c")))]
       finished.
Proof.
  assert (H1 : In PLUS binaryOperators) by (simpl; tauto).
  assert (H2 : In ASTERISK binaryOperators) by (simpl; tauto).
  split; [exact H1|]. split; [exact H2|].
  exact (PrecedenceFacts.binary_operators_by_precedence Host.ParseInt Host.Quote
           PLUS ASTERISK "+" "*" "a" "b" "c" 0 H1 H2).
Defined.

(** [-a + b] is [(-a) + b]. *)
Lemma prefix_call_and_index_bind_tighter_witness :
  In MINUS prefixOperators /\ In PLUS binaryOperators /\
  Parser.ParseProgram Host.ParseInt Host.Quote 4
    (Parser.New [mkToken MINUS "-"; identifier "a"; mkToken PLUS "+"; identifier "b"]) =
  Done [Ast.ExpressionStatement
          (Ast.InfixExpression (Ast.PrefixExpression "-" (Ast.Identifier "a")) "+"
             (Ast.Identifier "b"))]
       finished.
Proof.
  assert (H1 : In MINUS prefixOperators) by (simpl; tauto).
  assert (H2 : In PLUS binaryOperators) by (simpl; tauto).
  split; [exact H1|]. split; [exact H2|].
  destruct (PrecedenceFacts.prefix_call_and_index_bind_tighter Host.ParseInt Host.Quote
              MINUS PLUS "-" "+" "[" "]" "a" "b" "c" 0 H1 H2) as [Hprefix _].
  exact Hprefix.
Defined.

(** [let a = 5], evaluated in an environment enclosed in the global one,
    leaves the global environment as it was. *)
Lemma evaluation_writes_only_its_environment_witness :
  exists r s',
    run 2 (Ast.NStatement (Ast.LetStatement "a" (Ast.IntegerLiteral 5))) 1
        (mkState {[ 0 := mkEnv ∅ None; 1 := mkEnv ∅ (Some 0) ]} ∅ 2 []) = Done r s' /\
    envs s' !! 0 = Some (mkEnv ∅ None).
Proof.
  eassert (Hrun : run 2 (Ast.NStatement (Ast.LetStatement "a" (Ast.IntegerLiteral 5))) 1
                      (mkState {[ 0 := mkEnv ∅ None; 1 := mkEnv ∅ (Some 0) ]} ∅ 2 []) =
                  Done _ _) by (vm_compute; reflexivity).
  eexists _, _. split; [exact Hrun|].
  destruct (ScopeFacts.evaluation_writes_only_its_environment _ _ _ _ _ _ _ _ _ Hrun)
    as [Hkept _].
  rewrite Hkept by (simpl; lia). reflexivity.
Defined.

(** The call [fn(x) { let y = x; }(true)] of a closure of the global
    environment leaves the global environment as it was. *)
Lemma calls_leave_every_environment_witness :
  exists r s',
    applyFunction Host.Inspect (run 4)
      (Function 1 ["x"] [Ast.LetStatement "y" (Ast.Identifier "x")] 0) [TRUE]
      (allocated Host.start) = Done r s' /\
    envs s' !! 0 = Some (mkEnv ∅ None).
Proof.
  eassert (Hrun : applyFunction Host.Inspect (run 4)
                    (Function 1 ["x"] [Ast.LetStatement "y" (Ast.Identifier "x")] 0) [TRUE]
                    (allocated Host.start) = Done _ _) by (vm_compute; reflexivity).
  eexists _, _. split; [exact Hrun|].
  exact (eq_trans
           (ScopeFacts.calls_leave_every_environment _ _ _ _ _ _ _ _ _ Hrun 0
              ltac:(simpl; lia))
           eq_refl).
Defined.

(** Parsing [) ; ;], where no token starts an expression, puts two errors
    behind the one the parser had and takes the tokens. *)
Lemma parser_only_adds_errors_and_takes_tokens_witness :
  exists stmts p',
    Parser.ParseProgram Host.ParseInt Host.Quote 6
      (Parser.mkParser [mkToken SEMICOLON ";"] (mkToken RPAREN ")") (mkToken SEMICOLON ";")
                       ["earlier"]) = Done stmts p' /\
    ["earlier"] `prefix_of` Parser.errors p' /\
    Parser.l p' `suffix_of` [mkToken SEMICOLON ";"].
Proof.
  eassert (Hrun : Parser.ParseProgram Host.ParseInt Host.Quote 6
                    (Parser.mkParser [mkToken SEMICOLON ";"] (mkToken RPAREN ")")
                                     (mkToken SEMICOLON ";") ["earlier"]) = Done _ _)
    by (vm_compute; reflexivity).
  eexists _, _. split; [exact Hrun|].
  exact (FrameFacts.parser_only_adds_errors_and_takes_tokens _ _ _ _ _ _ Hrun).
Defined.

End MoreInstances.
